(** * FastF1 Ergast client: selector builder, result normaliser, query facade

    A shallow embedding of [fastf1/ergast.py].  Python objects live in an
    explicit store (a list of objects addressed by position); mutable
    dictionaries and lists are reached through references, so that aliasing
    between a normalised row and the raw record it was built from is
    visible.  Code that may raise returns a [result]; code that changes the
    store, issues requests or emits warnings is written in a small
    state-and-exception monad. *)

From Stdlib Require Import ZArith String Ascii List Lia DecimalString.
From Stdlib Require Import Floats.SpecFloat.
From stdpp Require Import base list strings.

Set Warnings "-register-all".

(** ** Python values and the object store *)

Abbreviation loc := nat (only parsing).

(** Python's [float] is IEEE binary64; [float(int)] rounds to nearest even. *)
Abbreviation pyfloat := spec_float (only parsing).

Inductive value : Type :=
| VNone
| VBool (b : bool)
| VInt (z : Z)
| VFloat (f : pyfloat)
| VStr (s : string)
| VRef (l : loc).

(** Heap objects: [dict] (insertion ordered, string keys as JSON has them),
    [list], and instances of [_ErgastResponseItem] with their single
    attribute [_response]. *)
Inductive obj : Type :=
| ODict (items : list (string * value))
| OList (elems : list value)
| OItem (response : value).

Abbreviation heap := (list obj) (only parsing).

(** ** Exceptions *)

Inductive exn : Type :=
| AttributeError
| TypeError
| ValueError
| KeyError
| IndexError
| OverflowError
| UnboundLocalError
| RecursionError
| ErgastJsonException (msg : string) (cause : exn)
| ErgastInvalidRequest (msg : string).

(** [class ErgastJsonException(ErgastException)] and
    [class ErgastInvalidRequest(ErgastException)]: the exception classes the
    module itself declares. *)
Definition is_ErgastException (e : exn) : bool :=
  match e with
  | ErgastJsonException _ _ | ErgastInvalidRequest _ => true
  | _ => false
  end.

Inductive result (A : Type) : Type :=
| Ok (a : A)
| Raise (e : exn).
Arguments Ok {A} a.
Arguments Raise {A} e.

(** ** State and exception monad *)

Definition M (S A : Type) : Type := S -> result A * S.

Definition ret {S A} (a : A) : M S A := fun s => (Ok a, s).

Definition raise {S A} (e : exn) : M S A := fun s => (Raise e, s).

Definition bind {S A B} (m : M S A) (k : A -> M S B) : M S B :=
  fun s =>
    match m s with
    | (Ok a, s') => k a s'
    | (Raise e, s') => (Raise e, s')
    end.

(** A computation that only reads the state. *)
Definition read {S A} (f : S -> result A) : M S A := fun s => (f s, s).

Notation "'do' x <- m ; k" := (bind m (fun x => k))
  (at level 10, x name, m at level 100, k at level 200).

Fixpoint for_each {S A} (body : A -> M S unit) (xs : list A) : M S unit :=
  match xs with
  | [] => ret tt
  | x :: xs' => do _ <- body x; for_each body xs'
  end.

Fixpoint map_result {A B} (f : A -> result B) (xs : list A) : result (list B) :=
  match xs with
  | [] => Ok []
  | x :: xs' =>
      match f x with
      | Raise e => Raise e
      | Ok y =>
          match map_result f xs' with
          | Raise e => Raise e
          | Ok ys => Ok (y :: ys)
          end
      end
  end.

(** ** Dictionaries as insertion-ordered association lists *)

Section Alist.
Context {V : Type}.

Fixpoint alist_get (k : string) (d : list (string * V)) : option V :=
  match d with
  | [] => None
  | (k', v) :: d' => if String.eqb k k' then Some v else alist_get k d'
  end.

Fixpoint alist_remove (k : string) (d : list (string * V)) : list (string * V) :=
  match d with
  | [] => []
  | (k', v) :: d' =>
      if String.eqb k k' then alist_remove k d' else (k', v) :: alist_remove k d'
  end.

(** [d[k] = v]: an existing key keeps its position, a new key goes last. *)
Fixpoint alist_set (k : string) (v : V) (d : list (string * V)) : list (string * V) :=
  match d with
  | [] => [(k, v)]
  | (k', v') :: d' =>
      if String.eqb k k' then (k, v) :: d' else (k', v') :: alist_set k v d'
  end.

Definition alist_update (kvs d : list (string * V)) : list (string * V) :=
  fold_left (fun acc kv => alist_set (fst kv) (snd kv) acc) kvs d.

Definition alist_mem (k : string) (d : list (string * V)) : bool :=
  match alist_get k d with Some _ => true | None => false end.

Fixpoint distinct_keys (d : list (string * V)) : bool :=
  match d with
  | [] => true
  | (k, _) :: d' => negb (alist_mem k d') && distinct_keys d'
  end.
End Alist.

(** ** Python primitives on the store *)

Definition float_is_zero (f : pyfloat) : bool :=
  match f with S754_zero _ => true | _ => false end.

(** Truth value of an object, as tested by [if x:]. *)
Definition truthy (h : heap) (v : value) : bool :=
  match v with
  | VNone => false
  | VBool b => b
  | VInt z => negb (Z.eqb z 0)
  | VFloat f => negb (float_is_zero f)
  | VStr s => negb (String.eqb s EmptyString)
  | VRef l =>
      match h !! l with
      | Some (ODict items) => negb (Nat.eqb (length items) 0)
      | Some (OList elems) => negb (Nat.eqb (length elems) 0)
      | Some (OItem _) => true
      | None => true
      end
  end.

Definition chars (s : string) : list value :=
  map (fun c => VStr (String c EmptyString)) (list_ascii_of_string s).

(** [len(x)] *)
Definition py_len (h : heap) (v : value) : result nat :=
  match v with
  | VStr s => Ok (String.length s)
  | VRef l =>
      match h !! l with
      | Some (ODict items) => Ok (length items)
      | Some (OList elems) => Ok (length elems)
      | _ => Raise TypeError
      end
  | _ => Raise TypeError
  end.

(** [x[i]] for an integer index [i >= 0] *)
Definition getitem_int (h : heap) (v : value) (i : nat) : result value :=
  match v with
  | VStr s =>
      match chars s !! i with Some c => Ok c | None => Raise IndexError end
  | VRef l =>
      match h !! l with
      | Some (OList elems) =>
          match elems !! i with Some x => Ok x | None => Raise IndexError end
      | Some (ODict _) => Raise KeyError
      | _ => Raise TypeError
      end
  | _ => Raise TypeError
  end.

(** [x[k]] for a string key [k] *)
Definition getitem_str (h : heap) (v : value) (k : string) : result value :=
  match v with
  | VRef l =>
      match h !! l with
      | Some (ODict items) =>
          match alist_get k items with Some x => Ok x | None => Raise KeyError end
      | _ => Raise TypeError
      end
  | _ => Raise TypeError
  end.

(** [x.get(k, default)]; only dictionaries have the method. *)
Definition dict_get (h : heap) (v : value) (k : string) (default : value)
  : result value :=
  match v with
  | VRef l =>
      match h !! l with
      | Some (ODict items) =>
          Ok (match alist_get k items with Some x => x | None => default end)
      | _ => Raise AttributeError
      end
  | _ => Raise AttributeError
  end.

(** [x.pop(k, default)]; a list has [pop] but takes no default. *)
Definition dict_pop (v : value) (k : string) (default : value) : M heap value :=
  fun h =>
    match v with
    | VRef l =>
        match h !! l with
        | Some (ODict items) =>
            (Ok (match alist_get k items with Some x => x | None => default end),
             <[l := ODict (alist_remove k items)]> h)
        | Some (OList _) => (Raise TypeError, h)
        | _ => (Raise AttributeError, h)
        end
    | _ => (Raise AttributeError, h)
    end.

(** [x.update({k1: v1, ...})] *)
Definition dict_update (v : value) (kvs : list (string * value)) : M heap unit :=
  fun h =>
    match v with
    | VRef l =>
        match h !! l with
        | Some (ODict items) => (Ok tt, <[l := ODict (alist_update kvs items)]> h)
        | _ => (Raise AttributeError, h)
        end
    | _ => (Raise AttributeError, h)
    end.

(** [x[k] = v] for a string key *)
Definition setitem_str (x : value) (k : string) (v : value) : M heap unit :=
  fun h =>
    match x with
    | VRef l =>
        match h !! l with
        | Some (ODict items) => (Ok tt, <[l := ODict (alist_set k v items)]> h)
        | _ => (Raise TypeError, h)
        end
    | _ => (Raise TypeError, h)
    end.

(** The elements [for e in x] runs over. *)
Definition py_iter (h : heap) (v : value) : result (list value) :=
  match v with
  | VStr s => Ok (chars s)
  | VRef l =>
      match h !! l with
      | Some (OList elems) => Ok elems
      | Some (ODict items) => Ok (map (fun kv => VStr (fst kv)) items)
      | _ => Raise TypeError
      end
  | _ => Raise TypeError
  end.

(** A new object gets the next free address. *)
Definition alloc (o : obj) : M heap value :=
  fun h => (Ok (VRef (length h)), h ++ [o]).

(** [float(int)]: correctly rounded, [OverflowError] when out of range. *)
Definition float_of_Z (z : Z) : result pyfloat :=
  match binary_normalize 53 1024 z 0 false with
  | S754_infinity _ => Raise OverflowError
  | f => Ok f
  end.

Definition float_zero : pyfloat := S754_zero false.

(** ** [copy.deepcopy]

    The library routine on the three kinds of objects of this model: the copy
    of a list, dictionary or instance is created empty, entered in the memo
    under the address of the original, and then filled with the copies of the
    components; immutable values are returned as they are.  The recursion is
    bounded by the number of objects in the store, which is enough whenever
    the nesting is finite (the interpreter's own recursion limit is not
    modelled). *)

Abbreviation memo := (list (loc * loc)) (only parsing).

Fixpoint memo_get (l : loc) (m : memo) : option loc :=
  match m with
  | [] => None
  | (l', y) :: m' => if Nat.eqb l l' then Some y else memo_get l m'
  end.

Definition list_append (y : loc) (v : value) (h : heap) : heap :=
  match h !! y with
  | Some (OList elems) => <[y := OList (elems ++ [v])]> h
  | _ => h
  end.

Definition dict_store (y : loc) (k : string) (v : value) (h : heap) : heap :=
  match h !! y with
  | Some (ODict items) => <[y := ODict (alist_set k v items)]> h
  | _ => h
  end.

Section DeepcopyComponents.
Variable copy : memo -> heap -> value -> option (memo * heap * value).

Fixpoint copy_elems (y : loc) (xs : list value) (m : memo) (h : heap)
  : option (memo * heap) :=
  match xs with
  | [] => Some (m, h)
  | x :: xs' =>
      match copy m h x with
      | Some (m1, h1, x') => copy_elems y xs' m1 (list_append y x' h1)
      | None => None
      end
  end.

Fixpoint copy_items (y : loc) (kvs : list (string * value)) (m : memo) (h : heap)
  : option (memo * heap) :=
  match kvs with
  | [] => Some (m, h)
  | (k, x) :: kvs' =>
      match copy m h x with
      | Some (m1, h1, x') => copy_items y kvs' m1 (dict_store y k x' h1)
      | None => None
      end
  end.
End DeepcopyComponents.

Fixpoint deepcopy_fuel (fuel : nat) (m : memo) (h : heap) (v : value)
  : option (memo * heap * value) :=
  match v with
  | VRef l =>
      match memo_get l m with
      | Some y => Some (m, h, VRef y)
      | None =>
          match fuel with
          | 0 => None
          | S fuel' =>
              let y := length h in
              match h !! l with
              | Some (OList xs) =>
                  match copy_elems (deepcopy_fuel fuel') y xs ((l, y) :: m)
                          (h ++ [OList []]) with
                  | Some (m', h') => Some (m', h', VRef y)
                  | None => None
                  end
              | Some (ODict kvs) =>
                  match copy_items (deepcopy_fuel fuel') y kvs ((l, y) :: m)
                          (h ++ [ODict []]) with
                  | Some (m', h') => Some (m', h', VRef y)
                  | None => None
                  end
              | Some (OItem r) =>
                  match deepcopy_fuel fuel' ((l, y) :: m) (h ++ [OItem VNone]) r with
                  | Some (m', h', r') => Some (m', <[y := OItem r']> h', VRef y)
                  | None => None
                  end
              | None => Some (m, h, v)
              end
          end
      end
  | _ => Some (m, h, v)
  end.

Definition deepcopy (v : value) : M heap value :=
  fun h =>
    match deepcopy_fuel (S (length h)) [] h v with
    | Some (_, h', v') => (Ok v', h')
    | None => (Raise RecursionError, h)
    end.

(** ** The result normaliser: [ErgastResultFrame._prepare_response] *)

Section Normaliser.

(** [float(s)] on a string is Python's number parser; it is a parameter of
    the model ([ValueError] is the only way it fails). *)
Variable float_of_string : string -> option pyfloat.

(** [float(x)] *)
Definition py_float (v : value) : result pyfloat :=
  match v with
  | VFloat f => Ok f
  | VInt z => float_of_Z z
  | VBool b => float_of_Z (if b then 1 else 0)
  | VStr s =>
      match float_of_string s with Some f => Ok f | None => Raise ValueError end
  | VNone | VRef _ => Raise TypeError
  end.

(** [if drv := data[i].pop('Driver', None): data[i].update({...})] *)
Definition flatten_driver (data : value) (i : nat) : M heap unit :=
  do row <- read (fun h => getitem_int h data i);
  do drv <- dict_pop row "Driver" VNone;
  do t <- read (fun h => Ok (truthy h drv));
  if t : bool then
    do row <- read (fun h => getitem_int h data i);
    do code <- read (fun h => dict_get h drv "code" (VStr ""));
    do number <- read (fun h => dict_get h drv "permanentNumber" (VStr ""));
    dict_update row [("Driver", code); ("DriverNumber", number)]
  else ret tt.

(** [if constr := data[i].pop('Constructors', None): ...] *)
Definition flatten_constructors (data : value) (i : nat) : M heap unit :=
  do row <- read (fun h => getitem_int h data i);
  do constr <- dict_pop row "Constructors" VNone;
  do t <- read (fun h => Ok (truthy h constr));
  if t : bool then
    do row <- read (fun h => getitem_int h data i);
    do elems <- read (fun h => py_iter h constr);
    do names <- read (fun h =>
                       map_result (fun e => dict_get h e "name" (VStr "")) elems);
    do lst <- alloc (OList names);
    dict_update row [("Constructors", lst)]
  else ret tt.

(** [if loc := data[i].pop('Location', None): ...] *)
Definition flatten_location (data : value) (i : nat) : M heap unit :=
  do row <- read (fun h => getitem_int h data i);
  do loc <- dict_pop row "Location" VNone;
  do t <- read (fun h => Ok (truthy h loc));
  if t : bool then
    do row <- read (fun h => getitem_int h data i);
    do lat <- read (fun h => dict_get h loc "lat" (VInt 0));
    do lat <- read (fun _ => py_float lat);
    do long <- read (fun h => dict_get h loc "long" (VInt 0));
    do long <- read (fun _ => py_float long);
    do locality <- read (fun h => dict_get h loc "locality" (VStr ""));
    do country <- read (fun h => dict_get h loc "country" (VStr ""));
    dict_update row [("Lat", VFloat lat); ("Long", VFloat long);
                     ("Locality", locality); ("Country", country)]
  else ret tt.

(** [data[i]['__ErgastResponse'] = _ErgastResponseItem(response[i])] *)
Definition attach_response (response data : value) (i : nat) : M heap unit :=
  do orig <- read (fun h => getitem_int h response i);
  do item <- alloc (OItem orig);
  do row <- read (fun h => getitem_int h data i);
  setitem_str row "__ErgastResponse" item.

Definition prepare_row (response data : value) (i : nat) : M heap unit :=
  do _ <- flatten_driver data i;
  do _ <- flatten_constructors data i;
  do _ <- flatten_location data i;
  attach_response response data i.

Definition _prepare_response (response : value) : M heap value :=
  do data <- deepcopy response;
  do n <- read (fun h => py_len h data);
  do _ <- for_each (prepare_row response data) (seq 0 n);
  ret data.

End Normaliser.


(** ** Nested Python values as trees

    A response decoded from JSON is a tree of dictionaries, lists and atoms.
    [tree] is that document; [objs p t] are the objects that hold it in the
    store from address [p] on (each object followed by the objects of its
    components, in order), and [root p t] is the value that denotes it. *)

Inductive tree : Type :=
| TNone
| TBool (b : bool)
| TInt (z : Z)
| TFloat (f : pyfloat)
| TStr (s : string)
| TList (ts : list tree)
| TDict (kvs : list (string * tree))
| TItem (t : tree).

Fixpoint tsize (t : tree) : nat :=
  match t with
  | TList ts => S (list_sum (map tsize ts))
  | TDict kvs => S (list_sum (map (fun kv => tsize (snd kv)) kvs))
  | TItem t' => S (tsize t')
  | _ => 0
  end.

Fixpoint tdepth (t : tree) : nat :=
  match t with
  | TList ts => S (list_max (map tdepth ts))
  | TDict kvs => S (list_max (map (fun kv => tdepth (snd kv)) kvs))
  | TItem t' => S (tdepth t')
  | _ => 0
  end.

Definition root (p : loc) (t : tree) : value :=
  match t with
  | TNone => VNone
  | TBool b => VBool b
  | TInt z => VInt z
  | TFloat f => VFloat f
  | TStr s => VStr s
  | TList _ | TDict _ | TItem _ => VRef p
  end.

Fixpoint roots (q : loc) (ts : list tree) : list value :=
  match ts with
  | [] => []
  | t :: ts' => root q t :: roots (q + tsize t) ts'
  end.

Fixpoint dict_items (q : loc) (kvs : list (string * tree)) : list (string * value) :=
  match kvs with
  | [] => []
  | (k, t) :: kvs' => (k, root q t) :: dict_items (q + tsize t) kvs'
  end.

Fixpoint objs (p : loc) (t : tree) : list obj :=
  match t with
  | TList ts =>
      OList (roots (S p) ts)
        :: (fix go (q : loc) (ts : list tree) : list obj :=
              match ts with
              | [] => []
              | t' :: ts' => objs q t' ++ go (q + tsize t') ts'
              end) (S p) ts
  | TDict kvs =>
      ODict (dict_items (S p) kvs)
        :: (fix go (q : loc) (kvs : list (string * tree)) : list obj :=
              match kvs with
              | [] => []
              | (_, t') :: kvs' => objs q t' ++ go (q + tsize t') kvs'
              end) (S p) kvs
  | TItem t' => OItem (root (S p) t') :: objs (S p) t'
  | _ => []
  end.

Fixpoint objs_seq (q : loc) (ts : list tree) : list obj :=
  match ts with
  | [] => []
  | t :: ts' => objs q t ++ objs_seq (q + tsize t) ts'
  end.

(** The tree [t] is held in the store [h] from address [p] on. *)
Definition stored_at (h : heap) (p : loc) (t : tree) : Prop :=
  forall j o, objs p t !! j = Some o -> h !! (p + j) = Some o.

Definition stored_seq (h : heap) (q : loc) (ts : list tree) : Prop :=
  forall j o, objs_seq q ts !! j = Some o -> h !! (q + j) = Some o.

(** [v] denotes a stored copy of the tree [t]. *)
Definition holds (h : heap) (v : value) (t : tree) : Prop :=
  exists p, v = root p t /\ stored_at h p t.

(** A Python dictionary has each key once. *)
Fixpoint tree_ok (t : tree) : bool :=
  match t with
  | TList ts => forallb tree_ok ts
  | TDict kvs =>
      forallb (fun kv => tree_ok (snd kv)) kvs && distinct_keys kvs
  | TItem t' => tree_ok t'
  | _ => true
  end.

(** The decoder builds its document from new objects. *)
Definition alloc_tree (t : tree) : M heap value :=
  fun h => (Ok (root (length h) t), h ++ objs (length h) t).

(** Reading a stored value back as a tree, following at most [fuel]
    references in depth. *)
Fixpoint map_option {A B} (f : A -> option B) (xs : list A) : option (list B) :=
  match xs with
  | [] => Some []
  | x :: xs' =>
      match f x, map_option f xs' with
      | Some y, Some ys => Some (y :: ys)
      | _, _ => None
      end
  end.

Fixpoint reify (fuel : nat) (h : heap) (v : value) : option tree :=
  match v with
  | VNone => Some TNone
  | VBool b => Some (TBool b)
  | VInt z => Some (TInt z)
  | VFloat f => Some (TFloat f)
  | VStr s => Some (TStr s)
  | VRef l =>
      match fuel with
      | 0 => None
      | S fuel' =>
          match h !! l with
          | Some (OList elems) => option_map TList (map_option (reify fuel' h) elems)
          | Some (ODict items) =>
              option_map TDict
                (map_option (fun kv => option_map (pair (fst kv)) (reify fuel' h (snd kv)))
                   items)
          | Some (OItem r) => option_map TItem (reify fuel' h r)
          | None => None
          end
      end
  end.

(** [v] denotes the tree [t] in the store [h]. *)
Definition rep (h : heap) (v : value) (t : tree) : Prop :=
  exists fuel, reify fuel h v = Some t.

(** ** [ErgastResultFrame]

    The frame is a [pandas.DataFrame] built from the list of dictionaries
    that [_prepare_response] returns.  It has one row per dictionary, in
    order, and one column per key, in the order in which the keys first
    appear; every row has a cell under every column, NaN where its dictionary
    has no such key.  A column in which some dictionary gives a Python object
    (a list, a dictionary, an instance) keeps what the dictionaries give, as
    it is.  What pandas stores for a column of scalars is its conversion to
    the type it infers for the column ([25] beside a missing cell becomes
    [25.0]); that conversion is the library's and a parameter of the model.
    Only this use of the constructor is modelled (an empty dictionary gives
    an empty frame, as an empty list does). *)

Record ErgastResultFrame : Type := { frame_rows : list (list (string * value)) }.

(** NaN, the cell of a row whose dictionary has no value for the column. *)
Definition nan : value := VFloat S754_nan.

(** The labels of the columns: every key, at its first appearance. *)
Definition add_label (cols : list string) (c : string) : list string :=
  if existsb (String.eqb c) cols then cols else cols ++ [c].

Definition labels (keys : list (list string)) : list string :=
  fold_left add_label (concat keys) [].

Definition is_object (given : option value) : bool :=
  match given with Some (VRef _) => true | _ => false end.

Section Frame.

(** The cells pandas stores for a column of scalars, from what the rows
    give ([None] for a row without the key). *)
Variable pandas_scalars : list (option value) -> list value.

Definition column_cells (dicts : list (list (string * value))) (c : string)
  : list value :=
  let given := map (alist_get c) dicts in
  if existsb is_object given then map (default nan) given
  else pandas_scalars given.

Definition frame_of_dicts (dicts : list (list (string * value))) : ErgastResultFrame :=
  let cols := labels (map (map fst) dicts) in
  {| frame_rows :=
       map (fun i => map (fun c => (c, nth i (column_cells dicts c) nan)) cols)
         (seq 0 (length dicts)) |}.

Definition DataFrame (h : heap) (data : value) : result ErgastResultFrame :=
  match data with
  | VRef l =>
      match h !! l with
      | Some (OList elems) =>
          match map_result
                  (fun e => match e with
                            | VRef le =>
                                match h !! le with
                                | Some (ODict items) => Ok items
                                | _ => Raise ValueError
                                end
                            | _ => Raise ValueError
                            end) elems with
          | Ok dicts => Ok (frame_of_dicts dicts)
          | Raise e => Raise e
          end
      | Some (ODict []) => Ok {| frame_rows := [] |}
      | _ => Raise ValueError
      end
  | _ => Raise ValueError
  end.

End Frame.

(** [getattr(e, '_response')] *)
Definition getattr_response (h : heap) (e : value) : result value :=
  match e with
  | VRef a => match h !! a with Some (OItem r) => Ok r | _ => Raise AttributeError end
  | _ => Raise AttributeError
  end.

(** [ErgastResultFrame.get_ergast_response]: [None] when the frame has no
    column [__ErgastResponse]; a row without a value in that column holds
    NaN there, which has no attribute [_response]. *)
Definition get_ergast_response (h : heap) (self : ErgastResultFrame)
  : result (option (list value)) :=
  if existsb (alist_mem "__ErgastResponse") (frame_rows self)
  then
    match map_result
            (fun row => match alist_get "__ErgastResponse" row with
                        | Some e => getattr_response h e
                        | None => Raise AttributeError
                        end) (frame_rows self) with
    | Ok originals => Ok (Some originals)
    | Raise e => Raise e
    end
  else Ok None.

(** ** The selector builder: [Ergast.select] *)

(** A filter value: an integer, or a string such as ['current']. *)
Inductive arg : Type :=
| AInt (z : Z)
| AStr (s : string).

(** [f"{x}"] *)
Definition format_arg (x : arg) : string :=
  match x with
  | AInt z => NilZero.string_of_int (Z.to_int z)
  | AStr s => s
  end.

Record ErgastSelectionObject : Type := { _selector : string }.

Definition select (season round circuit constructor driver : option arg)
  : ErgastSelectionObject :=
  let selector := EmptyString in
  let selector :=
    match season with Some x => selector +:+ "/" +:+ format_arg x | None => selector end in
  let selector :=
    match round with Some x => selector +:+ "/" +:+ format_arg x | None => selector end in
  let selector :=
    match circuit with
    | Some x => selector +:+ "/circuits/" +:+ format_arg x
    | None => selector
    end in
  let selector :=
    match constructor with
    | Some x => selector +:+ "/constructors/" +:+ format_arg x
    | None => selector
    end in
  let selector :=
    match driver with
    | Some x => selector +:+ "/drivers/" +:+ format_arg x
    | None => selector
    end in
  {| _selector := selector |}.

(** The path segment one filter contributes. *)
Definition segment (prefix : string) (x : option arg) : string :=
  match x with Some a => prefix +:+ format_arg a | None => EmptyString end.

(** ** The query facade

    The process state: the object store, the requests issued so far and the
    warnings emitted so far. *)

Record world : Type :=
  { store : list obj;
    requests : list string;
    warnings : list string }.

Definition lift_store {A} (m : M heap A) : M world A :=
  fun w =>
    let '(r, h') := m (store w) in
    (r, {| store := h'; requests := requests w; warnings := warnings w |}).

Record response : Type := { status_code : Z; content : string }.

Definition base_url : string := "https://ergast.com/api/f1".

Section Facade.
(** [fastf1.version.__version__] *)
Variable version : string.

(** [Cache.requests_get(url, headers=...)], the HTTP collaborator: the
    answer may depend on the requests made before. *)
Variable Cache_requests_get :
  list string -> string -> list (string * string) -> response.

(** [json.loads(content.decode('utf-8'))]: the decoded document, or the
    exception the decoding raises. *)
Variable json_loads : string -> result tree.

Variable float_of_string : string -> option pyfloat.

(** The conversion of scalar columns by [pandas.DataFrame]. *)
Variable pandas_scalars : list (option value) -> list value.

Definition _headers : list (string * string) := [("User-Agent", "FastF1/" +:+ version)].

Definition requests_get (url : string) : M world response :=
  fun w =>
    (Ok (Cache_requests_get (requests w) url _headers),
     {| store := store w; requests := requests w ++ [url]; warnings := warnings w |}).

Definition warn (msg : string) : M world unit :=
  fun w =>
    (Ok tt, {| store := store w; requests := requests w;
               warnings := warnings w ++ [msg] |}).

(** [ErgastSelectionObject._get] *)
Definition _get (url : string) : M world value :=
  do r <- requests_get url;
  if Z.eqb (status_code r) 200 then
    match json_loads (content r) with
    | Ok t => lift_store (alloc_tree t)
    | Raise exc =>
        raise (ErgastJsonException
                 ("Failed to parse Ergast response (" +:+ url +:+ ")") exc)
    end
  else raise (ErgastInvalidRequest ("Invalid request to Ergast (" +:+ url +:+ ")")).

Definition subscript_str (v : value) (k : string) : M world value :=
  read (fun w => getitem_str (store w) v k).

Definition subscript_int (v : value) (i : nat) : M world value :=
  read (fun w => getitem_int (store w) v i).

(** [ErgastResultFrame(None, response=resp)] *)
Definition ErgastResultFrame_new (data response : value) : M world ErgastResultFrame :=
  do data <- match data with
             | VNone => lift_store (_prepare_response float_of_string response)
             | _ => ret data
             end;
  read (fun w => DataFrame pandas_scalars (store w) data).

Definition get_circuits (self : ErgastSelectionObject) : M world ErgastResultFrame :=
  let url := base_url +:+ _selector self +:+ "/circuits.json" in
  do r <- _get url;
  do r <- subscript_str r "MRData";
  do r <- subscript_str r "CircuitTable";
  do resp <- subscript_str r "Circuits";
  ErgastResultFrame_new VNone resp.

Definition get_driver_standings (self : ErgastSelectionObject)
  : M world ErgastResultFrame :=
  let url := base_url +:+ _selector self +:+ "/driverStandings.json" in
  do r <- _get url;
  do r <- subscript_str r "MRData";
  do r <- subscript_str r "StandingsTable";
  do r <- subscript_str r "StandingsLists";
  do r <- subscript_int r 0;
  do resp <- subscript_str r "DriverStandings";
  ErgastResultFrame_new VNone resp.

Definition get_constructor_standings (self : ErgastSelectionObject)
  : M world ErgastResultFrame :=
  let url := base_url +:+ _selector self +:+ "/constructorStandings.json" in
  do r <- _get url;
  do r <- subscript_str r "MRData";
  do r <- subscript_str r "StandingsTable";
  do r <- subscript_str r "StandingsLists";
  do r <- subscript_int r 0;
  do resp <- subscript_str r "ConstructorStandings";
  ErgastResultFrame_new VNone resp.

(** [_parse_json_response] *)
Definition _parse_json_response (r : response) : M world value :=
  if Z.eqb (status_code r) 200 then
    match json_loads (content r) with
    | Ok t => lift_store (alloc_tree t)
    | Raise exc => raise exc
    end
  else
    do _ <- warn ("Request returned: " +:+ format_arg (AInt (status_code r)));
    ret VNone.

(** [_parse_ergast] *)
Definition _parse_ergast (data : value) : M world value :=
  do r <- subscript_str data "MRData";
  do r <- subscript_str r "RaceTable";
  subscript_str r "Races".

Definition fetch_season (year : arg) : M world value :=
  let url := base_url +:+ "/" +:+ format_arg year +:+ ".json" in
  do r <- requests_get url;
  do data <- _parse_json_response r;
  _parse_ergast data.

Definition fetch_day (year gp : arg) (day : string) : M world value :=
  let url := base_url +:+ "/" +:+ format_arg year +:+ "/" +:+ format_arg gp
             +:+ "/" +:+ day +:+ ".json" in
  do r <- requests_get url;
  _parse_json_response r.

(** The locals [day] and [sel] after the [if]/[elif] chain of
    [fetch_results]; [None] is a local that was never bound. *)
Definition session_locals (session : string) : option string * option string :=
  if String.eqb session "Race" then (Some "results", Some "Results")
  else if String.eqb session "Qualifying" then (Some "qualifying", Some "QualifyingResults")
  else if String.eqb session "Sprint Qualifying" || String.eqb session "Sprint"
       then (Some "sprint", Some "SprintResults")
  else (None, None).

(** Reading a local variable. *)
Definition local {A} (x : option A) : M world A :=
  match x with Some a => ret a | None => raise UnboundLocalError end.

Definition fetch_results (year gp : arg) (session : string) : M world value :=
  let '(day, sel) := session_locals session in
  do day <- local day;
  do r <- fetch_day year gp day;
  do races <- _parse_ergast r;
  do race <- subscript_int races 0;
  do sel <- local sel;
  subscript_str race sel.
End Facade.

(** ** What one pass of the loop body leaves in a row

    The items of row [i] after each of the three flattening steps, as
    functions of the items before the step; nested dictionaries are read in
    the store [h]. *)

Definition field (h : heap) (v : value) (k : string) (default : value) : value :=
  match dict_get h v k default with Ok x => x | Raise _ => default end.

Definition flat_driver (h : heap) (its : list (string * value)) : list (string * value) :=
  let rest := alist_remove "Driver" its in
  match alist_get "Driver" its with
  | Some drv =>
      if truthy h drv
      then alist_update [("Driver", field h drv "code" (VStr ""));
                         ("DriverNumber", field h drv "permanentNumber" (VStr ""))] rest
      else rest
  | None => rest
  end.

Definition constructor_names (h : heap) (constr : value) : list value :=
  match py_iter h constr with
  | Ok elems => map (fun e => field h e "name" (VStr "")) elems
  | Raise _ => []
  end.

Definition flat_constructors (h : heap) (lst : value) (its : list (string * value))
  : list (string * value) :=
  let rest := alist_remove "Constructors" its in
  match alist_get "Constructors" its with
  | Some constr =>
      if truthy h constr then alist_update [("Constructors", lst)] rest else rest
  | None => rest
  end.

Section FlatLocation.
Variable float_of_string : string -> option pyfloat.

Definition float_or_zero (v : value) : pyfloat :=
  match py_float float_of_string v with Ok f => f | Raise _ => float_zero end.

Definition flat_location (h : heap) (its : list (string * value))
  : list (string * value) :=
  let rest := alist_remove "Location" its in
  match alist_get "Location" its with
  | Some loc =>
      if truthy h loc
      then alist_update
             [("Lat", VFloat (float_or_zero (field h loc "lat" (VInt 0))));
              ("Long", VFloat (float_or_zero (field h loc "long" (VInt 0))));
              ("Locality", field h loc "locality" (VStr ""));
              ("Country", field h loc "country" (VStr ""))] rest
      else rest
  | None => rest
  end.

(** The list object the constructors step creates, if it creates one. *)
Definition constructors_ext (h : heap) (its : list (string * value)) : list obj :=
  match alist_get "Constructors" its with
  | Some constr => if truthy h constr then [OList (constructor_names h constr)] else []
  | None => []
  end.

(** The finished row, and the objects one iteration adds to the store. *)
Definition row_ext (h : heap) (its : list (string * value)) (orig : value) : list obj :=
  constructors_ext h (flat_driver h its) ++ [OItem orig].

(** [c] is the address of the list of constructor names, [a] that of the
    [_ErgastResponseItem]. *)
Definition row_items (h : heap) (c a : loc) (its : list (string * value))
  : list (string * value) :=
  alist_set "__ErgastResponse" (VRef a)
    (flat_location h (flat_constructors h (VRef c) (flat_driver h its))).
End FlatLocation.

(** ** The normaliser on documents

    What [_prepare_response] computes, read on trees: the record with its
    [Driver], [Constructors] and [Location] entries flattened and the
    original record attached.  The store-level code is proved to refine
    these functions on the records it accepts. *)

Definition tree_truthy (t : tree) : bool :=
  match t with
  | TNone => false
  | TBool b => b
  | TInt z => negb (Z.eqb z 0)
  | TFloat f => negb (float_is_zero f)
  | TStr s => negb (String.eqb s EmptyString)
  | TList ts => negb (Nat.eqb (length ts) 0)
  | TDict kvs => negb (Nat.eqb (length kvs) 0)
  | TItem _ => true
  end.

(** [t.get(k, default)] when [t] is a dictionary. *)
Definition tree_field (t : tree) (k : string) (default : tree) : tree :=
  match t with
  | TDict kvs => match alist_get k kvs with Some x => x | None => default end
  | _ => default
  end.

(** [t[k1][k2]...] on a document. *)
Fixpoint tree_path (t : tree) (ks : list string) : option tree :=
  match ks with
  | [] => Some t
  | k :: ks' =>
      match t with
      | TDict kvs =>
          match alist_get k kvs with Some t' => tree_path t' ks' | None => None end
      | _ => None
      end
  end.

Definition is_dict (t : tree) : bool :=
  match t with TDict _ => true | _ => false end.

Definition norm_driver (kvs : list (string * tree)) : list (string * tree) :=
  let rest := alist_remove "Driver" kvs in
  match alist_get "Driver" kvs with
  | Some drv =>
      if tree_truthy drv
      then alist_update [("Driver", tree_field drv "code" (TStr ""));
                         ("DriverNumber", tree_field drv "permanentNumber" (TStr ""))] rest
      else rest
  | None => rest
  end.

Definition tree_names (constr : tree) : list tree :=
  match constr with
  | TList cs => map (fun c => tree_field c "name" (TStr "")) cs
  | _ => []
  end.

Definition norm_constructors (kvs : list (string * tree)) : list (string * tree) :=
  let rest := alist_remove "Constructors" kvs in
  match alist_get "Constructors" kvs with
  | Some constr =>
      if tree_truthy constr
      then alist_update [("Constructors", TList (tree_names constr))] rest
      else rest
  | None => rest
  end.

Section RawRecord.
Variable float_of_string : string -> option pyfloat.

(** [float(x)] for the value a tree denotes. *)
Definition float_of_tree (t : tree) : result pyfloat := py_float float_of_string (root 0 t).

Definition tree_float (t : tree) : pyfloat := float_or_zero float_of_string (root 0 t).

Definition norm_location (kvs : list (string * tree)) : list (string * tree) :=
  let rest := alist_remove "Location" kvs in
  match alist_get "Location" kvs with
  | Some loc =>
      if tree_truthy loc
      then alist_update
             [("Lat", TFloat (tree_float (tree_field loc "lat" (TInt 0))));
              ("Long", TFloat (tree_float (tree_field loc "long" (TInt 0))));
              ("Locality", tree_field loc "locality" (TStr ""));
              ("Country", tree_field loc "country" (TStr ""))] rest
      else rest
  | None => rest
  end.

Definition normalize_record (rec : tree) : tree :=
  match rec with
  | TDict kvs =>
      TDict (alist_set "__ErgastResponse" (TItem rec)
               (norm_location (norm_constructors (norm_driver kvs))))
  | _ => rec
  end.

(** The keys of a record, in order. *)
Definition tree_keys (t : tree) : list string :=
  match t with TDict kvs => map fst kvs | _ => [] end.

(** *** Records the normaliser accepts

    A RawRecord is a mapping in which [Driver] and [Location], when they
    are there and not empty, are mappings, [Constructors] is a list of
    mappings, and [lat] and [long] are numbers or numeric strings; this is
    what the API returns.  On anything else the loop body raises. *)

Definition driver_ok (t : tree) : bool := negb (tree_truthy t) || is_dict t.

Definition constructors_ok (t : tree) : bool :=
  negb (tree_truthy t)
  || match t with TList cs => forallb is_dict cs | _ => false end.

Definition float_ok (t : tree) : bool :=
  match float_of_tree t with Ok _ => true | Raise _ => false end.

Definition location_ok (t : tree) : bool :=
  negb (tree_truthy t)
  || (is_dict t && float_ok (tree_field t "lat" (TInt 0))
                && float_ok (tree_field t "long" (TInt 0))).

Definition opt_ok (f : tree -> bool) (o : option tree) : bool :=
  match o with Some t => f t | None => true end.

Definition raw_record (rec : tree) : bool :=
  match rec with
  | TDict kvs =>
      opt_ok driver_ok (alist_get "Driver" kvs)
      && opt_ok constructors_ok (alist_get "Constructors" kvs)
      && opt_ok location_ok (alist_get "Location" kvs)
  | _ => false
  end.
End RawRecord.

(** Address of the [i]-th element of a list of trees stored after [b]. *)
Definition row_loc (b : loc) (recs : list tree) (i : nat) : loc :=
  S b + list_sum (map tsize (take i recs)).

(** The columns each flattening step adds to a record. *)
Definition new_driver_columns (kvs : list (string * tree)) : list (string * tree) :=
  match alist_get "Driver" kvs with
  | Some d =>
      if tree_truthy d
      then [("Driver", tree_field d "code" (TStr ""));
            ("DriverNumber", tree_field d "permanentNumber" (TStr ""))]
      else []
  | None => []
  end.

Definition new_constructors_columns (kvs : list (string * tree)) : list (string * tree) :=
  match alist_get "Constructors" kvs with
  | Some c => if tree_truthy c then [("Constructors", TList (tree_names c))] else []
  | None => []
  end.

Definition new_location_columns (float_of_string : string -> option pyfloat)
  (kvs : list (string * tree)) : list (string * tree) :=
  match alist_get "Location" kvs with
  | Some l =>
      if tree_truthy l
      then [("Lat", TFloat (tree_float float_of_string (tree_field l "lat" (TInt 0))));
            ("Long", TFloat (tree_float float_of_string (tree_field l "long" (TInt 0))));
            ("Locality", tree_field l "locality" (TStr ""));
            ("Country", tree_field l "country" (TStr ""))]
      else []
  | None => []
  end.

(** ** Subscripts on documents

    [t[k]] and [t[i]] read on trees, with the exception Python raises: a
    missing key is a [KeyError], an index out of range an [IndexError], a
    subscript on a value that has none a [TypeError]. *)

Inductive sub : Type :=
| Key (k : string)
| Idx (i : nat).

Definition tree_getitem (t : tree) (k : string) : result tree :=
  match t with
  | TDict kvs => match alist_get k kvs with Some x => Ok x | None => Raise KeyError end
  | _ => Raise TypeError
  end.

Definition tree_index (t : tree) (i : nat) : result tree :=
  match t with
  | TList ts => match ts !! i with Some x => Ok x | None => Raise IndexError end
  | TStr s =>
      match list_ascii_of_string s !! i with
      | Some c => Ok (TStr (String c EmptyString))
      | None => Raise IndexError
      end
  | TDict _ => Raise KeyError
  | _ => Raise TypeError
  end.

Fixpoint tree_sub (t : tree) (path : list sub) : result tree :=
  match path with
  | [] => Ok t
  | Key k :: path' =>
      match tree_getitem t k with Ok t' => tree_sub t' path' | Raise e => Raise e end
  | Idx i :: path' =>
      match tree_index t i with Ok t' => tree_sub t' path' | Raise e => Raise e end
  end.

(** A chain of subscripts [v[s1][s2]...] on the store. *)
Fixpoint subscripts (v : value) (path : list sub) : M world value :=
  match path with
  | [] => ret v
  | Key k :: path' => do v' <- subscript_str v k; subscripts v' path'
  | Idx i :: path' => do v' <- subscript_int v i; subscripts v' path'
  end.

(** ** [ErgastResultSeries] and the columns shown by [__repr__]

    A row of the frame as a series: the labels of its index with their
    values.  [get_ergast_response] is [None] when the index has no label
    [__ErgastResponse]. *)

Record ErgastResultSeries : Type := { series_items : list (string * value) }.

Definition series_get_ergast_response (h : heap) (self : ErgastResultSeries)
  : result (option value) :=
  match alist_get "__ErgastResponse" (series_items self) with
  | Some e =>
      match getattr_response h e with
      | Ok r => Ok (Some r)
      | Raise x => Raise x
      end
  | None => Ok None
  end.

(** [l.remove(x)]: the first occurrence goes; [ValueError] when there is
    none. *)
Fixpoint list_remove (x : string) (l : list string) : result (list string) :=
  match l with
  | [] => Raise ValueError
  | y :: l' =>
      if String.eqb x y then Ok l'
      else match list_remove x l' with
           | Ok r => Ok (y :: r)
           | Raise e => Raise e
           end
  end.

(** [view_cols = list(self.columns)] and, when [__ErgastResponse] is in
    it, [view_cols.remove('__ErgastResponse')]: the columns [__repr__] of
    the frame prints, and likewise the labels [__repr__] of the series
    prints. *)
Definition view_cols (columns : list string) : result (list string) :=
  if existsb (String.eqb "__ErgastResponse") columns
  then list_remove "__ErgastResponse" columns
  else Ok columns.

(** [Ergast.__init__]: the root object has the empty selector. *)
Definition Ergast_new : ErgastSelectionObject := {| _selector := EmptyString |}.

(** ** Assignment inside a document

    [t[k] = v] on a dictionary, and the document after a change [f] to
    what lies under a chain of keys; everything beside the chain stays. *)

Definition tree_setitem (t : tree) (k : string) (v : tree) : tree :=
  match t with TDict kvs => TDict (alist_set k v kvs) | _ => t end.

Fixpoint tree_at (path : list string) (f : tree -> tree) (t : tree) : tree :=
  match path with
  | [] => f t
  | k :: path' =>
      match t with
      | TDict kvs =>
          match alist_get k kvs with
          | Some c => TDict (alist_set k (tree_at path' f c) kvs)
          | None => t
          end
      | _ => t
      end
  end.

(** ** [fetch_weekend]

    The deprecated root-level function that adds the altitude of the
    circuit, asked from a second service, to the race data.  The log of
    warnings keeps the messages; the category ([FutureWarning] here) is not
    recorded. *)

Definition elevation_url : string :=
  "https://www.mapcoordinates.net/admin/component/edit/"
  +:+ "Vpc_MapCoordinates_Advanced_GoogleMapCoords_Component/"
  +:+ "Component/json-get-elevation".

Definition fetch_weekend_warning : string :=
  "`fetch_weekend()` is deprecated and will be"
  +:+ "removed without a direct replacement in a "
  +:+ "future version.".

Section Weekend.
Variable version : string.
Variable Cache_requests_get :
  list string -> string -> list (string * string) -> response.

(** [Cache.requests_post(url, data=body)]: the answer may depend on the
    requests made before and on the form fields, the dictionary [body] in
    the store. *)
Variable Cache_requests_post : list string -> string -> heap -> value -> response.

Variable json_loads : string -> result tree.

Definition requests_post (url : string) (body : value) : M world response :=
  fun w =>
    (Ok (Cache_requests_post (requests w) url (store w) body),
     {| store := store w; requests := requests w ++ [url]; warnings := warnings w |}).

Definition fetch_weekend (year gp : arg) : M world value :=
  do _ <- warn fetch_weekend_warning;
  let url := base_url +:+ "/" +:+ format_arg year +:+ "/" +:+ format_arg gp
             +:+ ".json" in
  do r <- requests_get version Cache_requests_get url;
  do d <- _parse_json_response json_loads r;
  do races <- _parse_ergast d;
  do data <- subscript_int races 0;
  let url := elevation_url in
  do c <- subscript_str data "Circuit";
  do loc <- subscript_str c "Location";
  do long <- subscript_str loc "long";
  do lat <- subscript_str loc "lat";
  do body <- lift_store (alloc (ODict [("longitude", long); ("latitude", lat)]));
  do r <- requests_post url body;
  do res <- _parse_json_response json_loads r;
  do elev <- subscript_str res "elevation";
  do c <- subscript_str data "Circuit";
  do loc <- subscript_str c "Location";
  do _ <- lift_store (setitem_str loc "alt" elev);
  ret data.
End Weekend.

(** ** The exception a record is rejected with

    What the loop body of [_prepare_response] raises on a record, read on
    trees: [x.pop(k, None)] needs a mapping (a list has [pop] but takes no
    default), [drv.get] and [e.get] need mappings, [for e in constr] needs
    an iterable, and [float] its number or numeric string. *)

Definition driver_exn (t : tree) : option exn :=
  if tree_truthy t && negb (is_dict t) then Some AttributeError else None.

Definition constructors_exn (t : tree) : option exn :=
  if tree_truthy t then
    match t with
    | TList cs => if forallb is_dict cs then None else Some AttributeError
    | TStr _ | TDict _ => Some AttributeError
    | _ => Some TypeError
    end
  else None.

Definition location_exn (float_of_string : string -> option pyfloat) (t : tree)
  : option exn :=
  if tree_truthy t then
    if is_dict t then
      match float_of_tree float_of_string (tree_field t "lat" (TInt 0)) with
      | Raise e => Some e
      | Ok _ =>
          match float_of_tree float_of_string (tree_field t "long" (TInt 0)) with
          | Raise e => Some e
          | Ok _ => None
          end
      end
    else Some AttributeError
  else None.

Definition opt_exn (f : tree -> option exn) (o : option tree) : option exn :=
  match o with Some t => f t | None => None end.

Definition record_exn (float_of_string : string -> option pyfloat) (rec : tree)
  : option exn :=
  match rec with
  | TDict kvs =>
      match opt_exn driver_exn (alist_get "Driver" kvs) with
      | Some e => Some e
      | None =>
          match opt_exn constructors_exn (alist_get "Constructors" kvs) with
          | Some e => Some e
          | None => opt_exn (location_exn float_of_string) (alist_get "Location" kvs)
          end
      end
  | TList _ => Some TypeError
  | _ => Some AttributeError
  end.

(** The exception of the first record that has one. *)
Fixpoint first_exn (float_of_string : string -> option pyfloat) (recs : list tree)
  : option exn :=
  match recs with
  | [] => None
  | rec :: recs' =>
      match record_exn float_of_string rec with
      | Some e => Some e
      | None => first_exn float_of_string recs'
      end
  end.

(** ** Predicates of the proofs *)


(** [deepcopy] run with [fuel] on a stored tree appends a stored copy of
    it and remembers only the objects of that tree. *)
Definition deepcopy_ok (fuel : nat) (t : tree) : Prop :=
  forall (m : list (nat * nat)) (h : list obj) p,
    tree_ok t = true -> tdepth t <= fuel -> stored_at h p t ->
    (forall l, p <= l < p + tsize t -> memo_get l m = None) ->
    exists m',
      deepcopy_fuel fuel m h (root p t)
      = Some (m', h ++ objs (length h) t, root (length h) t)
      /\ forall l, ~ (p <= l < p + tsize t) -> memo_get l m' = memo_get l m.

Section RowStore.
Variable float_of_string : string -> option pyfloat.
Variables (h : list obj) (bi : nat).

(** The store during the iteration on the row at [bi]: [h] with the row
    replaced and new objects appended. *)
Definition st (its : list (string * value)) (ext : list obj) : list obj :=
  <[bi := ODict its]> h ++ ext.

(** Values that do not refer to the row itself. *)
Definition away (v : value) : Prop :=
  match v with VRef l => l <> bi /\ l < length h | _ => True end.

(** A nested value the step may read: it lies outside the row and, when
    it is truthy, it is a dictionary. *)
Definition sub_dict (v : value) : Prop :=
  away v /\
  (truthy h v = true -> exists l dits, v = VRef l /\ h !! l = Some (ODict dits)).

Definition sub_dict_list (v : value) : Prop :=
  away v /\
  (truthy h v = true ->
   exists l elems, v = VRef l /\ h !! l = Some (OList elems) /\
     Forall (fun e => away e /\ exists le eits, e = VRef le /\ h !! le = Some (ODict eits))
            elems).

Definition sub_location (v : value) : Prop :=
  sub_dict v /\
  (truthy h v = true ->
   (exists f, py_float float_of_string (field h v "lat" (VInt 0)) = Ok f) /\
   (exists f, py_float float_of_string (field h v "long" (VInt 0)) = Ok f)).
End RowStore.

(** A value that does not refer to an object below [b], an object all of
    whose components are such values (the [_response] of an item is left
    free), and a store whose objects from [b] on are such objects. *)
Definition fresh (b : nat) (v : value) : Prop :=
  match v with VRef l => b <= l | _ => True end.

Definition obj_new (b : nat) (o : obj) : Prop :=
  match o with
  | ODict its => Forall (fun kv => fresh b (snd kv)) its
  | OList vs => Forall (fresh b) vs
  | OItem _ => True
  end.

Definition closed (b : nat) (h : list obj) : Prop :=
  forall l o, b <= l -> h !! l = Some o -> obj_new b o.

(** Two stores hold the same object where [v] points. *)
Definition agree (h h' : list obj) (v : value) : Prop :=
  match v with VRef l => h !! l = h' !! l | _ => True end.

(** State of the store when rows [0 .. i-1] of the copy of [recs] are done;
    the copy was made in the store [h0], the input list is at [p]. *)
Definition loop_inv (fos : string -> option pyfloat) (h0 : list obj) (p : nat)
  (recs : list tree) (i : nat) (hc : list obj) : Prop :=
  let b := length h0 in
  let H1 := h0 ++ objs (length h0) (TList recs) in
  length H1 <= length hc
  /\ (forall l, l < length H1 -> (forall j, j < i -> l <> row_loc b recs j) ->
                hc !! l = H1 !! l)
  /\ (forall j kvs, j < i -> recs !! j = Some (TDict kvs) ->
       let its := dict_items (S (row_loc b recs j)) kvs in
       exists c a,
         hc !! row_loc b recs j = Some (ODict (row_items fos H1 c a its))
         /\ length H1 <= a
         /\ hc !! a = Some (OItem (VRef (row_loc p recs j)))
         /\ forall o, constructors_ext H1 (flat_driver H1 its) !! 0 = Some o ->
                      length H1 <= c /\ hc !! c = Some o).

(** Items of a dictionary object against the entries of a tree. *)
Definition items_rep (h : list obj) (its : list (string * value))
  (kvs : list (string * tree)) : Prop :=
  Forall2 (fun kv kt => fst kv = fst kt /\ rep h (snd kv) (snd kt)) its kvs.

(** The items of the dictionary a value refers to. *)
Definition items_of (h : list obj) (v : value) : list (string * value) :=
  match v with
  | VRef l => match h !! l with Some (ODict items) => items | _ => [] end
  | _ => []
  end.

(** [_parse_ergast(fetch_day(year, gp, day))[0][sel]] *)
Definition results_of_day (version : string)
  (server : list string -> string -> list (string * string) -> response)
  (json_loads : string -> result tree)
  (year gp : arg) (day sel : string) : M world value :=
  do r <- fetch_day version server json_loads year gp day;
  do races <- _parse_ergast r;
  do race <- subscript_int races 0;
  subscript_str race sel.

(** What an accessor has done when it received the document [t] and
    selects [path] from it: one request and no warning; the exception of
    the subscripts when they fail; and, when they select a list of
    RawRecords, a frame with one row per record and the keys of the
    normalised records as columns, whose originals are the selected records
    themselves. *)
Definition accessor_outcome (float_of_string : string -> option pyfloat)
  (t : tree) (path : list sub) (w : world) (url : string)
  (out : result ErgastResultFrame * world) : Prop :=
  requests (snd out) = requests w ++ [url]
  /\ warnings (snd out) = warnings w
  /\ (forall e, tree_sub t path = Raise e -> fst out = Raise e)
  /\ (forall recs,
        tree_sub t path = Ok (TList recs) ->
        forallb (raw_record float_of_string) recs = true ->
        exists frame originals,
          fst out = Ok frame
          /\ length (frame_rows frame) = length recs
          /\ Forall (fun row =>
                       map fst row
                       = labels (map (fun rec =>
                                        tree_keys (normalize_record float_of_string rec))
                                   recs))
               (frame_rows frame)
          /\ get_ergast_response (store (snd out)) frame
             = Ok (match recs with [] => None | _ => Some originals end)
          /\ Forall2 (rep (store (snd out))) originals recs).

(** A computation that only adds to the log of warnings. *)
Definition keeps_warnings {A} (m : M world A) : Prop :=
  forall w, exists rest, warnings (snd (m w)) = warnings w ++ rest.

(** Every copy a memo remembers is an object from [b] on. *)
Definition memo_fresh (b : nat) (m : list (nat * nat)) : Prop :=
  forall l y, memo_get l m = Some y -> b <= y.

(** A store with at least [b] objects whose objects from [b] on refer to
    such objects only. *)
Definition tidy (b : nat) (h : list obj) : Prop := b <= length h /\ closed b h.

(** [h'] comes from [h] by writes to objects from [b] on and by new
    objects. *)
Definition grown (b : nat) (h h' : list obj) : Prop :=
  length h <= length h' /\ forall l, l < b -> h' !! l = h !! l.

(** A computation on the store that writes only to objects from [b] on,
    keeps the store tidy, returns values in [Q] and raises none of the
    module's own exceptions. *)
Definition safe (b : nat) {A} (m : M (list obj) A) (Q : A -> Prop) : Prop :=
  forall h, tidy b h ->
    grown b h (snd (m h)) /\ tidy b (snd (m h))
    /\ match fst (m h) with
       | Ok a => Q a
       | Raise e => is_ErgastException e = false
       end.

(** A computation on the world that sends no request, emits no warning,
    leaves every stored object as it is and raises none of the module's own
    exceptions. *)
Definition calm {A} (m : M world A) : Prop :=
  forall w,
    requests (snd (m w)) = requests w
    /\ warnings (snd (m w)) = warnings w
    /\ (forall l o, store w !! l = Some o -> store (snd (m w)) !! l = Some o)
    /\ (forall e, fst (m w) = Raise e -> is_ErgastException e = false).

(** Outcome [out] of an accessor called in the world [w], whose request to
    [url] had the outcome [sent]: one request, no warning, no stored object
    changed, and an exception of the module only when the request raised
    it. *)
Definition accessor_frame {A} (w : world) (url : string)
  (sent : result value * world) (out : result A * world) : Prop :=
  requests (snd out) = requests w ++ [url]
  /\ warnings (snd out) = warnings w
  /\ (forall l o, store w !! l = Some o -> store (snd out) !! l = Some o)
  /\ (forall e, fst out = Raise e -> is_ErgastException e = true -> fst sent = Raise e).

(** ** Sample collaborators and documents *)

(** A server that answers every request with the same response, and a
    decoder that yields one document or fails. *)
Definition constant_server (r : response)
  : list string -> string -> list (string * string) -> response :=
  fun _ _ _ => r.

(** A conversion that stores the scalars as they are given and NaN for a
    missing cell: every column of type [object]. *)
Definition scalars_as_given (given : list (option value)) : list value :=
  map (default nan) given.

Definition decode_as (t : tree) : string -> result tree := fun _ => Ok t.

Definition decode_fails : string -> result tree := fun _ => Raise ValueError.

(** A parser of numeric strings: it reads plain decimal integer literals
    such as ["52"], as [float] does, and rejects every other string. *)
Definition float_of_digits (s : string) : option pyfloat :=
  match s with
  | EmptyString => None
  | _ =>
      match NilZero.uint_of_string s with
      | Some u =>
          match float_of_Z (Z.of_uint u) with Ok f => Some f | Raise _ => None end
      | None => None
      end
  end.

Definition empty_world : world := {| store := []; requests := []; warnings := [] |}.

(** Three records as the API returns them: a race result, a circuit and a
    standing without nested parts. *)
Definition sample_records : list tree :=
  [ TDict [("position", TStr "1");
           ("Driver", TDict [("code", TStr "HAM"); ("permanentNumber", TStr "44")]);
           ("Constructors", TList [TDict [("name", TStr "Mercedes")]])];
    TDict [("circuitId", TStr "spa");
           ("Location", TDict [("lat", TStr "50"); ("locality", TStr "Spa");
                               ("country", TStr "Belgium")])];
    TDict [("round", TStr "3"); ("points", TInt 25)] ].

Definition sample_store : list obj := objs 0 (TList sample_records).

Definition sample_world : world :=
  {| store := sample_store; requests := []; warnings := [] |}.

(** Records whose [Driver] or [Location] mapping is there but empty. *)
Definition empty_driver_record : tree :=
  TDict [("Driver", TDict []); ("position", TStr "1")].

Definition empty_location_record : tree :=
  TDict [("circuitId", TStr "spa"); ("Location", TDict [])].

(** A store in which one record object is listed twice: [r = {...};
    response = [r, r]].  No decoded document is laid out like this. *)
Definition shared_store : list obj :=
  [ OList [VRef 1; VRef 1];
    ODict [("Driver", VRef 2); ("position", VStr "1")];
    ODict [("code", VStr "HAM")] ].

(** A list of records whose second one has a [lat] that is no number. *)
Definition rejected_records : list tree :=
  [ TDict [("position", TStr "1")];
    TDict [("circuitId", TStr "spa"); ("Location", TDict [("lat", TStr "north")])];
    TDict [("Driver", TStr "HAM")] ].

(** A race document as [fetch_day] and [fetch_season] receive it, and one
    without races. *)
Definition sample_race : tree :=
  TDict [("raceName", TStr "Belgian Grand Prix");
         ("Circuit", TDict [("circuitId", TStr "spa");
                            ("Location", TDict [("lat", TStr "50"); ("long", TStr "5")])]);
         ("Results", TList [TDict [("position", TStr "1")]])].

Definition races_doc (races : list tree) : tree :=
  TDict [("MRData", TDict [("RaceTable", TDict [("Races", TList races)])])].

Definition ok_server : list string -> string -> list (string * string) -> response :=
  constant_server {| status_code := 200; content := "" |}.

(** Documents as the three accessors receive them. *)
Definition circuits_doc (circuits : list tree) : tree :=
  TDict [("MRData", TDict [("CircuitTable", TDict [("Circuits", TList circuits)])])].

Definition sample_circuit : tree :=
  TDict [("circuitId", TStr "spa");
         ("Location", TDict [("lat", TStr "50"); ("locality", TStr "Spa");
                             ("country", TStr "Belgium")])].

Definition standings_doc (lists : list tree) : tree :=
  TDict [("MRData", TDict [("StandingsTable", TDict [("StandingsLists", TList lists)])])].

Definition sample_standing : tree :=
  TDict [("position", TStr "1"); ("points", TStr "25");
         ("Driver", TDict [("code", TStr "VER"); ("permanentNumber", TStr "33")]);
         ("Constructors", TList [TDict [("name", TStr "Red Bull")]])].

(** Collaborators for [fetch_weekend]: the race service, the elevation
    service, and a decoder that tells their payloads apart. *)
Definition race_server : list string -> string -> list (string * string) -> response :=
  constant_server {| status_code := 200; content := "race" |}.

Definition elevation_server : list string -> string -> list obj -> value -> response :=
  fun _ _ _ _ => {| status_code := 200; content := "elevation" |}.

Definition weekend_decoder (s : string) : result tree :=
  if String.eqb s "race" then Ok (races_doc [sample_race])
  else Ok (TDict [("elevation", TInt 401)]).

(* ================================================================== *)
(** * Properties *)

(** ** Induction on trees *)

Lemma tree_ind' (P : tree -> Prop)
  (HNone : P TNone) (HBool : forall b, P (TBool b)) (HInt : forall z, P (TInt z))
  (HFloat : forall f, P (TFloat f)) (HStr : forall s, P (TStr s))
  (HList : forall ts, Forall P ts -> P (TList ts))
  (HDict : forall kvs, Forall P (map snd kvs) -> P (TDict kvs))
  (HItem : forall t, P t -> P (TItem t)) :
  forall t, P t.
Proof.
  fix IH 1.
  intros [ | b | z | f | s | ts | kvs | t];
    [exact HNone | apply HBool | apply HInt | apply HFloat | apply HStr
    | | | apply HItem, IH].
  - apply HList. induction ts as [|t ts IHts]; constructor; [apply IH | exact IHts].
  - apply HDict. induction kvs as [|[k t] kvs IHkvs]; constructor; [apply IH | exact IHkvs].
Qed.

(** ** The layout of a stored tree *)

Lemma objs_TList p ts : objs p (TList ts) = OList (roots (S p) ts) :: objs_seq (S p) ts.
Proof. reflexivity. Qed.

Lemma objs_TDict p kvs :
  objs p (TDict kvs) = ODict (dict_items (S p) kvs) :: objs_seq (S p) (map snd kvs).
Proof.
  simpl. f_equal. generalize (S p). induction kvs as [|[k t] kvs IH]; intros q; simpl; [done|].
  by rewrite IH.
Qed.

Lemma tsize_TDict kvs : tsize (TDict kvs) = S (list_sum (map tsize (map snd kvs))).
Proof. simpl. by rewrite map_map. Qed.

Lemma tdepth_TDict kvs : tdepth (TDict kvs) = S (list_max (map tdepth (map snd kvs))).
Proof. simpl. by rewrite map_map. Qed.

Lemma length_objs t : forall p, length (objs p t) = tsize t.
Proof.
  induction t as [ | | | | | ts IH | kvs IH | t IH] using tree_ind'; intros p; try done.
  - rewrite objs_TList. simpl. f_equal. generalize (S p).
    induction IH as [|t ts Ht _ IHts]; intros q; simpl; [done|].
    by rewrite length_app, Ht, IHts.
  - rewrite objs_TDict, tsize_TDict. simpl. f_equal. generalize (S p).
    induction IH as [|t ts Ht _ IHts]; intros q; simpl; [done|].
    by rewrite length_app, Ht, IHts.
  - simpl. by rewrite IH.
Qed.

Lemma length_objs_seq ts : forall q, length (objs_seq q ts) = list_sum (map tsize ts).
Proof.
  induction ts as [|t ts IH]; intros q; simpl; [done|].
  by rewrite length_app, length_objs, IH.
Qed.

Lemma length_roots ts : forall q, length (roots q ts) = length ts.
Proof. induction ts as [|t ts IH]; intros q; simpl; [done|]. by rewrite IH. Qed.

Lemma map_fst_dict_items kvs : forall q, map fst (dict_items q kvs) = map fst kvs.
Proof. induction kvs as [|[k t] kvs IH]; intros q; simpl; [done|]. by rewrite IH. Qed.

Lemma map_snd_dict_items kvs : forall q, map snd (dict_items q kvs) = roots q (map snd kvs).
Proof. induction kvs as [|[k t] kvs IH]; intros q; simpl; [done|]. by rewrite IH. Qed.

Lemma length_dict_items kvs q : length (dict_items q kvs) = length kvs.
Proof. by rewrite <- (length_map fst), map_fst_dict_items, length_map. Qed.

(** ** Stored trees and changes to the store *)

Lemma stored_at_atom h p t : tsize t = 0 -> stored_at h p t.
Proof.
  intros Hs j o Hj. apply lookup_lt_Some in Hj. rewrite length_objs in Hj. lia.
Qed.

Lemma stored_at_lt h p t : stored_at h p t -> 0 < tsize t -> p + tsize t <= length h.
Proof.
  intros Hst Hpos.
  destruct (lookup_lt_is_Some_2 (objs p t) (tsize t - 1)) as [o Ho].
  { rewrite length_objs. lia. }
  apply Hst, lookup_lt_Some in Ho. lia.
Qed.

Lemma stored_at_agree h h' p t :
  (forall l, p <= l < p + tsize t -> h' !! l = h !! l) ->
  stored_at h p t -> stored_at h' p t.
Proof.
  intros Hag Hst j o Hj. rewrite Hag; [by apply Hst|].
  apply lookup_lt_Some in Hj. rewrite length_objs in Hj. lia.
Qed.

Lemma stored_seq_agree h h' q ts :
  (forall l, q <= l < q + list_sum (map tsize ts) -> h' !! l = h !! l) ->
  stored_seq h q ts -> stored_seq h' q ts.
Proof.
  intros Hag Hst j o Hj. rewrite Hag; [by apply Hst|].
  apply lookup_lt_Some in Hj. rewrite length_objs_seq in Hj. lia.
Qed.

Lemma stored_at_app h ext p t : stored_at h p t -> stored_at (h ++ ext) p t.
Proof. intros Hst j o Hj. apply lookup_app_l_Some. by apply Hst. Qed.

Lemma stored_seq_app h ext q ts : stored_seq h q ts -> stored_seq (h ++ ext) q ts.
Proof. intros Hst j o Hj. apply lookup_app_l_Some. by apply Hst. Qed.

Lemma stored_seq_cons h q t ts :
  stored_seq h q (t :: ts) <-> stored_at h q t /\ stored_seq h (q + tsize t) ts.
Proof.
  unfold stored_seq, stored_at. simpl. split.
  - intros H. split; intros j o Hj.
    + apply H. by apply lookup_app_l_Some.
    + replace (q + tsize t + j) with (q + (tsize t + j)) by lia. apply H.
      rewrite lookup_app_r; rewrite length_objs; [|lia].
      by replace (tsize t + j - tsize t) with j by lia.
  - intros [H1 H2] j o Hj. apply lookup_app_Some in Hj as [Hj|[Hlen Hj]].
    + by apply H1.
    + rewrite length_objs in Hlen, Hj.
      replace (q + j) with (q + tsize t + (j - tsize t)) by lia. by apply H2.
Qed.

Lemma stored_at_TList h p ts :
  stored_at h p (TList ts) <->
  h !! p = Some (OList (roots (S p) ts)) /\ stored_seq h (S p) ts.
Proof.
  unfold stored_at, stored_seq. rewrite objs_TList. split.
  - intros H. split.
    + specialize (H 0 _ eq_refl). by rewrite Nat.add_0_r in H.
    + intros j o Hj. replace (S p + j) with (p + S j) by lia. by apply H.
  - intros [H1 H2] [|j] o Hj; simpl in Hj.
    + rewrite Nat.add_0_r. congruence.
    + replace (p + S j) with (S p + j) by lia. by apply H2.
Qed.

Lemma stored_at_TDict h p kvs :
  stored_at h p (TDict kvs) <->
  h !! p = Some (ODict (dict_items (S p) kvs)) /\ stored_seq h (S p) (map snd kvs).
Proof.
  unfold stored_at, stored_seq. rewrite objs_TDict. split.
  - intros H. split.
    + specialize (H 0 _ eq_refl). by rewrite Nat.add_0_r in H.
    + intros j o Hj. replace (S p + j) with (p + S j) by lia. by apply H.
  - intros [H1 H2] [|j] o Hj; simpl in Hj.
    + rewrite Nat.add_0_r. congruence.
    + replace (p + S j) with (S p + j) by lia. by apply H2.
Qed.

Lemma stored_at_TItem h p t :
  stored_at h p (TItem t) <->
  h !! p = Some (OItem (root (S p) t)) /\ stored_at h (S p) t.
Proof.
  unfold stored_at. cbn [objs]. split.
  - intros H. split.
    + specialize (H 0 _ eq_refl). by rewrite Nat.add_0_r in H.
    + intros j o Hj. replace (S p + j) with (p + S j) by lia. by apply H.
  - intros [H1 H2] [|j] o Hj; simpl in Hj.
    + rewrite Nat.add_0_r. congruence.
    + replace (p + S j) with (S p + j) by lia. by apply H2.
Qed.

(** ** Association lists *)

Section AlistFacts.
Context {V : Type}.
Implicit Types (d : list (string * V)) (k : string).

Lemma alist_set_fresh k (v : V) d :
  alist_get k d = None -> alist_set k v d = d ++ [(k, v)].
Proof.
  induction d as [|[k' v'] d IH]; simpl; [done|].
  destruct (String.eqb k k'); [done|]. intros H. by rewrite IH.
Qed.

Lemma alist_get_app k d1 d2 :
  alist_get k (d1 ++ d2) =
  match alist_get k d1 with Some v => Some v | None => alist_get k d2 end.
Proof.
  induction d1 as [|[k' v'] d1 IH]; simpl; [done|].
  by destruct (String.eqb k k').
Qed.

Lemma alist_get_set_eq k (v : V) d : alist_get k (alist_set k v d) = Some v.
Proof.
  induction d as [|[k' v'] d IH]; simpl.
  - by rewrite String.eqb_refl.
  - destruct (String.eqb k k') eqn:E; simpl; [by rewrite String.eqb_refl|].
    by rewrite E.
Qed.

Lemma alist_get_set_ne k k' (v : V) d :
  k <> k' -> alist_get k (alist_set k' v d) = alist_get k d.
Proof.
  intros Hne. induction d as [|[k0 v0] d IH]; simpl.
  - by apply String.eqb_neq in Hne as ->.
  - destruct (String.eqb k' k0) eqn:E; simpl.
    + apply String.eqb_eq in E as <-. by apply String.eqb_neq in Hne as ->.
    + by rewrite IH.
Qed.

Lemma alist_get_remove_eq k d : alist_get k (alist_remove k d) = None.
Proof.
  induction d as [|[k' v'] d IH]; simpl; [done|].
  destruct (String.eqb k k') eqn:E; simpl; [done|]. by rewrite E.
Qed.

Lemma alist_get_remove_ne k k' d :
  k <> k' -> alist_get k (alist_remove k' d) = alist_get k d.
Proof.
  intros Hne. induction d as [|[k0 v0] d IH]; simpl; [done|].
  destruct (String.eqb k' k0) eqn:E; simpl.
  - apply String.eqb_eq in E as <-. by apply String.eqb_neq in Hne as ->.
  - by rewrite IH.
Qed.

Lemma alist_update_cons k (v : V) kvs d :
  alist_update ((k, v) :: kvs) d = alist_update kvs (alist_set k v d).
Proof. reflexivity. Qed.

Lemma alist_get_update_notin k kvs d :
  alist_get k kvs = None -> alist_get k (alist_update kvs d) = alist_get k d.
Proof.
  revert d. induction kvs as [|[k' v'] kvs IH]; intros d Hk; [done|].
  simpl in Hk. destruct (String.eqb k k') eqn:E; [done|].
  rewrite alist_update_cons, IH by done. apply alist_get_set_ne.
  by apply String.eqb_neq.
Qed.
End AlistFacts.

(** Keys a flattening step leaves alone. *)

Lemma alist_get_flat_driver h its k :
  k <> "Driver" -> k <> "DriverNumber" ->
  alist_get k (flat_driver h its) = alist_get k its.
Proof.
  intros H1 H2. unfold flat_driver.
  destruct (alist_get "Driver" its) as [drv|]; [destruct (truthy h drv)|];
    rewrite ?alist_get_update_notin; try by apply alist_get_remove_ne.
  simpl. apply String.eqb_neq in H1, H2. by rewrite H1, H2.
Qed.

Lemma alist_get_flat_constructors h lst its k :
  k <> "Constructors" ->
  alist_get k (flat_constructors h lst its) = alist_get k its.
Proof.
  intros H1. unfold flat_constructors.
  destruct (alist_get "Constructors" its) as [c|]; [destruct (truthy h c)|];
    rewrite ?alist_get_update_notin; try by apply alist_get_remove_ne.
  simpl. apply String.eqb_neq in H1. by rewrite H1.
Qed.

Lemma alist_get_flat_location fos h its k :
  k <> "Location" -> k <> "Lat" -> k <> "Long" -> k <> "Locality" -> k <> "Country" ->
  alist_get k (flat_location fos h its) = alist_get k its.
Proof.
  intros H1 H2 H3 H4 H5. unfold flat_location.
  destruct (alist_get "Location" its) as [c|]; [destruct (truthy h c)|];
    rewrite ?alist_get_update_notin; try by apply alist_get_remove_ne.
  simpl. apply String.eqb_neq in H2, H3, H4, H5. by rewrite H2, H3, H4, H5.
Qed.

(** ** [deepcopy] of a stored tree

    The copy of a tree stored at [p] is the same tree, stored in new objects
    at the end of the store; nothing that was in the store changes. *)

Lemma tdepth_le_tsize t : tdepth t <= tsize t.
Proof.
  induction t as [ | | | | | ts IH | kvs IH | t IH] using tree_ind'; try done.
  - simpl. apply le_n_S. induction IH as [|t ts Ht _ IHts]; simpl; lia.
  - rewrite tdepth_TDict, tsize_TDict. apply le_n_S.
    induction IH as [|t ts Ht _ IHts]; simpl; lia.
  - simpl. lia.
Qed.

Lemma list_append_middle (h : heap) elems ext v :
  list_append (length h) v (h ++ OList elems :: ext) = h ++ OList (elems ++ [v]) :: ext.
Proof.
  unfold list_append. rewrite list_lookup_middle by done.
  rewrite <- (Nat.add_0_r (length h)) at 1. by rewrite insert_app_r.
Qed.

Lemma dict_store_middle (h : heap) items ext k v :
  alist_get k items = None ->
  dict_store (length h) k v (h ++ ODict items :: ext) = h ++ ODict (items ++ [(k, v)]) :: ext.
Proof.
  intros Hk. unfold dict_store. rewrite list_lookup_middle by done.
  rewrite <- (Nat.add_0_r (length h)) at 1. rewrite insert_app_r. simpl.
  by rewrite alist_set_fresh.
Qed.


Lemma copy_elems_stored fuel ts :
  Forall (deepcopy_ok fuel) ts ->
  forall q (m : list (nat * nat)) (h : list obj) elems ext,
    forallb tree_ok ts = true -> list_max (map tdepth ts) <= fuel ->
    stored_seq h q ts ->
    (forall l, q <= l < q + list_sum (map tsize ts) -> memo_get l m = None) ->
    exists m',
      copy_elems (deepcopy_fuel fuel) (length h) (roots q ts) m (h ++ OList elems :: ext)
      = Some (m', h ++ OList (elems ++ roots (S (length h + length ext)) ts)
                     :: (ext ++ objs_seq (S (length h + length ext)) ts))
      /\ forall l, ~ (q <= l < q + list_sum (map tsize ts)) -> memo_get l m' = memo_get l m.
Proof.
  induction 1 as [|t ts Ht _ IH]; intros q m h elems ext Hok Hd Hst Hm.
  - exists m. simpl. by rewrite !app_nil_r.
  - simpl in Hok, Hd, Hm. apply andb_true_iff in Hok as [Hok1 Hok2].
    apply stored_seq_cons in Hst as [Hst1 Hst2].
    destruct (Ht m (h ++ OList elems :: ext) q) as (m1 & E1 & Hm1); try done.
    { lia. } { by apply stored_at_app. } { intros l Hl. apply Hm. lia. }
    cbn [roots copy_elems]. rewrite E1.
    rewrite <- app_assoc, <- app_comm_cons, list_append_middle.
    rewrite length_app. cbn [length].
    destruct (IH (q + tsize t) m1 h (elems ++ [root (length h + S (length ext)) t])
                (ext ++ objs (length h + S (length ext)) t)) as (m2 & E2 & Hm2); try done.
    { lia. }
    { intros l Hl. rewrite Hm1 by lia. apply Hm. lia. }
    exists m2. rewrite E2. split.
    + rewrite length_app, length_objs, <- !app_assoc. cbn [app objs_seq].
      replace (S (length h + (length ext + tsize t)))
        with (S (length h + length ext) + tsize t) by lia.
      by replace (length h + S (length ext)) with (S (length h + length ext)) by lia.
    + intros l Hl. simpl in Hl. rewrite Hm2 by lia. apply Hm1. lia.
Qed.

Lemma copy_items_stored fuel kvs :
  Forall (deepcopy_ok fuel) (map snd kvs) ->
  forall q (m : list (nat * nat)) (h : list obj) items ext,
    forallb tree_ok (map snd kvs) = true -> distinct_keys kvs = true ->
    (forall k, alist_mem k kvs = true -> alist_get k items = None) ->
    list_max (map tdepth (map snd kvs)) <= fuel ->
    stored_seq h q (map snd kvs) ->
    (forall l, q <= l < q + list_sum (map tsize (map snd kvs)) -> memo_get l m = None) ->
    exists m',
      copy_items (deepcopy_fuel fuel) (length h) (dict_items q kvs) m (h ++ ODict items :: ext)
      = Some (m', h ++ ODict (items ++ dict_items (S (length h + length ext)) kvs)
                     :: (ext ++ objs_seq (S (length h + length ext)) (map snd kvs)))
      /\ forall l, ~ (q <= l < q + list_sum (map tsize (map snd kvs))) ->
                   memo_get l m' = memo_get l m.
Proof.
  induction kvs as [|[k t] kvs IH]; intros HF q m h items ext Hok Hdk Hfresh Hd Hst Hm.
  - exists m. simpl. by rewrite !app_nil_r.
  - simpl in HF, Hok, Hd, Hm, Hst, Hdk. apply Forall_cons in HF as [Ht HF].
    apply andb_true_iff in Hok as [Hok1 Hok2].
    apply andb_true_iff in Hdk as [Hk Hdk]. apply negb_true_iff in Hk.
    apply stored_seq_cons in Hst as [Hst1 Hst2].
    destruct (Ht m (h ++ ODict items :: ext) q) as (m1 & E1 & Hm1); try done.
    { lia. } { by apply stored_at_app. } { intros l Hl. apply Hm. lia. }
    cbn [dict_items copy_items]. rewrite E1.
    rewrite <- app_assoc, <- app_comm_cons, dict_store_middle; last first.
    { apply Hfresh. unfold alist_mem. simpl. by rewrite String.eqb_refl. }
    rewrite length_app. cbn [length].
    destruct (IH HF (q + tsize t) m1 h (items ++ [(k, root (length h + S (length ext)) t)])
                (ext ++ objs (length h + S (length ext)) t)) as (m2 & E2 & Hm2); try done.
    { intros k' Hk'. rewrite alist_get_app, Hfresh.
      - simpl. destruct (String.eqb k' k) eqn:E; [|done].
        apply String.eqb_eq in E as ->. by rewrite Hk' in Hk.
      - unfold alist_mem in *. simpl. destruct (String.eqb k' k); [done|]. exact Hk'. }
    { lia. }
    { intros l Hl. rewrite Hm1 by lia. apply Hm. lia. }
    exists m2. rewrite E2. split.
    + rewrite length_app, length_objs, <- !app_assoc. cbn [app objs_seq map snd].
      replace (S (length h + (length ext + tsize t)))
        with (S (length h + length ext) + tsize t) by lia.
      by replace (length h + S (length ext)) with (S (length h + length ext)) by lia.
    + intros l Hl. simpl in Hl. rewrite Hm2 by lia. apply Hm1. lia.
Qed.

Lemma forallb_tree_ok_kvs (kvs : list (string * tree)) :
  forallb (fun kv => tree_ok (snd kv)) kvs = forallb tree_ok (map snd kvs).
Proof. induction kvs as [|[k t] kvs IH]; simpl; [done|]. by rewrite IH. Qed.

Lemma deepcopy_fuel_stored t : forall fuel, deepcopy_ok fuel t.
Proof.
  induction t as [ | | | | | ts IH | kvs IH | t IH] using tree_ind';
    intros fuel m h p Hok Hd Hst Hm;
    try (exists m; destruct fuel; simpl; by rewrite app_nil_r).
  - (* list *)
    apply stored_at_TList in Hst as [Hp Hst].
    simpl in Hd. destruct fuel as [|fuel]; [lia|].
    cbn [root deepcopy_fuel]. rewrite Hm by (simpl; lia). rewrite Hp.
    destruct (copy_elems_stored fuel ts) with (q := S p) (m := (p, length h) :: m)
      (h := h) (elems := @nil value) (ext := @nil obj) as (m' & E & Hm'); try done.
    { eapply Forall_impl; [exact IH|]. intros t Ht. apply Ht. }
    { lia. }
    { intros l Hl. simpl. destruct (Nat.eqb l p) eqn:El.
      - apply Nat.eqb_eq in El. lia.
      - apply Hm. simpl. lia. }
    rewrite E. exists m'. split.
    + rewrite objs_TList. simpl. by rewrite Nat.add_0_r.
    + intros l Hl. simpl in Hl. rewrite Hm' by lia. simpl.
      destruct (Nat.eqb l p) eqn:El; [|done]. apply Nat.eqb_eq in El. lia.
  - (* dict *)
    apply stored_at_TDict in Hst as [Hp Hst].
    rewrite tdepth_TDict in Hd. rewrite tsize_TDict in Hm.
    cbn [tree_ok] in Hok. apply andb_true_iff in Hok as [Hok Hdk].
    rewrite forallb_tree_ok_kvs in Hok.
    destruct fuel as [|fuel]; [lia|].
    cbn [root deepcopy_fuel]. rewrite Hm by lia. rewrite Hp.
    destruct (copy_items_stored fuel kvs) with (q := S p) (m := (p, length h) :: m)
      (h := h) (items := @nil (string * value)) (ext := @nil obj) as (m' & E & Hm'); try done.
    { eapply Forall_impl; [exact IH|]. intros t Ht. apply Ht. }
    { lia. }
    { intros l Hl. simpl. destruct (Nat.eqb l p) eqn:El.
      - apply Nat.eqb_eq in El. lia.
      - apply Hm. lia. }
    rewrite E. exists m'. split.
    + rewrite objs_TDict. simpl. by rewrite Nat.add_0_r.
    + intros l Hl. rewrite tsize_TDict in Hl. rewrite Hm' by lia. simpl.
      destruct (Nat.eqb l p) eqn:El; [|done]. apply Nat.eqb_eq in El. lia.
  - (* instance *)
    apply stored_at_TItem in Hst as [Hp Hst].
    simpl in Hd, Hok, Hm. destruct fuel as [|fuel]; [lia|].
    cbn [root deepcopy_fuel]. rewrite Hm by lia. rewrite Hp.
    destruct (IH fuel ((p, length h) :: m) (h ++ [OItem VNone]) (S p))
      as (m' & E & Hm'); try done.
    { lia. } { by apply stored_at_app. }
    { intros l Hl. simpl. destruct (Nat.eqb l p) eqn:El.
      - apply Nat.eqb_eq in El. lia.
      - apply Hm. lia. }
    rewrite E. exists m'. split.
    + rewrite length_app. simpl. rewrite <- app_assoc. simpl.
      rewrite <- (Nat.add_0_r (length h)) at 1. rewrite insert_app_r. simpl.
      by rewrite Nat.add_1_r.
    + intros l Hl. simpl in Hl. rewrite Hm' by lia. simpl.
      destruct (Nat.eqb l p) eqn:El; [|done]. apply Nat.eqb_eq in El. lia.
Qed.

Lemma deepcopy_stored (h : list obj) p t :
  tree_ok t = true -> stored_at h p t ->
  deepcopy (root p t) h = (Ok (root (length h) t), h ++ objs (length h) t).
Proof.
  intros Hok Hst. unfold deepcopy.
  destruct (deepcopy_fuel_stored t (S (length h)) [] h p) as (m' & E & _); try done.
  - pose proof (tdepth_le_tsize t). destruct (tsize t) as [|n] eqn:En; [lia|].
    pose proof (stored_at_lt h p t Hst). lia.
  - by rewrite E.
Qed.

(** ** One iteration of the loop, on the row at address [bi] *)

Section RowSteps.
Variable float_of_string : string -> option pyfloat.
Variables (h : list obj) (bi : nat).
Hypothesis Hbi : bi < length h.

Lemma st_length its ext : length (st h bi its ext) = length h + length ext.
Proof. unfold st. by rewrite length_app, length_insert. Qed.

Lemma st_lookup_row its ext : st h bi its ext !! bi = Some (ODict its).
Proof.
  unfold st. rewrite lookup_app_l by (by rewrite length_insert).
  by apply list_lookup_insert_eq.
Qed.

Lemma st_lookup_ne its ext l : l <> bi -> l < length h -> st h bi its ext !! l = h !! l.
Proof.
  intros Hne Hl. unfold st. rewrite lookup_app_l by (by rewrite length_insert).
  by apply list_lookup_insert_ne.
Qed.

Lemma st_insert its its' ext : <[bi := ODict its']> (st h bi its ext) = st h bi its' ext.
Proof.
  unfold st. rewrite insert_app_l by (by rewrite length_insert).
  by rewrite list_insert_insert_eq.
Qed.

Lemma st_snoc its ext o : st h bi its ext ++ [o] = st h bi its (ext ++ [o]).
Proof. unfold st. by rewrite app_assoc. Qed.

Lemma truthy_st its ext v : away h bi v -> truthy (st h bi its ext) v = truthy h v.
Proof. destruct v; try done. intros [??]. simpl. by rewrite st_lookup_ne. Qed.

Lemma dict_get_st its ext v k d : away h bi v -> dict_get (st h bi its ext) v k d = dict_get h v k d.
Proof. destruct v; try done. intros [??]. simpl. by rewrite st_lookup_ne. Qed.

Lemma field_st its ext v k d : away h bi v -> field (st h bi its ext) v k d = field h v k d.
Proof. intros. unfold field. by rewrite dict_get_st. Qed.

Lemma getitem_int_st its ext v i : away h bi v -> getitem_int (st h bi its ext) v i = getitem_int h v i.
Proof. destruct v; try done. intros [??]. simpl. by rewrite st_lookup_ne. Qed.

Lemma py_iter_st its ext v : away h bi v -> py_iter (st h bi its ext) v = py_iter h v.
Proof. destruct v; try done. intros [??]. simpl. by rewrite st_lookup_ne. Qed.

Lemma dict_pop_st its ext k d :
  dict_pop (VRef bi) k d (st h bi its ext)
  = (Ok (match alist_get k its with Some x => x | None => d end),
     st h bi (alist_remove k its) ext).
Proof. unfold dict_pop. by rewrite st_lookup_row, st_insert. Qed.

Lemma dict_update_st its ext kvs :
  dict_update (VRef bi) kvs (st h bi its ext) = (Ok tt, st h bi (alist_update kvs its) ext).
Proof. unfold dict_update. by rewrite st_lookup_row, st_insert. Qed.

Lemma setitem_str_st its ext k v :
  setitem_str (VRef bi) k v (st h bi its ext) = (Ok tt, st h bi (alist_set k v its) ext).
Proof. unfold setitem_str. by rewrite st_lookup_row, st_insert. Qed.

Lemma alloc_st its ext o :
  alloc o (st h bi its ext) = (Ok (VRef (length h + length ext)), st h bi its (ext ++ [o])).
Proof. unfold alloc. by rewrite st_length, st_snoc. Qed.

Lemma sub_dict_get v k d :
  sub_dict h bi v -> truthy h v = true -> dict_get h v k d = Ok (field h v k d).
Proof.
  intros [_ H] Ht. destruct (H Ht) as (l & dits & -> & Hl).
  unfold field. simpl. by rewrite Hl.
Qed.

Variables (data : value) (i : nat).
Hypothesis Hdata_away : away h bi data.
Hypothesis Hdata : getitem_int h data i = Ok (VRef bi).

Lemma flatten_driver_st its ext :
  match alist_get "Driver" its with Some drv => sub_dict h bi drv | None => True end ->
  flatten_driver data i (st h bi its ext) = (Ok tt, st h bi (flat_driver h its) ext).
Proof.
  intros Hsub. unfold flatten_driver, flat_driver, bind, read, ret.
  rewrite getitem_int_st, Hdata, dict_pop_st by done.
  destruct (alist_get "Driver" its) as [drv|]; [|reflexivity].
  pose proof Hsub as [Haw Hd]. rewrite truthy_st by done.
  destruct (truthy h drv) eqn:Ht; [|reflexivity].
  rewrite getitem_int_st, Hdata by done.
  rewrite !dict_get_st, !sub_dict_get by done.
  by rewrite dict_update_st.
Qed.

Lemma map_result_names its ext elems :
  Forall (fun e => away h bi e /\ exists le eits, e = VRef le /\ h !! le = Some (ODict eits))
         elems ->
  map_result (fun e => dict_get (st h bi its ext) e "name" (VStr "")) elems
  = Ok (map (fun e => field h e "name" (VStr "")) elems).
Proof.
  induction 1 as [|e elems [Haw (le & eits & -> & Hle)] _ IH]; simpl; [done|].
  destruct Haw as [? ?]. rewrite st_lookup_ne by done. rewrite Hle.
  simpl in IH. rewrite IH. unfold field. simpl. by rewrite Hle.
Qed.

Lemma flatten_constructors_st its ext :
  match alist_get "Constructors" its with Some c => sub_dict_list h bi c | None => True end ->
  flatten_constructors data i (st h bi its ext)
  = (Ok tt, st h bi (flat_constructors h (VRef (length h + length ext)) its)
               (ext ++ constructors_ext h its)).
Proof.
  intros Hsub.
  unfold flatten_constructors, flat_constructors, constructors_ext, bind, read, ret.
  rewrite getitem_int_st, Hdata, dict_pop_st by done.
  destruct (alist_get "Constructors" its) as [c|]; [|by rewrite app_nil_r].
  pose proof Hsub as [Haw Hc]. rewrite truthy_st by done.
  destruct (truthy h c) eqn:Ht; [|by rewrite app_nil_r].
  destruct (Hc eq_refl) as (l & elems & -> & Hl & Hel).
  rewrite getitem_int_st, Hdata by done.
  rewrite py_iter_st by done. unfold constructor_names, py_iter. rewrite Hl.
  rewrite map_result_names by done.
  by rewrite alloc_st, dict_update_st.
Qed.

Lemma flatten_location_st its ext :
  match alist_get "Location" its with Some v => sub_location float_of_string h bi v | None => True end ->
  flatten_location float_of_string data i (st h bi its ext)
  = (Ok tt, st h bi (flat_location float_of_string h its) ext).
Proof.
  intros Hsub. unfold flatten_location, flat_location, bind, read, ret.
  rewrite getitem_int_st, Hdata, dict_pop_st by done.
  destruct (alist_get "Location" its) as [v|]; [|reflexivity].
  pose proof Hsub as [Hsd Hf]. pose proof Hsd as [Haw Hd].
  rewrite truthy_st by done.
  destruct (truthy h v) eqn:Ht; [|reflexivity].
  destruct (Hf eq_refl) as [[flat Hlat] [flong Hlong]].
  rewrite getitem_int_st, Hdata by done.
  rewrite !dict_get_st by done. rewrite !sub_dict_get by done.
  unfold float_or_zero. rewrite Hlat, Hlong.
  by rewrite dict_update_st.
Qed.

(** *** Steps that raise *)

Lemma map_result_st its ext k d elems :
  Forall (away h bi) elems ->
  map_result (fun e => dict_get (st h bi its ext) e k d) elems
  = map_result (fun e => dict_get h e k d) elems.
Proof.
  induction 1 as [|e elems He _ IH]; simpl; [done|].
  by rewrite dict_get_st, IH.
Qed.

Lemma flatten_driver_raises its ext drv e :
  alist_get "Driver" its = Some drv -> away h bi drv -> truthy h drv = true ->
  dict_get h drv "code" (VStr "") = Raise e ->
  flatten_driver data i (st h bi its ext) = (Raise e, st h bi (alist_remove "Driver" its) ext).
Proof.
  intros Hg Haw Ht Hr. unfold flatten_driver, bind, read, ret.
  rewrite getitem_int_st, Hdata, dict_pop_st by done. rewrite Hg.
  rewrite truthy_st, Ht by done.
  rewrite getitem_int_st, Hdata by done.
  by rewrite dict_get_st, Hr.
Qed.

Lemma flatten_constructors_raises its ext c e :
  alist_get "Constructors" its = Some c -> away h bi c -> truthy h c = true ->
  (py_iter h c = Raise e
   \/ exists elems, py_iter h c = Ok elems /\ Forall (away h bi) elems
        /\ map_result (fun x => dict_get h x "name" (VStr "")) elems = Raise e) ->
  flatten_constructors data i (st h bi its ext)
  = (Raise e, st h bi (alist_remove "Constructors" its) ext).
Proof.
  intros Hg Haw Ht Hr. unfold flatten_constructors, bind, read, ret.
  rewrite getitem_int_st, Hdata, dict_pop_st by done. rewrite Hg.
  rewrite truthy_st, Ht by done.
  rewrite getitem_int_st, Hdata by done.
  rewrite py_iter_st by done.
  destruct Hr as [Hr|(elems & Hi & Hel & Hr)].
  - by rewrite Hr.
  - rewrite Hi. by rewrite map_result_st, Hr.
Qed.

Lemma flatten_location_raises its ext v e :
  alist_get "Location" its = Some v -> away h bi v -> truthy h v = true ->
  (dict_get h v "lat" (VInt 0) = Raise e
   \/ (exists lat, dict_get h v "lat" (VInt 0) = Ok lat
         /\ py_float float_of_string lat = Raise e)
   \/ (exists lat f long, dict_get h v "lat" (VInt 0) = Ok lat
         /\ py_float float_of_string lat = Ok f
         /\ dict_get h v "long" (VInt 0) = Ok long
         /\ py_float float_of_string long = Raise e)) ->
  flatten_location float_of_string data i (st h bi its ext)
  = (Raise e, st h bi (alist_remove "Location" its) ext).
Proof.
  intros Hg Haw Ht Hr. unfold flatten_location, bind, read, ret.
  rewrite getitem_int_st, Hdata, dict_pop_st by done. rewrite Hg.
  rewrite truthy_st, Ht by done.
  rewrite getitem_int_st, Hdata by done.
  rewrite !dict_get_st by done.
  destruct Hr as [Hr|[(lat & Hl & Hr)|(lat & f & long & Hl & Hf & Hlo & Hr)]].
  - by rewrite Hr.
  - by rewrite Hl, Hr.
  - by rewrite Hl, Hf, Hlo, Hr.
Qed.

Variables (response orig : value).
Hypothesis Hresp_away : away h bi response.
Hypothesis Hresp : getitem_int h response i = Ok orig.

Lemma attach_response_st its ext :
  attach_response response data i (st h bi its ext)
  = (Ok tt, st h bi (alist_set "__ErgastResponse" (VRef (length h + length ext)) its)
               (ext ++ [OItem orig])).
Proof.
  unfold attach_response, bind, read.
  rewrite getitem_int_st, Hresp, alloc_st by done.
  rewrite getitem_int_st, Hdata by done.
  by rewrite setitem_str_st.
Qed.

Lemma st_id its : h !! bi = Some (ODict its) -> st h bi its [] = h.
Proof. intros H. unfold st. by rewrite app_nil_r, list_insert_id. Qed.

(** One whole iteration: the row is replaced by its final items and the
    new objects are appended; nothing else in the store changes. *)
Lemma prepare_row_run its :
  h !! bi = Some (ODict its) ->
  match alist_get "Driver" its with Some v => sub_dict h bi v | None => True end ->
  match alist_get "Constructors" its with Some v => sub_dict_list h bi v | None => True end ->
  match alist_get "Location" its with Some v => sub_location float_of_string h bi v | None => True end ->
  prepare_row float_of_string response data i h
  = (Ok tt,
     <[bi := ODict (row_items float_of_string h (length h)
                      (length h + length (constructors_ext h (flat_driver h its))) its)]> h
     ++ row_ext h its orig).
Proof.
  intros Hrow Hd Hc Hl. rewrite <- (st_id its Hrow) at 1.
  unfold prepare_row, bind.
  rewrite flatten_driver_st by done.
  rewrite flatten_constructors_st by (by rewrite alist_get_flat_driver).
  rewrite flatten_location_st
    by (by rewrite alist_get_flat_constructors, alist_get_flat_driver).
  rewrite attach_response_st. simpl. by rewrite Nat.add_0_r.
Qed.
End RowSteps.

(** ** Reading a stored tree *)

Lemma root_atom p q t : tsize t = 0 -> root p t = root q t.
Proof. by destruct t. Qed.

Lemma root_ref p t l : root p t = VRef l -> l = p /\ 0 < tsize t.
Proof. destruct t; simpl; intros [=]; subst; split; lia. Qed.

Lemma roots_lookup ts : forall q j t,
  ts !! j = Some t -> roots q ts !! j = Some (root (q + list_sum (map tsize (take j ts))) t).
Proof.
  induction ts as [|t0 ts IH]; intros q [|j] t Hj; simplify_eq/=.
  - by rewrite Nat.add_0_r.
  - rewrite (IH _ _ _ Hj). do 2 f_equal. lia.
Qed.

Lemma stored_seq_lookup h ts : forall q j t,
  stored_seq h q ts -> ts !! j = Some t ->
  stored_at h (q + list_sum (map tsize (take j ts))) t.
Proof.
  induction ts as [|t0 ts IH]; intros q [|j] t Hst Hj; simplify_eq/=;
    apply stored_seq_cons in Hst as [H1 H2].
  - by rewrite Nat.add_0_r.
  - rewrite Nat.add_assoc. by apply IH.
Qed.

Lemma dict_items_lookup kvs k : forall q,
  match alist_get k kvs with
  | Some t =>
      exists q', alist_get k (dict_items q kvs) = Some (root q' t) /\ q <= q' /\
                 forall h, stored_seq h q (map snd kvs) -> stored_at h q' t
  | None => alist_get k (dict_items q kvs) = None
  end.
Proof.
  induction kvs as [|[k' t'] kvs IH]; intros q; simpl; [done|].
  destruct (String.eqb k k').
  - exists q. split; [done|]. split; [done|]. intros h Hst.
    by apply stored_seq_cons in Hst as [? _].
  - specialize (IH (q + tsize t')). destruct (alist_get k kvs) as [t|]; [|done].
    destruct IH as (q' & E & Hq & Hst). exists q'. split; [done|]. split; [lia|].
    intros h Hs. apply Hst. by apply stored_seq_cons in Hs as [_ ?].
Qed.

Lemma truthy_stored h p t : stored_at h p t -> truthy h (root p t) = tree_truthy t.
Proof.
  destruct t; try done; intros Hst; simpl.
  - apply stored_at_TList in Hst as [-> _]. by rewrite length_roots.
  - apply stored_at_TDict in Hst as [-> _]. by rewrite length_dict_items.
  - by apply stored_at_TItem in Hst as [-> _].
Qed.

Lemma away_stored h bi p t : stored_at h p t -> bi < p -> away h bi (root p t).
Proof.
  intros Hst Hlt. destruct (root p t) as [ | | | | |l] eqn:E; try done.
  apply root_ref in E as [-> Hpos]. pose proof (stored_at_lt _ _ _ Hst Hpos).
  simpl. lia.
Qed.

(** [x.get(k, default)] on a stored tree, for an atomic default. *)
Lemma field_stored h p t k d :
  stored_at h p t -> tsize d = 0 ->
  exists q, field h (root p t) k (root 0 d) = root q (tree_field t k d)
            /\ stored_at h q (tree_field t k d) /\ p <= q.
Proof.
  intros Hst Hd. unfold field.
  assert (Hdef : exists q, root 0 d = root q d /\ stored_at h q d /\ p <= q).
  { exists p. split; [by apply root_atom|]. split; [by apply stored_at_atom|done]. }
  destruct t; try exact Hdef; simpl.
  - apply stored_at_TList in Hst as [-> _]. exact Hdef.
  - apply stored_at_TDict in Hst as [-> Hst].
    pose proof (dict_items_lookup kvs k (S p)) as Hk.
    destruct (alist_get k kvs) as [x|].
    + destruct Hk as (q & -> & Hq & Hx). exists q. split; [done|]. split; [by apply Hx|lia].
    + rewrite Hk. exact Hdef.
  - apply stored_at_TItem in Hst as [-> _]. exact Hdef.
Qed.

Lemma py_float_root fos p t : py_float fos (root p t) = py_float fos (root 0 t).
Proof. by destruct t. Qed.

(** A stored copy of an accepted record is ready for the loop body. *)

Lemma sub_dict_stored h bi p t :
  stored_at h p t -> bi < p -> driver_ok t = true -> sub_dict h bi (root p t).
Proof.
  intros Hst Hlt Hok. split; [by apply away_stored|].
  rewrite truthy_stored by done. intros Ht. unfold driver_ok in Hok.
  rewrite Ht in Hok. destruct t; try done.
  apply stored_at_TDict in Hst as [Hp _]. eauto.
Qed.

Lemma sub_dict_list_stored h bi p t :
  stored_at h p t -> bi < p -> constructors_ok t = true -> sub_dict_list h bi (root p t).
Proof.
  intros Hst Hlt Hok. split; [by apply away_stored|].
  rewrite truthy_stored by done. intros Ht. unfold constructors_ok in Hok.
  rewrite Ht in Hok. destruct t as [ | | | | |cs| | ]; try done. simpl in Hok.
  apply stored_at_TList in Hst as [Hp Hst]. exists p, (roots (S p) cs).
  split; [done|]. split; [done|].
  apply Forall_lookup_2. intros j e Hj.
  destruct (lookup_lt_is_Some_2 cs j) as [c Hc].
  { apply lookup_lt_Some in Hj. by rewrite length_roots in Hj. }
  rewrite (roots_lookup _ _ _ _ Hc) in Hj. injection Hj as <-.
  pose proof (stored_seq_lookup _ _ _ _ _ Hst Hc) as Hsc.
  split; [apply away_stored; [done|lia]|].
  assert (is_dict c = true) as Hd.
  { rewrite forallb_forall in Hok. apply Hok. apply list_elem_of_In.
    by eapply list_elem_of_lookup_2. }
  destruct c; try done. apply stored_at_TDict in Hsc as [Hq _]. eauto.
Qed.

Lemma sub_location_stored fos h bi p t :
  stored_at h p t -> bi < p -> location_ok fos t = true ->
  sub_location fos h bi (root p t).
Proof.
  intros Hst Hlt Hok. unfold location_ok in Hok. split.
  - apply sub_dict_stored; try done. unfold driver_ok.
    destruct (tree_truthy t); [|done]. simpl in *.
    by apply andb_true_iff in Hok as [[? _]%andb_true_iff _].
  - rewrite truthy_stored by done. intros Ht. rewrite Ht in Hok. simpl in Hok.
    apply andb_true_iff in Hok as [[_ Hlat]%andb_true_iff Hlong].
    unfold float_ok, float_of_tree in *.
    destruct (field_stored h p t "lat" (TInt 0) Hst eq_refl) as (q1 & E1 & _).
    destruct (field_stored h p t "long" (TInt 0) Hst eq_refl) as (q2 & E2 & _).
    simpl in E1, E2. rewrite E1, E2, (py_float_root fos q1), (py_float_root fos q2).
    split.
    + destruct (py_float fos (root 0 (tree_field t "lat" (TInt 0)))) as [f|];
        [exists f; reflexivity|discriminate].
    + destruct (py_float fos (root 0 (tree_field t "long" (TInt 0)))) as [f|];
        [exists f; reflexivity|discriminate].
Qed.

Lemma row_ready fos h bi kvs :
  stored_at h bi (TDict kvs) -> raw_record fos (TDict kvs) = true ->
  let its := dict_items (S bi) kvs in
  match alist_get "Driver" its with Some v => sub_dict h bi v | None => True end
  /\ match alist_get "Constructors" its with Some v => sub_dict_list h bi v | None => True end
  /\ match alist_get "Location" its with Some v => sub_location fos h bi v | None => True end.
Proof.
  intros Hst Hraw its. apply stored_at_TDict in Hst as [_ Hst].
  simpl in Hraw. apply andb_true_iff in Hraw as [[Hd Hc]%andb_true_iff Hl].
  pose proof (dict_items_lookup kvs "Driver" (S bi)) as H1.
  pose proof (dict_items_lookup kvs "Constructors" (S bi)) as H2.
  pose proof (dict_items_lookup kvs "Location" (S bi)) as H3.
  subst its. repeat split.
  - destruct (alist_get "Driver" kvs) as [t|]; [|by rewrite H1].
    destruct H1 as (q & -> & Hq & Hs). apply sub_dict_stored; [by apply Hs|lia|done].
  - destruct (alist_get "Constructors" kvs) as [t|]; [|by rewrite H2].
    destruct H2 as (q & -> & Hq & Hs). apply sub_dict_list_stored; [by apply Hs|lia|done].
  - destruct (alist_get "Location" kvs) as [t|]; [|by rewrite H3].
    destruct H3 as (q & -> & Hq & Hs). apply sub_location_stored; [by apply Hs|lia|done].
Qed.

(** ** Records the loop body rejects *)

Lemma dict_get_stored h p t k d :
  stored_at h p t ->
  dict_get h (root p t) k d
  = if is_dict t then Ok (field h (root p t) k d) else Raise AttributeError.
Proof.
  intros Hst. destruct t; try done; simpl.
  - by apply stored_at_TList in Hst as [-> _].
  - apply stored_at_TDict in Hst as [Hp _]. unfold field. simpl. by rewrite Hp.
  - by apply stored_at_TItem in Hst as [-> _].
Qed.

Lemma names_raise h : forall cs q,
  stored_seq h q cs -> forallb is_dict cs = false ->
  map_result (fun x => dict_get h x "name" (VStr "")) (roots q cs) = Raise AttributeError.
Proof.
  induction cs as [|c cs IH]; intros q Hst Hf; [done|].
  apply stored_seq_cons in Hst as [Hc Hcs]. simpl in Hf. cbn [roots map_result].
  rewrite (dict_get_stored _ _ _ _ _ Hc).
  destruct (is_dict c); [|done]. simpl in Hf. by rewrite (IH _ Hcs Hf).
Qed.

Lemma roots_away h bi cs q :
  stored_seq h q cs -> bi < q -> Forall (away h bi) (roots q cs).
Proof.
  intros Hst Hlt. apply Forall_lookup_2. intros j e Hj.
  destruct (lookup_lt_is_Some_2 cs j) as [c Hc].
  { apply lookup_lt_Some in Hj. by rewrite length_roots in Hj. }
  rewrite (roots_lookup _ _ _ _ Hc) in Hj. injection Hj as <-.
  apply away_stored; [exact (stored_seq_lookup _ _ _ _ _ Hst Hc)|lia].
Qed.

Lemma strings_away h bi {A} (f : A -> string) (xs : list A) :
  Forall (away h bi) (map (fun x => VStr (f x)) xs).
Proof.
  apply Forall_forall. intros x Hx. by apply list_elem_of_fmap in Hx as (c & -> & _).
Qed.

Lemma driver_rejected h p t k d :
  stored_at h p t -> driver_ok t = false ->
  tree_truthy t = true /\ driver_exn t = Some AttributeError
  /\ dict_get h (root p t) k d = Raise AttributeError.
Proof.
  intros Hst Hok. unfold driver_ok in Hok.
  apply orb_false_iff in Hok as [Ht Hd]. apply negb_false_iff in Ht.
  split; [done|]. split; [unfold driver_exn; by rewrite Ht, Hd|].
  by rewrite (dict_get_stored _ _ _ _ _ Hst), Hd.
Qed.

Lemma constructors_rejected h bi p t :
  stored_at h p t -> bi < p -> constructors_ok t = false ->
  tree_truthy t = true /\
  exists e,
    constructors_exn t = Some e
    /\ (py_iter h (root p t) = Raise e
        \/ exists elems, py_iter h (root p t) = Ok elems /\ Forall (away h bi) elems
             /\ map_result (fun x => dict_get h x "name" (VStr "")) elems = Raise e).
Proof.
  intros Hst Hlt Hok. unfold constructors_ok in Hok.
  apply orb_false_iff in Hok as [Ht Hok]. apply negb_false_iff in Ht. split; [done|].
  unfold constructors_exn. rewrite Ht.
  destruct t as [ |b|z|f|s|cs|kvs|r]; simpl in *; try done.
  - exists TypeError. split; [done|]. by left.
  - exists TypeError. split; [done|]. by left.
  - exists TypeError. split; [done|]. by left.
  - destruct s as [|c s]; [done|]. exists AttributeError. split; [done|]. right.
    exists (chars (String c s)). split; [done|]. split; [apply strings_away|done].
  - apply stored_at_TList in Hst as [Hp Hs]. exists AttributeError.
    split; [by rewrite Hok|]. right.
    exists (roots (S p) cs). rewrite Hp. split; [done|].
    split; [apply roots_away; [done|lia]|by apply names_raise].
  - apply stored_at_TDict in Hst as [Hp _]. rewrite Hp.
    destruct kvs as [|[k t] kvs]; [done|]. exists AttributeError. split; [done|]. right.
    eexists. split; [done|]. split; [apply strings_away|done].
  - apply stored_at_TItem in Hst as [Hp _]. rewrite Hp. exists TypeError.
    split; [done|]. by left.
Qed.

Lemma location_rejected fos h p t :
  stored_at h p t -> location_ok fos t = false ->
  tree_truthy t = true /\
  exists e,
    location_exn fos t = Some e
    /\ (dict_get h (root p t) "lat" (VInt 0) = Raise e
        \/ (exists lat, dict_get h (root p t) "lat" (VInt 0) = Ok lat
              /\ py_float fos lat = Raise e)
        \/ (exists lat f long, dict_get h (root p t) "lat" (VInt 0) = Ok lat
              /\ py_float fos lat = Ok f
              /\ dict_get h (root p t) "long" (VInt 0) = Ok long
              /\ py_float fos long = Raise e)).
Proof.
  intros Hst Hok. unfold location_ok in Hok.
  apply orb_false_iff in Hok as [Ht Hok]. apply negb_false_iff in Ht. split; [done|].
  rewrite !(dict_get_stored _ _ _ _ _ Hst). unfold location_exn. rewrite Ht.
  destruct (is_dict t) eqn:Hd; [|exists AttributeError; split; [done|by left]].
  simpl in Hok. unfold float_ok, float_of_tree in *.
  destruct (field_stored h p t "lat" (TInt 0) Hst eq_refl) as (q1 & E1 & _).
  destruct (field_stored h p t "long" (TInt 0) Hst eq_refl) as (q2 & E2 & _).
  simpl in E1, E2. rewrite E1, E2.
  destruct (py_float fos (root 0 (tree_field t "lat" (TInt 0)))) as [f|e] eqn:Ef.
  - destruct (py_float fos (root 0 (tree_field t "long" (TInt 0)))) as [g|e] eqn:Eg;
      [done|].
    exists e. split; [done|]. right. right. eexists _, f, _. split; [done|].
    rewrite (py_float_root fos q1), (py_float_root fos q2). done.
  - exists e. split; [done|]. right. left. eexists. split; [done|].
    by rewrite (py_float_root fos q1).
Qed.

Lemma driver_exn_ok t : driver_ok t = true -> driver_exn t = None.
Proof.
  unfold driver_ok, driver_exn. destruct (tree_truthy t); [|done].
  simpl. by intros ->.
Qed.

Lemma constructors_exn_ok t : constructors_ok t = true -> constructors_exn t = None.
Proof.
  unfold constructors_ok, constructors_exn. destruct (tree_truthy t); [|done].
  simpl. destruct t; try done. by intros ->.
Qed.

Lemma location_exn_ok fos t : location_ok fos t = true -> location_exn fos t = None.
Proof.
  unfold location_ok, location_exn, float_ok. destruct (tree_truthy t); [|done].
  simpl. destruct (is_dict t); [|done]. simpl.
  destruct (float_of_tree fos (tree_field t "lat" (TInt 0))); [|done].
  by destruct (float_of_tree fos (tree_field t "long" (TInt 0))).
Qed.

Lemma opt_exn_ok f g o :
  (forall t, f t = true -> g t = None) -> opt_ok f o = true -> opt_exn g o = None.
Proof. intros H. destruct o as [t|]; [apply H|done]. Qed.

Lemma record_exn_raw fos rec : raw_record fos rec = true -> record_exn fos rec = None.
Proof.
  destruct rec as [ | | | | | |kvs| ]; try done. simpl.
  intros [[Hd Hc]%andb_true_iff Hl]%andb_true_iff.
  rewrite (opt_exn_ok _ _ _ driver_exn_ok Hd).
  rewrite (opt_exn_ok _ _ _ constructors_exn_ok Hc).
  exact (opt_exn_ok _ _ _ (location_exn_ok fos) Hl).
Qed.

(** The loop body raises on a stored copy of a mapping that is not a
    RawRecord, and until then it has written to the row only ... *)
Lemma prepare_row_rejects fos h bi kvs data i response :
  stored_at h bi (TDict kvs) -> away h bi data -> getitem_int h data i = Ok (VRef bi) ->
  raw_record fos (TDict kvs) = false ->
  exists e its' ext,
    record_exn fos (TDict kvs) = Some e
    /\ prepare_row fos response data i h = (Raise e, st h bi its' ext).
Proof.
  intros Hst Haw Hdata Hraw.
  assert (Hbi : bi < length h).
  { pose proof (stored_at_lt _ _ _ Hst) as H. rewrite tsize_TDict in H. lia. }
  apply stored_at_TDict in Hst as [Hrow Hseq].
  pose proof (dict_items_lookup kvs "Driver" (S bi)) as H1.
  pose proof (dict_items_lookup kvs "Constructors" (S bi)) as H2.
  pose proof (dict_items_lookup kvs "Location" (S bi)) as H3.
  set (its := dict_items (S bi) kvs) in *.
  cut (exists e its' ext,
         record_exn fos (TDict kvs) = Some e
         /\ prepare_row fos response data i (st h bi its []) = (Raise e, st h bi its' ext));
    [by rewrite (st_id h bi its Hrow)|].
  unfold prepare_row, bind. simpl in Hraw. cbn [record_exn].
  assert (Hdrv : opt_ok driver_ok (alist_get "Driver" kvs) = true ->
            match alist_get "Driver" its with
            | Some v => sub_dict h bi v | None => True end).
  { intros Hd. destruct (alist_get "Driver" kvs) as [t|]; [|by rewrite H1].
    destruct H1 as (q & -> & Hq & Hs). apply sub_dict_stored; [by apply Hs|lia|done]. }
  assert (Hcon : opt_ok constructors_ok (alist_get "Constructors" kvs) = true ->
            match alist_get "Constructors" its with
            | Some v => sub_dict_list h bi v | None => True end).
  { intros Hc. destruct (alist_get "Constructors" kvs) as [t|]; [|by rewrite H2].
    destruct H2 as (q & -> & Hq & Hs).
    apply sub_dict_list_stored; [by apply Hs|lia|done]. }
  destruct (opt_ok driver_ok (alist_get "Driver" kvs)) eqn:Hd.
  - rewrite (flatten_driver_st h bi Hbi data i Haw Hdata its []) by (by apply Hdrv).
    rewrite (opt_exn_ok _ _ _ driver_exn_ok Hd).
    destruct (opt_ok constructors_ok (alist_get "Constructors" kvs)) eqn:Hc.
    + rewrite (flatten_constructors_st h bi Hbi data i Haw Hdata)
        by (rewrite alist_get_flat_driver by done; by apply Hcon).
      rewrite (opt_exn_ok _ _ _ constructors_exn_ok Hc).
      simpl in Hraw. destruct (alist_get "Location" kvs) as [t|]; [|done].
      simpl in Hraw. destruct H3 as (q & E & Hq & Hs).
      destruct (location_rejected fos h q t (Hs h Hseq) Hraw) as (Ht & e & Hx & He).
      erewrite (flatten_location_raises fos h bi Hbi data i Haw Hdata _ _ (root q t) e);
        [eauto| | | |exact He].
      * by rewrite alist_get_flat_constructors, alist_get_flat_driver.
      * apply away_stored; [by apply Hs|lia].
      * by rewrite truthy_stored by (by apply Hs).
    + simpl in Hraw. destruct (alist_get "Constructors" kvs) as [t|]; [|done].
      simpl in Hc. destruct H2 as (q & E & Hq & Hs).
      destruct (constructors_rejected h bi q t (Hs h Hseq) ltac:(lia) Hc)
        as (Ht & e & Hx & He).
      erewrite (flatten_constructors_raises h bi Hbi data i Haw Hdata _ _ (root q t) e);
        [simpl; rewrite Hx; eauto| | | |exact He].
      * by rewrite alist_get_flat_driver.
      * apply away_stored; [by apply Hs|lia].
      * by rewrite truthy_stored by (by apply Hs).
  - destruct (alist_get "Driver" kvs) as [t|]; [|done].
    simpl in Hd. destruct H1 as (q & E & Hq & Hs).
    destruct (driver_rejected h q t "code" (VStr "") (Hs h Hseq) Hd) as (Ht & Hx & He).
    erewrite (flatten_driver_raises h bi Hbi data i Haw Hdata _ _ (root q t));
      [simpl; rewrite Hx; eauto| | | |exact He].
    + done.
    + apply away_stored; [by apply Hs|lia].
    + by rewrite truthy_stored by (by apply Hs).
Qed.

(** ... and on anything that is not a mapping, before any write. *)
Lemma prepare_row_not_dict fos h bi rec data i response :
  stored_at h bi rec -> getitem_int h data i = Ok (root bi rec) -> is_dict rec = false ->
  exists e, record_exn fos rec = Some e
            /\ prepare_row fos response data i h = (Raise e, h).
Proof.
  intros Hst Hdata Hd. unfold prepare_row, flatten_driver, bind, read.
  rewrite Hdata. destruct rec; try done; simpl; eauto.
  - apply stored_at_TList in Hst as [-> _]. eauto.
  - apply stored_at_TItem in Hst as [-> _]. eauto.
Qed.

(** ** Stores that agree on what a step reads *)

Lemma truthy_agree h h' v : agree h h' v -> truthy h v = truthy h' v.
Proof. destruct v; try done. simpl. by intros ->. Qed.

Lemma field_agree h h' v k d : agree h h' v -> field h v k d = field h' v k d.
Proof. destruct v; try done. unfold field. simpl. by intros ->. Qed.

Lemma py_iter_agree h h' v : agree h h' v -> py_iter h v = py_iter h' v.
Proof. destruct v; try done. simpl. by intros ->. Qed.

Lemma stored_agree h h' p t : stored_at h p t -> stored_at h' p t -> agree h h' (root p t).
Proof.
  intros H1 H2. destruct t; try done; simpl.
  - apply stored_at_TList in H1 as [-> _]. by apply stored_at_TList in H2 as [-> _].
  - apply stored_at_TDict in H1 as [-> _]. by apply stored_at_TDict in H2 as [-> _].
  - apply stored_at_TItem in H1 as [-> _]. by apply stored_at_TItem in H2 as [-> _].
Qed.

Lemma flat_driver_agree h h' its :
  (forall v, alist_get "Driver" its = Some v -> agree h h' v) ->
  flat_driver h its = flat_driver h' its.
Proof.
  intros H. unfold flat_driver. destruct (alist_get "Driver" its) as [v|]; [|done].
  specialize (H v eq_refl). rewrite (truthy_agree h h') by done.
  by rewrite !(field_agree h h' v).
Qed.

Lemma flat_constructors_agree h h' lst its :
  (forall v, alist_get "Constructors" its = Some v -> agree h h' v) ->
  flat_constructors h lst its = flat_constructors h' lst its.
Proof.
  intros H. unfold flat_constructors.
  destruct (alist_get "Constructors" its) as [v|]; [|done].
  specialize (H v eq_refl). by rewrite (truthy_agree h h').
Qed.

Lemma flat_location_agree fos h h' its :
  (forall v, alist_get "Location" its = Some v -> agree h h' v) ->
  flat_location fos h its = flat_location fos h' its.
Proof.
  intros H. unfold flat_location. destruct (alist_get "Location" its) as [v|]; [|done].
  specialize (H v eq_refl). rewrite (truthy_agree h h') by done.
  by rewrite !(field_agree h h' v).
Qed.

Lemma constructor_names_agree h h' v :
  agree h h' v ->
  (forall elems, py_iter h v = Ok elems -> Forall (agree h h') elems) ->
  constructor_names h v = constructor_names h' v.
Proof.
  intros Hv Hel. unfold constructor_names. rewrite <- (py_iter_agree h h') by done.
  destruct (py_iter h v) as [elems|]; [|done].
  specialize (Hel elems eq_refl). induction Hel as [|e elems He _ IH]; simpl; [done|].
  by rewrite IH, (field_agree h h' e).
Qed.

Lemma constructors_ext_agree h h' its :
  (forall v, alist_get "Constructors" its = Some v ->
     agree h h' v /\ forall elems, py_iter h v = Ok elems -> Forall (agree h h') elems) ->
  constructors_ext h its = constructors_ext h' its.
Proof.
  intros H. unfold constructors_ext.
  destruct (alist_get "Constructors" its) as [v|]; [|done].
  destruct (H v eq_refl) as [Hv Hel]. rewrite (truthy_agree h h') by done.
  by rewrite (constructor_names_agree h h').
Qed.

Lemma py_iter_stored_agree h h' p t elems :
  stored_at h p t -> stored_at h' p t ->
  py_iter h (root p t) = Ok elems -> Forall (agree h h') elems.
Proof.
  intros H1 H2. destruct t as [ | | | |s|cs|kvs| ]; try done; simpl.
  - intros [= <-]. unfold chars. apply Forall_forall. intros x Hx.
    apply list_elem_of_fmap in Hx as (c & -> & _). done.
  - apply stored_at_TList in H1 as [-> H1]. apply stored_at_TList in H2 as [_ H2].
    intros [= <-]. apply Forall_lookup_2. intros j e Hj.
    destruct (lookup_lt_is_Some_2 cs j) as [c Hc].
    { apply lookup_lt_Some in Hj. by rewrite length_roots in Hj. }
    rewrite (roots_lookup _ _ _ _ Hc) in Hj. injection Hj as <-.
    apply stored_agree;
      [exact (stored_seq_lookup _ _ (S p) _ _ H1 Hc)
      |exact (stored_seq_lookup _ _ (S p) _ _ H2 Hc)].
  - apply stored_at_TDict in H1 as [-> _]. intros [= <-].
    apply Forall_forall. intros x Hx.
    apply list_elem_of_fmap in Hx as (c & -> & _). done.
  - by apply stored_at_TItem in H1 as [-> _].
Qed.

(** The final items of a row do not depend on the store they are read in,
    as long as the copy of the record is stored there. *)
Lemma row_agree fos h h' bi kvs c a :
  stored_seq h (S bi) (map snd kvs) -> stored_seq h' (S bi) (map snd kvs) ->
  let its := dict_items (S bi) kvs in
  row_items fos h c a its = row_items fos h' c a its
  /\ constructors_ext h (flat_driver h its) = constructors_ext h' (flat_driver h' its).
Proof.
  intros H1 H2 its.
  assert (Hag : forall k v, alist_get k its = Some v ->
            agree h h' v /\ forall elems, py_iter h v = Ok elems -> Forall (agree h h') elems).
  { intros k v Hk. pose proof (dict_items_lookup kvs k (S bi)) as Hl. fold its in Hl.
    destruct (alist_get k kvs) as [t|]; [|congruence].
    destruct Hl as (q & E & _ & Hs). rewrite E in Hk. injection Hk as <-.
    split; [apply stored_agree; by apply Hs|].
    intros elems. apply py_iter_stored_agree; by apply Hs. }
  assert (E1 : flat_driver h its = flat_driver h' its).
  { apply flat_driver_agree. intros v Hv. by apply (Hag _ _ Hv). }
  split.
  - unfold row_items. rewrite <- E1.
    rewrite (flat_constructors_agree h h'), (flat_location_agree fos h h'); [done| |].
    + intros v. rewrite alist_get_flat_constructors, alist_get_flat_driver by done.
      intros Hv. by apply (Hag _ _ Hv).
    + intros v. rewrite alist_get_flat_driver by done. intros Hv. by apply (Hag _ _ Hv).
  - rewrite <- E1. apply constructors_ext_agree. intros v.
    rewrite alist_get_flat_driver by done. apply Hag.
Qed.

(** ** Objects that refer to new objects only *)

Lemma root_fresh b q t : b <= q -> fresh b (root q t).
Proof. by destruct t. Qed.

Lemma roots_fresh b ts : forall q, b <= q -> Forall (fresh b) (roots q ts).
Proof.
  induction ts as [|t ts IH]; intros q Hq; constructor.
  - by apply root_fresh.
  - apply IH. lia.
Qed.

Lemma dict_items_fresh b kvs : forall q,
  b <= q -> Forall (fun kv => fresh b (snd kv)) (dict_items q kvs).
Proof.
  induction kvs as [|[k t] kvs IH]; intros q Hq; constructor.
  - by apply root_fresh.
  - apply IH. lia.
Qed.

Lemma objs_new b t : forall q, b <= q -> Forall (obj_new b) (objs q t).
Proof.
  induction t as [ | | | | | ts IH | kvs IH | t IH] using tree_ind'; intros q Hq;
    try (by constructor).
  - rewrite objs_TList. constructor; [apply roots_fresh; lia|].
    assert (Hq' : b <= S q) by lia. revert Hq'. generalize (S q).
    induction IH as [|t ts Ht _ IHts]; intros q' Hq'; simpl; [constructor|].
    apply Forall_app. split; [by apply Ht|apply IHts; lia].
  - rewrite objs_TDict. constructor; [apply dict_items_fresh; lia|].
    assert (Hq' : b <= S q) by lia. revert Hq'. generalize (S q).
    induction kvs as [|[k t] kvs IHk]; intros q' Hq'; simpl; [constructor|].
    inversion IH as [|? ? Ht Hts]; subst.
    apply Forall_app. split; [by apply Ht|apply IHk; [done|lia]].
  - cbn [objs]. constructor; [done|]. apply IH. lia.
Qed.

Lemma closed_alloc (h : list obj) t : closed (length h) (h ++ objs (length h) t).
Proof.
  intros l o Hl Ho. rewrite lookup_app_r in Ho by done.
  exact (proj1 (Forall_lookup _ _) (objs_new (length h) t (length h) (le_n _)) _ _ Ho).
Qed.

Lemma alist_get_fresh (Q : value -> Prop) k its v :
  Forall (fun kv => Q (snd kv)) its -> alist_get k its = Some v -> Q v.
Proof.
  induction 1 as [|[k' v'] its Hv _ IH]; simpl; [done|].
  destruct (String.eqb k k'); [by intros [= <-]|done].
Qed.

Lemma alist_remove_fresh (Q : value -> Prop) k its :
  Forall (fun kv => Q (snd kv)) its -> Forall (fun kv => Q (snd kv)) (alist_remove k its).
Proof.
  induction 1 as [|[k' v'] its Hv _ IH]; simpl; [constructor|].
  destruct (String.eqb k k'); [done|by constructor].
Qed.

Lemma alist_set_Forall (Q : value -> Prop) k v its :
  Q v -> Forall (fun kv => Q (snd kv)) its -> Forall (fun kv => Q (snd kv)) (alist_set k v its).
Proof.
  intros Hv. induction 1 as [|[k' v'] its Hv' Hits IH]; simpl.
  - by repeat constructor.
  - destruct (String.eqb k k'); by constructor.
Qed.

Lemma field_fresh b h v k d :
  closed b h -> fresh b v -> fresh b d -> fresh b (field h v k d).
Proof.
  intros Hcl Hv Hd. unfold field. destruct v as [ | | | | |l]; try done. simpl.
  destruct (h !! l) as [[its| |]|] eqn:E; try done.
  destruct (alist_get k its) as [x|] eqn:Ek; [|done].
  exact (alist_get_fresh _ _ _ _ (Hcl l _ Hv E) Ek).
Qed.

Lemma flat_driver_fresh b h its :
  closed b h -> Forall (fun kv => fresh b (snd kv)) its ->
  Forall (fun kv => fresh b (snd kv)) (flat_driver h its).
Proof.
  intros Hcl Hits. unfold flat_driver.
  pose proof (alist_remove_fresh _ "Driver" _ Hits) as Hr.
  destruct (alist_get "Driver" its) as [drv|] eqn:E; [|done].
  destruct (truthy h drv); [|done].
  pose proof (alist_get_fresh _ _ _ _ Hits E) as Hd.
  unfold alist_update. simpl.
  repeat apply alist_set_Forall; try done; by apply field_fresh.
Qed.

Lemma flat_constructors_fresh b h lst its :
  (forall c, alist_get "Constructors" its = Some c -> truthy h c = true -> fresh b lst) ->
  Forall (fun kv => fresh b (snd kv)) its ->
  Forall (fun kv => fresh b (snd kv)) (flat_constructors h lst its).
Proof.
  intros Hl Hits. unfold flat_constructors.
  pose proof (alist_remove_fresh _ "Constructors" _ Hits) as Hr.
  destruct (alist_get "Constructors" its) as [c|] eqn:E; [|done].
  destruct (truthy h c) eqn:Ht; [|done].
  unfold alist_update. simpl. apply alist_set_Forall; [by apply (Hl c)|done].
Qed.

Lemma flat_location_fresh fos b h its :
  closed b h -> Forall (fun kv => fresh b (snd kv)) its ->
  Forall (fun kv => fresh b (snd kv)) (flat_location fos h its).
Proof.
  intros Hcl Hits. unfold flat_location.
  pose proof (alist_remove_fresh _ "Location" _ Hits) as Hr.
  destruct (alist_get "Location" its) as [loc|] eqn:E; [|done].
  destruct (truthy h loc); [|done].
  pose proof (alist_get_fresh _ _ _ _ Hits E) as Hd.
  unfold alist_update. simpl.
  repeat apply alist_set_Forall; try done; by apply field_fresh.
Qed.

Lemma constructor_names_fresh b h c :
  closed b h -> fresh b c -> Forall (fresh b) (constructor_names h c).
Proof.
  intros Hcl Hc. unfold constructor_names.
  destruct (py_iter h c) as [elems|] eqn:E; [|constructor].
  assert (Forall (fresh b) elems) as Hel.
  { destruct c as [ | | | |s|l]; try done; simpl in E.
    - injection E as <-. unfold chars. apply Forall_forall. intros x Hx.
      by apply list_elem_of_fmap in Hx as (c & -> & _).
    - destruct (h !! l) as [[its|vs|]|] eqn:El; try done; injection E as <-.
      + apply Forall_forall. intros x Hx.
        by apply list_elem_of_fmap in Hx as (c & -> & _).
      + exact (Hcl l _ Hc El). }
  apply Forall_forall. intros x Hx. apply list_elem_of_fmap in Hx as (e & -> & He).
  apply field_fresh; [done| |done].
  rewrite Forall_forall in Hel. by apply Hel.
Qed.

(** The store after one iteration refers to new objects only, when the
    store before it does. *)
Lemma row_closed fos b (H1 hc : list obj) bi kvs a orig :
  closed b H1 -> closed b hc -> b < bi -> bi < length hc -> b <= a ->
  let its := dict_items (S bi) kvs in
  closed b (<[bi := ODict (row_items fos H1 (length hc) a its)]> hc
            ++ (constructors_ext H1 (flat_driver H1 its) ++ [OItem orig])).
Proof.
  intros Hc1 Hcc Hbi Hlen Ha its l o Hl Ho.
  assert (Hits : Forall (fun kv => fresh b (snd kv)) its)
    by (apply dict_items_fresh; lia).
  pose proof (flat_driver_fresh b H1 its Hc1 Hits) as Hfd.
  destruct (decide (l < length hc)) as [Hlt|Hge].
  - rewrite lookup_app_l in Ho by (by rewrite length_insert).
    destruct (decide (l = bi)) as [->|Hne].
    + rewrite list_lookup_insert_eq in Ho by done. injection Ho as <-.
      unfold row_items. apply alist_set_Forall; [simpl; lia|].
      apply flat_location_fresh; [done|].
      apply flat_constructors_fresh; [|done]. intros; simpl; lia.
    + rewrite list_lookup_insert_ne in Ho by done. by apply (Hcc l).
  - rewrite lookup_app_r in Ho by (rewrite length_insert; lia).
    apply list_elem_of_lookup_2, elem_of_app in Ho as [Ho|Ho].
    + unfold constructors_ext in Ho.
      destruct (alist_get "Constructors" (flat_driver H1 its)) as [c|] eqn:E;
        [|by apply elem_of_nil in Ho].
      destruct (truthy H1 c); [|by apply elem_of_nil in Ho].
      apply list_elem_of_singleton in Ho as ->. simpl.
      apply constructor_names_fresh; [done|].
      exact (alist_get_fresh _ _ _ _ Hfd E).
    + by apply list_elem_of_singleton in Ho as ->.
Qed.

(** ** The loop of [_prepare_response] *)

Lemma stored_at_alloc (h : list obj) t : stored_at (h ++ objs (length h) t) (length h) t.
Proof. intros j o Hj. rewrite lookup_app_r by lia. by replace (length h + j - length h) with j by lia. Qed.

Lemma raw_record_dict fos t : raw_record fos t = true -> exists kvs, t = TDict kvs.
Proof. destruct t; try done. eauto. Qed.

Lemma row_loc_step b recs j i t :
  j < i -> recs !! j = Some t -> row_loc b recs j + tsize t <= row_loc b recs i.
Proof.
  unfold row_loc. intros Hlt Hj.
  assert (list_sum (map tsize (take j recs)) + tsize t
          <= list_sum (map tsize (take i recs))); [|lia].
  revert j i Hlt Hj. induction recs as [|r recs IH]; intros [|j] [|i] Hlt Hj;
    simplify_eq/=; try lia.
  specialize (IH j i ltac:(lia) Hj). lia.
Qed.

Lemma row_loc_end b recs j t :
  recs !! j = Some t -> row_loc b recs j + tsize t <= S b + list_sum (map tsize recs).
Proof.
  intros Hj. pose proof (row_loc_step b recs j (length recs) t) as H.
  unfold row_loc in *. rewrite firstn_all in H. apply H; [|done].
  by apply lookup_lt_Some in Hj.
Qed.

Section Loop.
Variable fos : string -> option pyfloat.
Variables (h0 : list obj) (p : nat) (recs : list tree).
(** The first [n] records are accepted. *)
Variable n : nat.
Hypothesis Hraw : forallb (raw_record fos) (take n recs) = true.
Hypothesis Hst : stored_at h0 p (TList recs).

Local Abbreviation b := (length h0).
Local Abbreviation H1 := (h0 ++ objs (length h0) (TList recs)).

Lemma length_H1 : length H1 = S b + list_sum (map tsize recs).
Proof. rewrite length_app, length_objs. simpl. lia. Qed.

Lemma recs_dict j t :
  j < n -> recs !! j = Some t -> exists kvs, t = TDict kvs /\ raw_record fos t = true.
Proof.
  intros Hjn Hj. rewrite forallb_forall in Hraw.
  assert (raw_record fos t = true) as Hr.
  { apply Hraw, list_elem_of_In. apply (list_elem_of_lookup_2 _ j).
    by rewrite lookup_take_lt. }
  destruct (raw_record_dict _ _ Hr) as [kvs ->]. eauto.
Qed.

Lemma row_loc_lt j i :
  j < i -> j < n -> i <= length recs -> row_loc b recs j < row_loc b recs i.
Proof.
  intros Hlt Hjn Hi. destruct (lookup_lt_is_Some_2 recs j) as [t Ht]; [lia|].
  destruct (recs_dict _ _ Hjn Ht) as (kvs & -> & _).
  pose proof (row_loc_step b recs j i _ Hlt Ht) as H.
  rewrite tsize_TDict in H. lia.
Qed.

Lemma p_lt_b : p < b.
Proof. pose proof (stored_at_lt _ _ _ Hst). simpl in *. lia. Qed.

Lemma loop_inv_start : loop_inv fos h0 p recs 0 H1.
Proof. split; [done|]. split; [done|]. intros j kvs Hj. lia. Qed.

Lemma loop_inv_prefix i hc l :
  loop_inv fos h0 p recs i hc -> l < b -> hc !! l = h0 !! l.
Proof.
  intros (_ & H2 & _) Hl. rewrite H2.
  - by rewrite lookup_app_l.
  - rewrite length_H1. lia.
  - intros j _. unfold row_loc. lia.
Qed.

Lemma loop_inv_data i hc :
  loop_inv fos h0 p recs i hc -> hc !! b = Some (OList (roots (S b) recs)).
Proof.
  intros (_ & H2 & _). rewrite H2.
  - by rewrite objs_TList, list_lookup_middle.
  - rewrite length_H1. lia.
  - intros j _. unfold row_loc. lia.
Qed.

Lemma prepare_row_inv i hc :
  loop_inv fos h0 p recs i hc -> i < length recs -> i < n ->
  exists hc', prepare_row fos (VRef p) (VRef b) i hc = (Ok tt, hc')
              /\ loop_inv fos h0 p recs (S i) hc'
              /\ (closed b hc -> closed b hc').
Proof.
  intros Hinv Hi Hin. pose proof Hinv as (I1 & I2 & I3).
  destruct (lookup_lt_is_Some_2 recs i Hi) as [rec Hrec].
  destruct (recs_dict _ _ Hin Hrec) as (kvs & -> & Hrawi).
  set (bi := row_loc b recs i).
  pose proof (row_loc_end b recs i _ Hrec) as Hend. fold bi in Hend.
  rewrite <- length_H1, tsize_TDict in Hend.
  pose proof p_lt_b as Hpb.
  assert (Hs1 : stored_at H1 bi (TDict kvs)).
  { pose proof (stored_at_alloc h0 (TList recs)) as Hs.
    apply stored_at_TList in Hs as [_ Hs].
    exact (stored_seq_lookup _ _ (S b) _ _ Hs Hrec). }
  assert (Hsc : stored_at hc bi (TDict kvs)).
  { eapply stored_at_agree; [|exact Hs1]. intros l Hl. rewrite tsize_TDict in Hl.
    apply I2; [lia|].
    intros j Hj. pose proof (row_loc_lt j i Hj ltac:(lia) ltac:(lia)) as H.
    fold bi in H. lia. }
  assert (Hbi : bi < length hc) by lia.
  assert (Hbb : b < bi) by (unfold bi, row_loc; lia).
  pose proof (loop_inv_data _ _ Hinv) as Hdata.
  assert (Hresp : hc !! p = Some (OList (roots (S p) recs))).
  { rewrite (loop_inv_prefix _ _ _ Hinv) by done.
    by apply stored_at_TList in Hst as [-> _]. }
  pose proof (row_ready fos hc bi kvs Hsc Hrawi) as (Hd & Hc & Hl).
  assert (Hgd : getitem_int hc (VRef b) i = Ok (VRef bi)).
  { simpl. rewrite Hdata, (roots_lookup _ _ _ _ Hrec). done. }
  assert (Hgr : getitem_int hc (VRef p) i = Ok (VRef (row_loc p recs i))).
  { simpl. rewrite Hresp, (roots_lookup _ _ _ _ Hrec). done. }
  assert (Hrow : hc !! bi = Some (ODict (dict_items (S bi) kvs))).
  { by apply stored_at_TDict in Hsc as [-> _]. }
  pose proof (prepare_row_run fos hc bi Hbi (VRef b) i ltac:(simpl; lia) Hgd
                (VRef p) (VRef (row_loc p recs i)) ltac:(simpl; lia) Hgr
                (dict_items (S bi) kvs) Hrow Hd Hc Hl) as Hrun.
  destruct (row_agree fos hc H1 bi kvs (length hc)
              (length hc + length (constructors_ext hc
                                     (flat_driver hc (dict_items (S bi) kvs))))
              (proj2 (proj1 (stored_at_TDict _ _ _) Hsc))
              (proj2 (proj1 (stored_at_TDict _ _ _) Hs1))) as [Eitems Eext].
  rewrite Eitems in Hrun. unfold row_ext in Hrun. rewrite Eext in Hrun.
  eexists. split; [exact Hrun|].
  set (its := dict_items (S bi) kvs) in *.
  set (cext := constructors_ext H1 (flat_driver H1 its)) in *.
  assert (Hkeep : forall l o, l <> bi -> hc !! l = Some o ->
            (<[bi := ODict (row_items fos H1 (length hc) (length hc + length cext) its)]> hc
             ++ (cext ++ [OItem (VRef (row_loc p recs i))])) !! l = Some o).
  { intros l o Hne Hlo. apply lookup_app_l_Some. by rewrite list_lookup_insert_ne. }
  split; [split; [|split]|].
  - etrans; [exact I1|]. rewrite length_app, length_insert. lia.
  - intros l Hlt Hrows. rewrite lookup_app_l by (rewrite length_insert; lia).
    rewrite list_lookup_insert_ne.
    + apply I2; [done|]. intros j Hj. apply Hrows. lia.
    + intros E. apply (Hrows i); [lia|]. symmetry. exact E.
  - intros j kvs' Hj Hrecj. destruct (decide (j = i)) as [->|Hne].
    + rewrite Hrec in Hrecj. injection Hrecj as <-. fold bi. fold its. fold cext.
      exists (length hc), (length hc + length cext). split; [|split; [lia|split]].
      * rewrite lookup_app_l by (by rewrite length_insert).
        by apply list_lookup_insert_eq.
      * rewrite lookup_app_r by (rewrite length_insert; lia).
        rewrite length_insert. rewrite lookup_app_r by lia.
        by replace (length hc + length cext - length hc - length cext) with 0 by lia.
      * intros o Ho. split; [lia|].
        rewrite lookup_app_r by (by rewrite length_insert).
        rewrite length_insert, Nat.sub_diag. by apply lookup_app_l_Some.
    + destruct (I3 j kvs' ltac:(lia) Hrecj) as (c & a & E1 & Ha & E2 & Hc').
      exists c, a.
      pose proof (row_loc_lt j i ltac:(lia) ltac:(lia) ltac:(lia)) as Hji. fold bi in Hji.
      split; [apply Hkeep; [lia|done]|]. split; [done|].
      split; [apply Hkeep; [lia|done]|].
      intros o Ho. destruct (Hc' o Ho) as [Hc1 Hc2]. split; [done|].
      apply Hkeep; [lia|done].
  - intros Hcl. apply row_closed; [apply closed_alloc|done|done|done|lia].
Qed.

Lemma loop_run k : forall i hc,
  i + k <= n -> n <= length recs -> loop_inv fos h0 p recs i hc ->
  exists hf, for_each (prepare_row fos (VRef p) (VRef b)) (seq i k) hc = (Ok tt, hf)
             /\ loop_inv fos h0 p recs (i + k) hf
             /\ (closed b hc -> closed b hf).
Proof.
  induction k as [|k IH]; intros i hc Hik Hn Hinv.
  - exists hc. simpl. split; [done|]. split; [by rewrite Nat.add_0_r|done].
  - destruct (prepare_row_inv i hc Hinv) as (hc' & E & Hinv' & Hcl); [lia|lia|].
    destruct (IH (S i) hc') as (hf & E' & Hf & Hcl'); [lia|done|done|].
    exists hf. simpl. unfold bind. rewrite E.
    split; [done|]. split; [by replace (i + S k) with (S i + k) by lia|auto].
Qed.

(** The iteration on the first record that is not accepted raises, and
    leaves the objects of the input as they were. *)
Lemma prepare_row_stops hc rec :
  loop_inv fos h0 p recs n hc -> recs !! n = Some rec -> raw_record fos rec = false ->
  exists e hc', record_exn fos rec = Some e
                /\ prepare_row fos (VRef p) (VRef b) n hc = (Raise e, hc')
                /\ forall l, l < b -> hc' !! l = hc !! l.
Proof.
  intros Hinv Hrec Hrej. pose proof Hinv as (I1 & I2 & I3).
  set (bi := row_loc b recs n).
  pose proof (row_loc_end b recs n _ Hrec) as Hend. fold bi in Hend.
  rewrite <- length_H1 in Hend.
  assert (Hs1 : stored_at H1 bi rec).
  { pose proof (stored_at_alloc h0 (TList recs)) as Hs.
    apply stored_at_TList in Hs as [_ Hs].
    exact (stored_seq_lookup _ _ (S b) _ _ Hs Hrec). }
  assert (Hsc : stored_at hc bi rec).
  { eapply stored_at_agree; [|exact Hs1]. intros l Hl.
    apply I2; [lia|].
    intros j Hj.
    pose proof (row_loc_lt j n Hj Hj ltac:(apply lookup_lt_Some in Hrec; lia)) as H.
    fold bi in H. lia. }
  assert (Hbb : b < bi) by (unfold bi, row_loc; lia).
  pose proof (loop_inv_data _ _ Hinv) as Hdata.
  assert (Hgd : getitem_int hc (VRef b) n = Ok (root bi rec)).
  { simpl. rewrite Hdata, (roots_lookup _ _ _ _ Hrec). done. }
  destruct (is_dict rec) eqn:Hd.
  - destruct rec as [ | | | | | |kvs| ]; try done.
    pose proof (stored_at_lt _ _ _ Hsc) as Hlt. rewrite tsize_TDict in Hlt.
    destruct (prepare_row_rejects fos hc bi kvs (VRef b) n (VRef p) Hsc
                ltac:(simpl; lia) Hgd Hrej) as (e & its' & ext & Hx & E).
    exists e, (st hc bi its' ext). split; [done|]. split; [done|].
    intros l Hl. apply st_lookup_ne; lia.
  - destruct (prepare_row_not_dict fos hc bi rec (VRef b) n (VRef p) Hsc Hgd Hd)
      as (e & Hx & E).
    by exists e, hc.
Qed.
End Loop.

(** ** Values that denote trees *)

Lemma map_option_Forall2 {A B} (f : A -> option B) xs ys :
  map_option f xs = Some ys <-> Forall2 (fun x y => f x = Some y) xs ys.
Proof.
  revert ys. induction xs as [|x xs IH]; intros ys; simpl.
  - split; [intros [= <-]; constructor | by inversion 1].
  - destruct (f x) as [y|] eqn:E.
    + destruct (map_option f xs) as [ys'|] eqn:E'.
      * split.
        -- intros [= <-]. constructor; [done|]. by apply IH.
        -- inversion 1 as [|? y' ? ys'' Hy Hys]; subst. apply IH in Hys.
           congruence.
      * split; [done|]. inversion 1 as [|? y' ? ys'' Hy Hys]; subst.
        apply IH in Hys. congruence.
    + split; [done|]. inversion 1; congruence.
Qed.

Lemma option_map_Some {A B} (f : A -> B) o y :
  option_map f o = Some y <-> exists x, o = Some x /\ y = f x.
Proof.
  destruct o as [x|]; simpl; split.
  - intros [= <-]. eauto.
  - by intros (x' & [= <-] & ->).
  - done.
  - by intros (x' & H & _).
Qed.

Lemma reify_mono n : forall h v t m, reify n h v = Some t -> n <= m -> reify m h v = Some t.
Proof.
  induction n as [|n IH]; intros h v t m H Hle.
  - destruct v; by destruct m.
  - destruct v; try (by destruct m). destruct m as [|m]; [lia|].
    simpl in *. destruct (h !! l) as [[items|elems|r]|]; [| | |done].
    + apply option_map_Some in H as (kts & H & ->).
      apply option_map_Some. exists kts. split; [|done].
      apply map_option_Forall2. apply map_option_Forall2 in H.
      eapply Forall2_impl; [exact H|]. intros kv kt Hk. simpl in Hk.
      apply option_map_Some in Hk as (x & Hx & ->).
      apply option_map_Some. exists x. split; [|done]. apply (IH _ _ _ _ Hx). lia.
    + apply option_map_Some in H as (ts & H & ->).
      apply option_map_Some. exists ts. split; [|done].
      apply map_option_Forall2. apply map_option_Forall2 in H.
      eapply Forall2_impl; [exact H|]. intros x y Hx. apply (IH _ _ _ _ Hx). lia.
    + apply option_map_Some in H as (x & H & ->).
      apply option_map_Some. exists x. split; [|done]. apply (IH _ _ _ _ H). lia.
Qed.

Lemma rep_atom h t : tsize t = 0 -> rep h (root 0 t) t.
Proof. intros H. exists 0. by destruct t. Qed.

Lemma Forall2_rep_fuel h vs ts :
  Forall2 (rep h) vs ts -> exists n, Forall2 (fun v t => reify n h v = Some t) vs ts.
Proof.
  induction 1 as [|v t vs ts [n Hn] _ [m IH]]; [exists 0; constructor|].
  exists (n `max` m). constructor.
  - apply (reify_mono _ _ _ _ _ Hn). lia.
  - eapply Forall2_impl; [exact IH|]. intros x y Hx. apply (reify_mono _ _ _ _ _ Hx). lia.
Qed.

Lemma rep_list h l vs ts :
  h !! l = Some (OList vs) -> Forall2 (rep h) vs ts -> rep h (VRef l) (TList ts).
Proof.
  intros Hl HF. apply Forall2_rep_fuel in HF as [n HF]. exists (S n). simpl. rewrite Hl.
  apply option_map_Some. exists ts. split; [|done]. by apply map_option_Forall2.
Qed.

Lemma rep_item h l r t :
  h !! l = Some (OItem r) -> rep h r t -> rep h (VRef l) (TItem t).
Proof.
  intros Hl [n Hn]. exists (S n). simpl. rewrite Hl. by rewrite Hn.
Qed.

Lemma rep_dict h l its kvs :
  h !! l = Some (ODict its) -> items_rep h its kvs -> rep h (VRef l) (TDict kvs).
Proof.
  intros Hl HF.
  assert (exists n, Forall2 (fun kv kt =>
            option_map (pair (fst kv)) (reify n h (snd kv)) = Some kt) its kvs) as [n Hn].
  { clear Hl. unfold items_rep in HF.
    induction HF as [|[k v] [k' t] its kvs [Hk [n Hn]] _ [m IH]];
      [exists 0; constructor|].
    simpl in *. subst k'. exists (n `max` m). constructor.
    - simpl. by rewrite (reify_mono _ _ _ _ (n `max` m) Hn) by lia.
    - eapply Forall2_impl; [exact IH|]. intros [k1 v1] [k2 t2] Hx. simpl in *.
      apply option_map_Some in Hx as (x & Hx & [= -> ->]).
      by rewrite (reify_mono _ _ _ _ (n `max` m) Hx) by lia. }
  exists (S n). simpl. rewrite Hl.
  apply option_map_Some. exists kvs. split; [|done]. by apply map_option_Forall2.
Qed.

(** Inversion: what a value that denotes a tree looks like. *)
Lemma rep_inv h v t :
  rep h v t ->
  match v with
  | VRef l =>
      match h !! l with
      | Some (OList vs) => exists ts, t = TList ts /\ Forall2 (rep h) vs ts
      | Some (ODict its) => exists kvs, t = TDict kvs /\ items_rep h its kvs
      | Some (OItem r) => exists t', t = TItem t' /\ rep h r t'
      | None => False
      end
  | _ => v = root 0 t /\ tsize t = 0
  end.
Proof.
  intros [n Hn]. destruct v; try (destruct n; simpl in Hn; injection Hn as <-; done).
  destruct n as [|n]; [done|]. simpl in Hn.
  destruct (h !! l) as [[its|vs|r]|]; [| | |done].
  - apply option_map_Some in Hn as (kvs & H & ->). exists kvs. split; [done|].
    apply map_option_Forall2 in H. eapply Forall2_impl; [exact H|].
    intros [k v] [k' t] Hx. simpl in *. apply option_map_Some in Hx as (x & Hx & [= -> ->]).
    split; [done|]. by exists n.
  - apply option_map_Some in Hn as (ts & H & ->). exists ts. split; [done|].
    apply map_option_Forall2 in H. eapply Forall2_impl; [exact H|].
    intros x y Hx. by exists n.
  - apply option_map_Some in Hn as (t' & H & ->). exists t'. split; [done|]. by exists n.
Qed.

Lemma rep_stored t : forall h p, stored_at h p t -> rep h (root p t) t.
Proof.
  induction t as [ | | | | | ts IH | kvs IH | t IH] using tree_ind'; intros h p Hst;
    try (by exists 0).
  - apply stored_at_TList in Hst as [Hp Hst]. apply (rep_list _ _ _ _ Hp).
    clear Hp. revert Hst. generalize (S p). induction IH as [|t ts Ht _ IHts]; intros q Hst.
    + constructor.
    + apply stored_seq_cons in Hst as [H1 H2]. constructor; [by apply Ht|by apply IHts].
  - apply stored_at_TDict in Hst as [Hp Hst]. apply (rep_dict _ _ _ _ Hp).
    clear Hp. revert Hst. generalize (S p).
    induction kvs as [|[k t] kvs IHkvs]; intros q Hst; [constructor|].
    simpl in IH, Hst. apply Forall_cons in IH as [Ht IH].
    apply stored_seq_cons in Hst as [H1 H2]. constructor; [|by apply IHkvs].
    split; [done|]. by apply Ht.
  - apply stored_at_TItem in Hst as [Hp Hst]. apply (rep_item _ _ _ _ Hp). by apply IH.
Qed.

Lemma items_rep_stored h kvs : forall q,
  stored_seq h q (map snd kvs) -> items_rep h (dict_items q kvs) kvs.
Proof.
  induction kvs as [|[k t] kvs IH]; intros q Hst; [constructor|].
  simpl in Hst. apply stored_seq_cons in Hst as [H1 H2].
  constructor; [|by apply IH]. split; [done|]. by apply rep_stored.
Qed.

(** ** The flattening steps on values and on trees, side by side *)

Lemma items_rep_get h its kvs k :
  items_rep h its kvs ->
  match alist_get k its, alist_get k kvs with
  | Some v, Some t => rep h v t
  | None, None => True
  | _, _ => False
  end.
Proof.
  induction 1 as [|[k1 v] [k2 t] its kvs [Hk Hr] _ IH]; simpl in *; [done|].
  subst k2. by destruct (String.eqb k k1).
Qed.

Lemma items_rep_remove h its kvs k :
  items_rep h its kvs -> items_rep h (alist_remove k its) (alist_remove k kvs).
Proof.
  induction 1 as [|[k1 v] [k2 t] its kvs [Hk Hr] _ IH]; simpl in *; [constructor|].
  subst k2. destruct (String.eqb k k1); [done|]. by constructor.
Qed.

Lemma items_rep_set h its kvs k v t :
  items_rep h its kvs -> rep h v t -> items_rep h (alist_set k v its) (alist_set k t kvs).
Proof.
  intros H Hv. induction H as [|[k1 v1] [k2 t2] its kvs [Hk Hr] Hrest IH]; simpl in *.
  - by repeat constructor.
  - subst k2. destruct (String.eqb k k1); by constructor.
Qed.

Lemma truthy_rep h v t : rep h v t -> truthy h v = tree_truthy t.
Proof.
  intros H. apply rep_inv in H.
  destruct v as [ | | | | |l]; try (destruct H as [E _]; destruct t; by simplify_eq/=).
  simpl. destruct (h !! l) as [[its|vs|r]|]; [| | |done].
  - destruct H as (kvs & -> & HF). simpl. by rewrite (Forall2_length _ _ _ HF).
  - destruct H as (ts & -> & HF). simpl. by rewrite (Forall2_length _ _ _ HF).
  - by destruct H as (t' & -> & _).
Qed.

Lemma field_rep h v t k d dt :
  rep h v t -> rep h d dt -> rep h (field h v k d) (tree_field t k dt).
Proof.
  intros H Hd. apply rep_inv in H. unfold field.
  destruct v as [ | | | | |l]; try (destruct H as [E _]; destruct t; by simplify_eq/=).
  simpl. destruct (h !! l) as [[its|vs|r]|]; [| | |done].
  - destruct H as (kvs & -> & HF). simpl.
    pose proof (items_rep_get _ _ _ k HF) as Hk.
    by destruct (alist_get k its), (alist_get k kvs).
  - by destruct H as (ts & -> & _).
  - by destruct H as (t' & -> & _).
Qed.

Lemma py_float_rep fos h v t : rep h v t -> py_float fos v = py_float fos (root 0 t).
Proof.
  intros H. apply rep_inv in H. destruct v as [ | | | | |l]; try (by destruct H as [-> _]).
  simpl. destruct (h !! l) as [[its|vs|r]|]; [| | |done].
  - by destruct H as (kvs & -> & _).
  - by destruct H as (ts & -> & _).
  - by destruct H as (t' & -> & _).
Qed.

Lemma rep_str h s : rep h (VStr s) (TStr s).
Proof. by exists 0. Qed.

Lemma rep_float h f : rep h (VFloat f) (TFloat f).
Proof. by exists 0. Qed.

Lemma rep_int h z : rep h (VInt z) (TInt z).
Proof. by exists 0. Qed.

Lemma flat_driver_rep h its kvs :
  items_rep h its kvs -> items_rep h (flat_driver h its) (norm_driver kvs).
Proof.
  intros H. unfold flat_driver, norm_driver.
  pose proof (items_rep_get _ _ _ "Driver" H) as Hk.
  pose proof (items_rep_remove _ _ _ "Driver" H) as Hr.
  destruct (alist_get "Driver" its) as [v|], (alist_get "Driver" kvs) as [t|]; try done.
  rewrite (truthy_rep _ _ _ Hk). destruct (tree_truthy t); [|done].
  unfold alist_update. simpl.
  repeat apply items_rep_set; try done; apply field_rep; try done; apply rep_str.
Qed.

Lemma names_rep h v ct :
  rep h v ct -> constructors_ok ct = true -> tree_truthy ct = true ->
  Forall2 (rep h) (constructor_names h v) (tree_names ct).
Proof.
  intros H Hok Ht. unfold constructors_ok in Hok. rewrite Ht in Hok. simpl in Hok.
  destruct ct as [ | | | | |cs| | ]; try done.
  apply rep_inv in H. destruct v as [ | | | | |l]; try (by destruct H as [_ ?]).
  unfold constructor_names. simpl. destruct (h !! l) as [[its|vs|r]|]; [| | |done].
  - by destruct H as (kvs & ? & _).
  - destruct H as (ts & [= <-] & HF). clear Hok Ht.
    induction HF as [|e c vs cs He _ IH]; simpl; constructor; [|done].
    apply field_rep; [done|apply rep_str].
  - by destruct H as (t' & ? & _).
Qed.

Lemma flat_constructors_rep h lst its kvs :
  items_rep h its kvs ->
  (forall ct, alist_get "Constructors" kvs = Some ct -> tree_truthy ct = true ->
              rep h lst (TList (tree_names ct))) ->
  items_rep h (flat_constructors h lst its) (norm_constructors kvs).
Proof.
  intros H Hlst. unfold flat_constructors, norm_constructors.
  pose proof (items_rep_get _ _ _ "Constructors" H) as Hk.
  pose proof (items_rep_remove _ _ _ "Constructors" H) as Hr.
  destruct (alist_get "Constructors" its) as [v|], (alist_get "Constructors" kvs) as [t|];
    try done.
  rewrite (truthy_rep _ _ _ Hk). destruct (tree_truthy t) eqn:Ht; [|done].
  unfold alist_update. simpl. apply items_rep_set; [done|]. by apply Hlst.
Qed.

Lemma flat_location_rep fos h its kvs :
  items_rep h its kvs -> items_rep h (flat_location fos h its) (norm_location fos kvs).
Proof.
  intros H. unfold flat_location, norm_location.
  pose proof (items_rep_get _ _ _ "Location" H) as Hk.
  pose proof (items_rep_remove _ _ _ "Location" H) as Hr.
  destruct (alist_get "Location" its) as [v|], (alist_get "Location" kvs) as [t|]; try done.
  rewrite (truthy_rep _ _ _ Hk). destruct (tree_truthy t); [|done].
  assert (Hf : forall k, float_or_zero fos (field h v k (VInt 0))
                         = tree_float fos (tree_field t k (TInt 0))).
  { intros k. unfold tree_float, float_or_zero.
    by rewrite (py_float_rep fos h _ (tree_field t k (TInt 0)))
      by (apply field_rep; [done|apply rep_int]). }
  unfold alist_update. simpl. rewrite !Hf.
  repeat apply items_rep_set; try done;
    try apply rep_float; apply field_rep; try done; apply rep_str.
Qed.

Lemma alist_get_norm_driver kvs k :
  k <> "Driver" -> k <> "DriverNumber" -> alist_get k (norm_driver kvs) = alist_get k kvs.
Proof.
  intros H1 H2. unfold norm_driver.
  destruct (alist_get "Driver" kvs) as [drv|]; [destruct (tree_truthy drv)|];
    rewrite ?alist_get_update_notin; try by apply alist_get_remove_ne.
  simpl. apply String.eqb_neq in H1, H2. by rewrite H1, H2.
Qed.

(** ** The finished table *)

Section LoopResult.
Variable fos : string -> option pyfloat.
Variables (h0 : list obj) (p : nat) (recs : list tree).
Hypothesis Hraw : forallb (raw_record fos) recs = true.
Hypothesis Hst : stored_at h0 p (TList recs).
Variable hf : list obj.
Hypothesis Hinv : loop_inv fos h0 p recs (length recs) hf.

Lemma raw_take_all : forallb (raw_record fos) (take (length recs) recs) = true.
Proof. by rewrite firstn_all. Qed.

Lemma final_dict j t :
  recs !! j = Some t -> exists kvs, t = TDict kvs /\ raw_record fos t = true.
Proof.
  intros Hj. apply (recs_dict fos recs (length recs) raw_take_all j); [|done].
  by apply lookup_lt_Some in Hj.
Qed.

Local Abbreviation b := (length h0).
Local Abbreviation H1 := (h0 ++ objs (length h0) (TList recs)).

Lemma final_prefix l o : h0 !! l = Some o -> hf !! l = Some o.
Proof.
  intros Hl. rewrite (loop_inv_prefix fos h0 p recs _ _ l Hinv); [done|].
  by apply lookup_lt_Some in Hl.
Qed.

Lemma final_original i kvs :
  recs !! i = Some (TDict kvs) -> rep hf (VRef (row_loc p recs i)) (TDict kvs).
Proof.
  intros Hi. apply (rep_stored (TDict kvs)).
  apply stored_at_TList in Hst as [_ Hs].
  pose proof (stored_seq_lookup _ _ (S p) _ _ Hs Hi) as Ho.
  intros j o Hj. apply final_prefix. by apply Ho.
Qed.

Lemma final_children i kvs :
  recs !! i = Some (TDict kvs) ->
  stored_seq H1 (S (row_loc b recs i)) (map snd kvs)
  /\ stored_seq hf (S (row_loc b recs i)) (map snd kvs).
Proof.
  intros Hi. destruct Hinv as (I1 & I2 & _).
  pose proof (stored_at_alloc h0 (TList recs)) as Hs.
  apply stored_at_TList in Hs as [_ Hs].
  pose proof (stored_seq_lookup _ _ (S b) _ _ Hs Hi) as Hs1.
  apply stored_at_TDict in Hs1 as [_ Hs1]. split; [exact Hs1|].
  eapply stored_seq_agree; [|exact Hs1]. intros l Hl.
  pose proof (row_loc_end b recs i _ Hi) as Hend.
  rewrite tsize_TDict in Hend. rewrite <- (length_H1 h0 recs) in Hend.
  apply I2; [fold (row_loc b recs i) in Hl; lia|].
  intros j Hj. destruct (lookup_lt_is_Some_2 recs j Hj) as [t Ht].
  destruct (final_dict _ _ Ht) as (kvs' & -> & _).
  destruct (decide (j <= i)) as [Hle|Hgt].
  - destruct (decide (j = i)) as [->|Hne]; [lia|].
    pose proof (row_loc_lt fos h0 recs (length recs) raw_take_all j i ltac:(lia) Hj
                  ltac:(apply lookup_lt_Some in Hi; lia)). lia.
  - pose proof (row_loc_step b recs i j _ ltac:(lia) Hi) as Hstep.
    rewrite tsize_TDict in Hstep. lia.
Qed.

Lemma final_row i kvs :
  recs !! i = Some (TDict kvs) ->
  exists items a,
    hf !! row_loc b recs i = Some (ODict items)
    /\ alist_get "__ErgastResponse" items = Some (VRef a)
    /\ hf !! a = Some (OItem (VRef (row_loc p recs i)))
    /\ items_rep hf items
         (alist_set "__ErgastResponse" (TItem (TDict kvs))
            (norm_location fos (norm_constructors (norm_driver kvs)))).
Proof.
  intros Hi. pose proof Hinv as (_ & _ & I3).
  destruct (I3 i kvs ltac:(by apply lookup_lt_Some in Hi) Hi) as (c & a & E & _ & Ea & Hc).
  destruct (final_children i kvs Hi) as [Hs1 Hsf].
  destruct (row_agree fos H1 hf (row_loc b recs i) kvs c a Hs1 Hsf) as [Eit Eext].
  cbv zeta in Eit, Eext. rewrite Eit in E. rewrite Eext in Hc.
  set (its := dict_items (S (row_loc b recs i)) kvs) in *.
  exists (row_items fos hf c a its), a.
  split; [done|]. split; [apply alist_get_set_eq|]. split; [done|].
  assert (Hrep : items_rep hf its kvs) by (by apply items_rep_stored).
  unfold row_items. apply items_rep_set; [|apply (rep_item _ _ _ _ Ea), (final_original _ _ Hi)].
  apply flat_location_rep, flat_constructors_rep; [by apply flat_driver_rep|].
  intros ct. rewrite alist_get_norm_driver by done. intros Hct Htruthy.
  pose proof (items_rep_get _ _ _ "Constructors" (flat_driver_rep _ _ _ Hrep)) as Hg.
  rewrite alist_get_norm_driver, Hct in Hg by done.
  destruct (alist_get "Constructors" (flat_driver hf its)) as [v|] eqn:Ev; [|done].
  unfold constructors_ext in Hc. rewrite Ev, (truthy_rep _ _ _ Hg), Htruthy in Hc.
  destruct (Hc _ eq_refl) as [_ Hcl]. apply (rep_list _ _ _ _ Hcl).
  apply names_rep; [done| |done].
  destruct (final_dict _ _ Hi) as (kvs' & [= <-] & Hr).
  simpl in Hr. apply andb_true_iff in Hr as [[_ Hr]%andb_true_iff _].
  by rewrite Hct in Hr.
Qed.

Lemma final_rows :
  Forall2 (rep hf) (roots (S b) recs) (map (normalize_record fos) recs).
Proof.
  apply Forall2_same_length_lookup_2.
  { by rewrite length_roots, length_map. }
  intros i v t Hv Ht. rewrite list_lookup_fmap in Ht.
  destruct (recs !! i) as [rec|] eqn:Hi; [|done]. injection Ht as <-.
  destruct (final_dict _ _ Hi) as (kvs & -> & _).
  rewrite (roots_lookup _ _ _ _ Hi) in Hv. injection Hv as <-.
  destruct (final_row i kvs Hi) as (items & a & E & _ & _ & Hrep).
  exact (rep_dict _ _ _ _ E Hrep).
Qed.

Lemma final_backrefs i orig :
  roots (S p) recs !! i = Some orig ->
  exists l items a,
    roots (S b) recs !! i = Some (VRef l) /\ hf !! l = Some (ODict items)
    /\ alist_get "__ErgastResponse" items = Some (VRef a)
    /\ hf !! a = Some (OItem orig).
Proof.
  intros Ho. destruct (lookup_lt_is_Some_2 recs i) as [rec Hi].
  { apply lookup_lt_Some in Ho. by rewrite length_roots in Ho. }
  destruct (final_dict _ _ Hi) as (kvs & -> & _).
  rewrite (roots_lookup _ _ _ _ Hi) in Ho. injection Ho as <-.
  destruct (final_row i kvs Hi) as (items & a & E & Ea & Ei & _).
  exists (row_loc b recs i), items, a. by rewrite (roots_lookup _ _ _ _ Hi).
Qed.
End LoopResult.

(** *** [_prepare_response] refines [normalize_record]

    On a stored list of accepted records the call returns a new list of
    rows; every object that was in the store is left as it was; row [i]
    denotes the normalised record [i]; and its hidden entry is an item whose
    [_response] is the very value found at index [i] of the input. *)
Lemma for_each_stops {S A} (body : A -> M S unit) xs y ys e s'' : forall s s',
  for_each body xs s = (Ok tt, s') -> body y s' = (Raise e, s'') ->
  for_each body (xs ++ y :: ys) s = (Raise e, s'').
Proof.
  induction xs as [|x xs IH]; intros s s' H1 H2; simpl in *.
  - injection H1 as <-. unfold bind. by rewrite H2.
  - unfold bind in *. destruct (body x s) as [[[]|e'] s1]; [|done]. by eapply IH.
Qed.

Lemma first_exn_at fos recs : forall n rec e,
  forallb (raw_record fos) (take n recs) = true -> recs !! n = Some rec ->
  record_exn fos rec = Some e -> first_exn fos recs = Some e.
Proof.
  induction recs as [|r recs IH]; intros [|n] rec e Hraw Hn He; simplify_eq/=.
  - by rewrite He.
  - apply andb_true_iff in Hraw as [Hr Hraw].
    rewrite (record_exn_raw _ _ Hr). by eapply IH.
Qed.

Lemma first_exn_raw fos recs :
  forallb (raw_record fos) recs = true -> first_exn fos recs = None.
Proof.
  induction recs as [|r recs IH]; [done|]. simpl.
  intros [Hr Hraw]%andb_true_iff. rewrite (record_exn_raw _ _ Hr). by apply IH.
Qed.

Lemma first_rejected {A} (f : A -> bool) xs :
  forallb f xs = false ->
  exists n x, xs !! n = Some x /\ f x = false /\ forallb f (take n xs) = true.
Proof.
  induction xs as [|x xs IH]; [done|]. simpl. destruct (f x) eqn:E.
  - simpl. intros H. destruct (IH H) as (n & y & Hn & Hy & Ht).
    exists (S n), y. simpl. by rewrite E.
  - intros _. by exists 0, x.
Qed.

Theorem prepare_response_refines fos (h0 : list obj) p recs :
  tree_ok (TList recs) = true ->
  forallb (raw_record fos) recs = true ->
  stored_at h0 p (TList recs) ->
  exists hf rows,
    _prepare_response fos (VRef p) h0 = (Ok (VRef (length h0)), hf)
    /\ (forall l o, h0 !! l = Some o -> hf !! l = Some o)
    /\ hf !! length h0 = Some (OList rows)
    /\ Forall2 (rep hf) rows (map (normalize_record fos) recs)
    /\ forall i orig, roots (S p) recs !! i = Some orig ->
         exists l items a,
           rows !! i = Some (VRef l) /\ hf !! l = Some (ODict items)
           /\ alist_get "__ErgastResponse" items = Some (VRef a)
           /\ hf !! a = Some (OItem orig).
Proof.
  intros Hok Hraw Hst.
  assert (Hraw' : forallb (raw_record fos) (take (length recs) recs) = true)
    by (by rewrite firstn_all).
  destruct (loop_run fos h0 p recs (length recs) Hraw' Hst (length recs) 0
              (h0 ++ objs (length h0) (TList recs)) (le_n _) (le_n _)
              (loop_inv_start fos h0 p recs)) as (hf & Erun & Hinv & _).
  exists hf, (roots (S (length h0)) recs).
  split; [|split; [|split; [|split]]].
  - unfold _prepare_response, bind, read, ret.
    pose proof (deepcopy_stored h0 p (TList recs) Hok Hst) as Ecopy.
    cbn [root] in Ecopy. rewrite Ecopy.
    unfold py_len. rewrite objs_TList, list_lookup_middle by done.
    rewrite length_roots. rewrite <- objs_TList. by rewrite Erun.
  - intros l o. by apply (final_prefix fos h0 p recs hf).
  - by apply (loop_inv_data fos h0 p recs _ _ Hinv).
  - by apply (final_rows fos h0 p recs).
  - by apply (final_backrefs fos h0 p recs).
Qed.

(** *** What [_prepare_response] does on other input

    When some record is not a RawRecord the call raises at the first such
    record; the objects of the input are as they were. *)
Theorem prepare_response_rejects fos (h0 : list obj) p recs :
  tree_ok (TList recs) = true ->
  forallb (raw_record fos) recs = false ->
  stored_at h0 p (TList recs) ->
  exists e hf,
    first_exn fos recs = Some e
    /\ _prepare_response fos (VRef p) h0 = (Raise e, hf)
    /\ (forall l o, h0 !! l = Some o -> hf !! l = Some o).
Proof.
  intros Hok Hrej Hst.
  destruct (first_rejected _ _ Hrej) as (n & rec & Hn & Hrec & Hraw).
  assert (Hlen : n < length recs) by (by apply lookup_lt_Some in Hn).
  destruct (loop_run fos h0 p recs n Hraw Hst n 0
              (h0 ++ objs (length h0) (TList recs)) (le_n _) ltac:(lia)
              (loop_inv_start fos h0 p recs)) as (hf & Erun & Hinv & _).
  simpl in Hinv.
  destruct (prepare_row_stops fos h0 p recs n Hraw hf rec Hinv Hn Hrec)
    as (e & hc' & Hx & E & Hpre).
  exists e, hc'. split; [by apply (first_exn_at fos recs n rec)|]. split.
  - unfold _prepare_response, bind, read, ret.
    pose proof (deepcopy_stored h0 p (TList recs) Hok Hst) as Ecopy.
    cbn [root] in Ecopy. rewrite Ecopy.
    unfold py_len. rewrite objs_TList, list_lookup_middle by done.
    rewrite length_roots. rewrite <- objs_TList.
    replace (seq 0 (length recs)) with (seq 0 n ++ n :: seq (S n) (length recs - S n)).
    + by rewrite (for_each_stops _ _ _ _ _ _ _ _ Erun E).
    + replace (length recs) with (n + S (length recs - S n)) at 2 by lia.
      by rewrite seq_app.
  - intros l o Hl. rewrite Hpre by (by apply lookup_lt_Some in Hl).
    rewrite (loop_inv_prefix fos h0 p recs _ _ l Hinv); [done|].
    by apply lookup_lt_Some in Hl.
Qed.

(** The call returns exactly when every record is a RawRecord. *)
Theorem prepare_response_accepts fos (h0 : list obj) p recs :
  tree_ok (TList recs) = true ->
  stored_at h0 p (TList recs) ->
  (exists data hf, _prepare_response fos (VRef p) h0 = (Ok data, hf))
  <-> forallb (raw_record fos) recs = true.
Proof.
  intros Hok Hst. split.
  - intros (data & hf & E). destruct (forallb (raw_record fos) recs) eqn:Hraw; [done|].
    destruct (prepare_response_rejects fos h0 p recs Hok Hraw Hst)
      as (e & hf' & _ & E' & _).
    congruence.
  - intros Hraw.
    destruct (prepare_response_refines fos h0 p recs Hok Hraw Hst) as (hf & rows & E & _).
    eauto.
Qed.

(** Whatever the outcome, no object of the input store is changed. *)
Theorem prepare_response_frame fos (h0 : list obj) p recs :
  tree_ok (TList recs) = true ->
  stored_at h0 p (TList recs) ->
  forall l o, h0 !! l = Some o ->
    snd (_prepare_response fos (VRef p) h0) !! l = Some o.
Proof.
  intros Hok Hst l o Hl. destruct (forallb (raw_record fos) recs) eqn:Hraw.
  - destruct (prepare_response_refines fos h0 p recs Hok Hraw Hst)
      as (hf & rows & -> & Hpre & _). by apply Hpre.
  - destruct (prepare_response_rejects fos h0 p recs Hok Hraw Hst)
      as (e & hf & _ & -> & Hpre). by apply Hpre.
Qed.


(** ** The selector builder *)

Lemma string_app_assoc (s1 s2 s3 : string) : (s1 +:+ s2) +:+ s3 = s1 +:+ s2 +:+ s3.
Proof.
  induction s1 as [|c s1 IH]; [done|].
  change (String c ((s1 +:+ s2) +:+ s3) = String c (s1 +:+ s2 +:+ s3)). by rewrite IH.
Qed.

Lemma string_app_nil_r (s : string) : s +:+ "" = s.
Proof.
  induction s as [|c s IH]; [done|]. change (String c (s +:+ "") = String c s).
  by rewrite IH.
Qed.

Lemma string_app_nil_l (s : string) : "" +:+ s = s.
Proof. reflexivity. Qed.

Lemma append_segment (selector prefix : string) (x : option arg) :
  match x with Some a => selector +:+ prefix +:+ format_arg a | None => selector end
  = selector +:+ segment prefix x.
Proof. destruct x; simpl; [done|]. by rewrite string_app_nil_r. Qed.

(** C1. For every combination of the five optional filters, the selector
    [select] builds is the concatenation of one path segment per filter that
    is given ([/{season}], [/{round}], [/circuits/{circuit}],
    [/constructors/{constructor}], [/drivers/{driver}]) and of nothing for
    one that is not, always in that order; it is empty when all five are
    absent. *)
Theorem select_selector (season round circuit constructor driver : option arg) :
  _selector (select season round circuit constructor driver)
  = segment "/" season +:+ segment "/" round +:+ segment "/circuits/" circuit
    +:+ segment "/constructors/" constructor +:+ segment "/drivers/" driver
  /\ _selector (select None None None None None) = "".
Proof.
  split; [|reflexivity]. unfold select. cbn [_selector].
  rewrite !append_segment. by rewrite string_app_nil_l, !string_app_assoc.
Qed.

(** ** The query facade *)

Section FacadeFacts.
Variable version : string.
Variable server : list string -> string -> list (string * string) -> response.
Variable json_loads : string -> result tree.
Variable fos : string -> option pyfloat.
Variable scalars : list (option value) -> list value.

Lemma get_run url w :
  _get version server json_loads url w
  = let r := server (requests w) url (_headers version) in
    let w1 := {| store := store w; requests := requests w ++ [url];
                 warnings := warnings w |} in
    if Z.eqb (status_code r) 200 then
      match json_loads (content r) with
      | Ok t => (Ok (root (length (store w)) t),
                 {| store := store w ++ objs (length (store w)) t;
                    requests := requests w ++ [url]; warnings := warnings w |})
      | Raise exc =>
          (Raise (ErgastJsonException
                    ("Failed to parse Ergast response (" +:+ url +:+ ")") exc), w1)
      end
    else (Raise (ErgastInvalidRequest ("Invalid request to Ergast (" +:+ url +:+ ")")), w1).
Proof.
  unfold _get, bind, requests_get. cbv zeta.
  destruct (Z.eqb _ 200); [|done]. by destruct (json_loads _).
Qed.

(** The three accessors start with [_get] on their URL and let its
    exceptions through. *)
Lemma accessors_propagate self w e w' :
  (_get version server json_loads (base_url +:+ _selector self +:+ "/circuits.json") w
   = (Raise e, w') ->
   get_circuits version server json_loads fos scalars self w = (Raise e, w'))
  /\ (_get version server json_loads
        (base_url +:+ _selector self +:+ "/driverStandings.json") w
      = (Raise e, w') ->
      get_driver_standings version server json_loads fos scalars self w = (Raise e, w'))
  /\ (_get version server json_loads
        (base_url +:+ _selector self +:+ "/constructorStandings.json") w
      = (Raise e, w') ->
      get_constructor_standings version server json_loads fos scalars self w = (Raise e, w')).
Proof.
  unfold get_circuits, get_driver_standings, get_constructor_standings.
  cbv zeta. repeat split; intros E; unfold bind; by rewrite E.
Qed.
End FacadeFacts.

(** C6. A request through [_get] ends in exactly one of three ways,
    decided by the answer [r] of the HTTP collaborator: status 200 and a
    payload that decodes gives the decoded document; status 200 and a
    payload that does not decode raises [ErgastJsonException] with the URL in
    its message (and the decoding error as its cause); any other status
    raises [ErgastInvalidRequest] with the URL in its message.  In each case
    exactly one request was made: nothing is retried. *)
Theorem get_outcomes version server json_loads url w :
  let r := server (requests w) url (_headers version) in
  let res := fst (_get version server json_loads url w) in
  let w' := snd (_get version server json_loads url w) in
  requests w' = requests w ++ [url]
  /\ warnings w' = warnings w
  /\ (forall t, status_code r = 200%Z -> json_loads (content r) = Ok t ->
        exists v, res = Ok v /\ rep (store w') v t
                  /\ forall l o, store w !! l = Some o -> store w' !! l = Some o)
  /\ (forall exc, status_code r = 200%Z -> json_loads (content r) = Raise exc ->
        res = Raise (ErgastJsonException
                       ("Failed to parse Ergast response (" +:+ url +:+ ")") exc)
        /\ store w' = store w)
  /\ (status_code r <> 200%Z ->
        res = Raise (ErgastInvalidRequest ("Invalid request to Ergast (" +:+ url +:+ ")"))
        /\ store w' = store w).
Proof.
  intros r res w'. subst res w'. rewrite get_run. cbv zeta. fold r.
  destruct (Z.eqb (status_code r) 200) eqn:E.
  - apply Z.eqb_eq in E. destruct (json_loads (content r)) as [t|exc]; simpl;
      (split; [done|]; split; [done|]; split; [|split]); try done.
    + intros t' _ [= <-]. eexists. split; [done|]. split.
      * apply rep_stored, stored_at_alloc.
      * intros l o Hl. by apply lookup_app_l_Some.
    + by intros exc' _ [= <-].
  - apply Z.eqb_neq in E. simpl.
    (split; [done|]; split; [done|]; split; [|split]); done.
Qed.

Lemma getitem_str_stored h q kvs k t :
  stored_at h q (TDict kvs) -> alist_get k kvs = Some t ->
  exists q', getitem_str h (VRef q) k = Ok (root q' t) /\ stored_at h q' t.
Proof.
  intros Hst Hk. apply stored_at_TDict in Hst as [Hq Hst]. simpl. rewrite Hq.
  pose proof (dict_items_lookup kvs k (S q)) as Hl. rewrite Hk in Hl.
  destruct Hl as (q' & -> & _ & Hs). exists q'. split; [done|]. by apply Hs.
Qed.

Lemma tree_path_cons t k ks t' :
  tree_path t (k :: ks) = Some t' ->
  exists kvs t1, t = TDict kvs /\ alist_get k kvs = Some t1 /\ tree_path t1 ks = Some t'.
Proof.
  simpl. destruct t as [ | | | | | |kvs| ]; try done.
  destruct (alist_get k kvs) as [t1|] eqn:E; [|done]. eauto.
Qed.

Lemma standings_lists_empty h q t :
  stored_at h q t ->
  tree_path t ["MRData"; "StandingsTable"; "StandingsLists"] = Some (TList []) ->
  exists v1 v2 v3,
    getitem_str h (root q t) "MRData" = Ok v1
    /\ getitem_str h v1 "StandingsTable" = Ok v2
    /\ getitem_str h v2 "StandingsLists" = Ok v3
    /\ getitem_int h v3 0 = Raise IndexError.
Proof.
  intros Hst Hp.
  apply tree_path_cons in Hp as (kvs1 & t1 & -> & E1 & Hp).
  apply tree_path_cons in Hp as (kvs2 & t2 & -> & E2 & Hp).
  apply tree_path_cons in Hp as (kvs3 & t3 & -> & E3 & [= ->]).
  destruct (getitem_str_stored _ _ _ _ _ Hst E1) as (q1 & G1 & S1).
  destruct (getitem_str_stored _ _ _ _ _ S1 E2) as (q2 & G2 & S2).
  destruct (getitem_str_stored _ _ _ _ _ S2 E3) as (q3 & G3 & S3).
  exists (VRef q1), (VRef q2), (VRef q3). repeat split; try done.
  apply stored_at_TList in S3 as [S3 _]. simpl. by rewrite S3.
Qed.

Section SessionResults.
Variable version : string.
Variable server : list string -> string -> list (string * string) -> response.
Variable json_loads : string -> result tree.

Lemma session_locals_other session :
  session <> "Race" -> session <> "Qualifying" ->
  session <> "Sprint" -> session <> "Sprint Qualifying" ->
  session_locals session = (None, None).
Proof.
  intros H1 H2 H3 H4. unfold session_locals.
  apply String.eqb_neq in H1, H2, H3, H4. by rewrite H1, H2, H3, H4.
Qed.
End SessionResults.

(** C9 (as amended). [fetch_results] turns ['Race'] into the day
    ['results'] and the key ['Results'], ['Qualifying'] into ['qualifying']
    and ['QualifyingResults'], ['Sprint'] and ['Sprint Qualifying'] into
    ['sprint'] and ['SprintResults'].  Any other token leaves the local
    [day] unbound, and the call fails with [UnboundLocalError] before a
    request is made: the module has no error of its own for it. *)
Theorem fetch_results_sessions version server json_loads year gp w :
  fetch_results version server json_loads year gp "Race" w
  = results_of_day version server json_loads year gp "results" "Results" w
  /\ fetch_results version server json_loads year gp "Qualifying" w
     = results_of_day version server json_loads year gp "qualifying" "QualifyingResults" w
  /\ fetch_results version server json_loads year gp "Sprint" w
     = results_of_day version server json_loads year gp "sprint" "SprintResults" w
  /\ fetch_results version server json_loads year gp "Sprint Qualifying" w
     = results_of_day version server json_loads year gp "sprint" "SprintResults" w
  /\ forall session,
       session <> "Race" -> session <> "Qualifying" ->
       session <> "Sprint" -> session <> "Sprint Qualifying" ->
       fetch_results version server json_loads year gp session w
       = (Raise UnboundLocalError, w).
Proof.
  repeat split; try reflexivity.
  intros session H1 H2 H3 H4. unfold fetch_results.
  by rewrite session_locals_other.
Qed.

(** C9, the claim as stated fails: an unrecognised token raises the built-in
    [UnboundLocalError], which is none of the module's exception classes. *)
Lemma fetch_results_unrecognised_session :
  fetch_results "3.1" (constant_server {| status_code := 200; content := "" |})
    decode_fails (AInt 2021) (AInt 1) "Practice 1" empty_world
  = (Raise UnboundLocalError, empty_world)
  /\ is_ErgastException UnboundLocalError = false.
Proof. split; reflexivity. Qed.

Section SeasonFetch.
Variable version : string.
Variable server : list string -> string -> list (string * string) -> response.
Variable json_loads : string -> result tree.

(** On a status other than 200 [_parse_json_response] warns and returns
    [None]; [fetch_day] hands that [None] to its caller. *)
Lemma fetch_day_not_200 year gp day w :
  let url := base_url +:+ "/" +:+ format_arg year +:+ "/" +:+ format_arg gp
             +:+ "/" +:+ day +:+ ".json" in
  let r := server (requests w) url (_headers version) in
  status_code r <> 200%Z ->
  fetch_day version server json_loads year gp day w
  = (Ok VNone,
     {| store := store w; requests := requests w ++ [url];
        warnings := warnings w
                    ++ ["Request returned: " +:+ format_arg (AInt (status_code r))] |}).
Proof.
  intros url r Hr. unfold fetch_day, bind, requests_get, _parse_json_response.
  fold url. cbn [requests store warnings]. fold r.
  apply Z.eqb_neq in Hr. by rewrite Hr.
Qed.

(** [fetch_season] subscripts that [None]: the call warns and then raises
    [TypeError]. *)
Lemma fetch_season_not_200 year w :
  let url := base_url +:+ "/" +:+ format_arg year +:+ ".json" in
  let r := server (requests w) url (_headers version) in
  status_code r <> 200%Z ->
  fetch_season version server json_loads year w
  = (Raise TypeError,
     {| store := store w; requests := requests w ++ [url];
        warnings := warnings w
                    ++ ["Request returned: " +:+ format_arg (AInt (status_code r))] |}).
Proof.
  intros url r Hr. unfold fetch_season, bind, requests_get, _parse_json_response.
  fold url. cbn [requests store warnings]. fold r.
  apply Z.eqb_neq in Hr. by rewrite Hr.
Qed.
End SeasonFetch.

(** C8, the code at the failing input: on a 404 [fetch_season(2021)] emits
    the warning and then raises [TypeError] instead of returning. *)
Lemma fetch_season_404_raises :
  fetch_season "3.1" (constant_server {| status_code := 404; content := "" |})
    decode_fails (AInt 2021) empty_world
  = (Raise TypeError,
     {| store := [];
        requests := ["https://ergast.com/api/f1/2021.json"];
        warnings := ["Request returned: 404"] |}).
Proof. reflexivity. Qed.

Section Standings.
Variable version : string.
Variable server : list string -> string -> list (string * string) -> response.
Variable json_loads : string -> result tree.
Variable fos : string -> option pyfloat.

Lemma standings_run (rest : value -> M world ErgastResultFrame) url w t :
  status_code (server (requests w) url (_headers version)) = 200%Z ->
  json_loads (content (server (requests w) url (_headers version))) = Ok t ->
  tree_path t ["MRData"; "StandingsTable"; "StandingsLists"] = Some (TList []) ->
  (do r <- _get version server json_loads url;
   do r <- subscript_str r "MRData";
   do r <- subscript_str r "StandingsTable";
   do r <- subscript_str r "StandingsLists";
   do r <- subscript_int r 0;
   rest r) w
  = (Raise IndexError,
     {| store := store w ++ objs (length (store w)) t;
        requests := requests w ++ [url]; warnings := warnings w |}).
Proof.
  intros Hs Hj Hp. unfold bind at 1. rewrite get_run. cbv zeta. rewrite Hs, Hj. simpl.
  destruct (standings_lists_empty _ _ _ (stored_at_alloc (store w) t) Hp)
    as (v1 & v2 & v3 & G1 & G2 & G3 & G4).
  unfold bind, subscript_str, subscript_int, read. cbn [store].
  by rewrite G1, G2, G3, G4.
Qed.
End Standings.

(** C7 (as amended). When the decoded response has an empty
    [StandingsTable.StandingsLists], [get_driver_standings] and
    [get_constructor_standings] fail at the subscript [[0]] with the built-in
    [IndexError]; the decoded document stays in the store and one request was
    made. *)
Theorem standings_empty_raises_IndexError version server json_loads fos scalars self w :
  (forall t,
     let url := base_url +:+ _selector self +:+ "/driverStandings.json" in
     let r := server (requests w) url (_headers version) in
     status_code r = 200%Z -> json_loads (content r) = Ok t ->
     tree_path t ["MRData"; "StandingsTable"; "StandingsLists"] = Some (TList []) ->
     fst (get_driver_standings version server json_loads fos scalars self w)
     = Raise IndexError)
  /\ (forall t,
     let url := base_url +:+ _selector self +:+ "/constructorStandings.json" in
     let r := server (requests w) url (_headers version) in
     status_code r = 200%Z -> json_loads (content r) = Ok t ->
     tree_path t ["MRData"; "StandingsTable"; "StandingsLists"] = Some (TList []) ->
     fst (get_constructor_standings version server json_loads fos scalars self w)
     = Raise IndexError).
Proof.
  split; intros t url r Hs Hj Hp.
  - unfold get_driver_standings. fold url. by erewrite standings_run.
  - unfold get_constructor_standings. fold url. by erewrite standings_run.
Qed.

(** C7, the claim as stated fails: with [StandingsLists: []] both accessors
    raise [IndexError], which is none of the module's exception classes. *)
Lemma standings_empty_not_a_module_error :
  let doc := TDict [("MRData", TDict [("StandingsTable",
                      TDict [("StandingsLists", TList [])])])] in
  let server := constant_server {| status_code := 200; content := "" |} in
  fst (get_driver_standings "3.1" server (decode_as doc) float_of_digits scalars_as_given
         {| _selector := "/2099/1" |} empty_world) = Raise IndexError
  /\ fst (get_constructor_standings "3.1" server (decode_as doc) float_of_digits scalars_as_given
            {| _selector := "/2099/1" |} empty_world) = Raise IndexError
  /\ is_ErgastException IndexError = false.
Proof. repeat split; reflexivity. Qed.

(** ** Entries of a normalised record *)

Lemma alist_remove_absent {V} k (d : list (string * V)) :
  alist_get k d = None -> alist_remove k d = d.
Proof.
  induction d as [|[k' v] d IH]; simpl; [done|].
  destruct (String.eqb k k'); [done|]. intros H. by rewrite IH.
Qed.

Lemma alist_get_norm_constructors kvs k :
  k <> "Constructors" -> alist_get k (norm_constructors kvs) = alist_get k kvs.
Proof.
  intros H1. unfold norm_constructors.
  destruct (alist_get "Constructors" kvs) as [c|]; [destruct (tree_truthy c)|];
    rewrite ?alist_get_update_notin; try by apply alist_get_remove_ne.
  simpl. apply String.eqb_neq in H1. by rewrite H1.
Qed.

Lemma alist_get_norm_location fos kvs k :
  k <> "Location" -> k <> "Lat" -> k <> "Long" -> k <> "Locality" -> k <> "Country" ->
  alist_get k (norm_location fos kvs) = alist_get k kvs.
Proof.
  intros H1 H2 H3 H4 H5. unfold norm_location.
  destruct (alist_get "Location" kvs) as [c|]; [destruct (tree_truthy c)|];
    rewrite ?alist_get_update_notin; try by apply alist_get_remove_ne.
  simpl. apply String.eqb_neq in H2, H3, H4, H5. by rewrite H2, H3, H4, H5.
Qed.




Lemma norm_driver_present kvs drv :
  alist_get "Driver" kvs = Some drv -> tree_truthy drv = true ->
  alist_get "Driver" (norm_driver kvs) = Some (tree_field drv "code" (TStr ""))
  /\ alist_get "DriverNumber" (norm_driver kvs)
     = Some (tree_field drv "permanentNumber" (TStr "")).
Proof.
  intros H Ht. unfold norm_driver. rewrite H, Ht. unfold alist_update. simpl. split.
  - rewrite alist_get_set_ne by done. apply alist_get_set_eq.
  - apply alist_get_set_eq.
Qed.

Lemma norm_driver_falsy kvs drv :
  alist_get "Driver" kvs = Some drv -> tree_truthy drv = false ->
  alist_get "Driver" (norm_driver kvs) = None.
Proof.
  intros H Ht. unfold norm_driver. rewrite H, Ht. apply alist_get_remove_eq.
Qed.

Lemma norm_location_present fos kvs loc :
  alist_get "Location" kvs = Some loc -> tree_truthy loc = true ->
  let row := norm_location fos kvs in
  alist_get "Location" row = None
  /\ alist_get "Lat" row = Some (TFloat (tree_float fos (tree_field loc "lat" (TInt 0))))
  /\ alist_get "Long" row = Some (TFloat (tree_float fos (tree_field loc "long" (TInt 0))))
  /\ alist_get "Locality" row = Some (tree_field loc "locality" (TStr ""))
  /\ alist_get "Country" row = Some (tree_field loc "country" (TStr "")).
Proof.
  intros H Ht row. subst row. unfold norm_location. rewrite H, Ht.
  unfold alist_update. simpl. repeat split.
  - rewrite !alist_get_set_ne by done. apply alist_get_remove_eq.
  - rewrite !alist_get_set_ne by done. apply alist_get_set_eq.
  - rewrite !alist_get_set_ne by done. apply alist_get_set_eq.
  - rewrite !alist_get_set_ne by done. apply alist_get_set_eq.
  - apply alist_get_set_eq.
Qed.

(** The entries of a row other than the hidden one. *)
Lemma normalize_record_get fos kvs k :
  k <> "__ErgastResponse" ->
  exists row,
    normalize_record fos (TDict kvs) = TDict row
    /\ alist_get k row
       = alist_get k (norm_location fos (norm_constructors (norm_driver kvs)))
    /\ alist_get "__ErgastResponse" row = Some (TItem (TDict kvs)).
Proof.
  intros Hk. eexists. split; [reflexivity|]. split.
  - by apply alist_get_set_ne.
  - apply alist_get_set_eq.
Qed.

(** ** The table [_prepare_response] returns *)

Lemma prepare_response_table fos (h : list obj) p recs :
  tree_ok (TList recs) = true ->
  forallb (raw_record fos) recs = true ->
  stored_at h p (TList recs) ->
  exists h',
    _prepare_response fos (VRef p) h = (Ok (VRef (length h)), h')
    /\ rep h' (VRef (length h)) (TList (map (normalize_record fos) recs))
    /\ forall l o, h !! l = Some o -> h' !! l = Some o.
Proof.
  intros Hok Hraw Hst.
  destruct (prepare_response_refines fos h p recs Hok Hraw Hst)
    as (hf & rows & E & Hpre & Hrows & Hrep & _).
  exists hf. split; [done|]. split; [|done]. by apply (rep_list _ _ _ _ Hrows).
Qed.

Lemma raw_record_lookup fos recs i rec :
  forallb (raw_record fos) recs = true -> recs !! i = Some rec ->
  raw_record fos rec = true.
Proof.
  intros H Hi. rewrite forallb_forall in H. apply H, list_elem_of_In.
  by eapply list_elem_of_lookup_2.
Qed.

(** C2. For every stored sequence of RawRecords, [_prepare_response]
    returns a table with exactly as many rows as there are records, and row
    [i] is the normalised record [i] (with record [i] itself attached): the
    order of the input is kept. *)
Theorem prepare_response_rows fos (h : list obj) p recs :
  tree_ok (TList recs) = true ->
  forallb (raw_record fos) recs = true ->
  stored_at h p (TList recs) ->
  exists data h' rows,
    _prepare_response fos (VRef p) h = (Ok data, h')
    /\ rep h' data (TList rows)
    /\ length rows = length recs
    /\ forall i rec, recs !! i = Some rec -> rows !! i = Some (normalize_record fos rec).
Proof.
  intros Hok Hraw Hst.
  destruct (prepare_response_table fos h p recs Hok Hraw Hst) as (h' & E & Hrep & _).
  exists (VRef (length h)), h', (map (normalize_record fos) recs).
  split; [done|]. split; [done|]. split; [by rewrite length_map|].
  intros i rec Hi. by rewrite list_lookup_fmap, Hi.
Qed.

(** C3 (as amended). For every RawRecord with a non-empty [Driver]
    mapping, the row has the column [Driver] equal to the mapping's [code]
    and the column [DriverNumber] equal to its [permanentNumber], each the
    empty string when the mapping lacks the field; the mapping itself is no
    longer in the row. *)
Theorem driver_columns fos (h : list obj) p recs i kvs drv :
  tree_ok (TList recs) = true ->
  forallb (raw_record fos) recs = true ->
  stored_at h p (TList recs) ->
  recs !! i = Some (TDict kvs) ->
  alist_get "Driver" kvs = Some (TDict drv) -> drv <> [] ->
  exists data h' rows row,
    _prepare_response fos (VRef p) h = (Ok data, h')
    /\ rep h' data (TList rows)
    /\ rows !! i = Some (TDict row)
    /\ alist_get "Driver" row
       = Some (match alist_get "code" drv with Some c => c | None => TStr "" end)
    /\ alist_get "DriverNumber" row
       = Some (match alist_get "permanentNumber" drv with Some n => n | None => TStr "" end).
Proof.
  intros Hok Hraw Hst Hi Hd Hne.
  destruct (prepare_response_table fos h p recs Hok Hraw Hst) as (h' & E & Hrep & _).
  destruct (normalize_record_get fos kvs "Driver") as (row & Er & E1 & _); [done|].
  destruct (normalize_record_get fos kvs "DriverNumber") as (row' & Er' & E2 & _); [done|].
  rewrite Er in Er'. injection Er' as <-.
  exists (VRef (length h)), h', (map (normalize_record fos) recs), row.
  split; [done|]. split; [done|]. split; [by rewrite list_lookup_fmap, Hi, <- Er|].
  rewrite alist_get_norm_location, alist_get_norm_constructors in E1, E2 by done.
  destruct (norm_driver_present kvs (TDict drv) Hd) as [D1 D2].
  { by destruct drv. }
  by rewrite E1, E2.
Qed.

(** C4 (as amended). For every RawRecord with a non-empty [Location]
    mapping, the row has no [Location] entry any more and has the columns
    [Lat] and [Long], the [float] of the mapping's [lat] and [long] and 0.0
    when the field is missing, and [Locality] and [Country], the empty string
    when the field is missing. *)
Theorem location_columns fos (h : list obj) p recs i kvs loc :
  tree_ok (TList recs) = true ->
  forallb (raw_record fos) recs = true ->
  stored_at h p (TList recs) ->
  recs !! i = Some (TDict kvs) ->
  alist_get "Location" kvs = Some (TDict loc) -> loc <> [] ->
  exists data h' rows row lat long,
    _prepare_response fos (VRef p) h = (Ok data, h')
    /\ rep h' data (TList rows)
    /\ rows !! i = Some (TDict row)
    /\ alist_get "Location" row = None
    /\ float_of_tree fos (match alist_get "lat" loc with Some x => x | None => TInt 0 end)
       = Ok lat
    /\ float_of_tree fos (match alist_get "long" loc with Some x => x | None => TInt 0 end)
       = Ok long
    /\ alist_get "Lat" row = Some (TFloat lat)
    /\ alist_get "Long" row = Some (TFloat long)
    /\ (alist_get "lat" loc = None -> lat = float_zero)
    /\ (alist_get "long" loc = None -> long = float_zero)
    /\ alist_get "Locality" row
       = Some (match alist_get "locality" loc with Some x => x | None => TStr "" end)
    /\ alist_get "Country" row
       = Some (match alist_get "country" loc with Some x => x | None => TStr "" end).
Proof.
  intros Hok Hraw Hst Hi Hl Hne.
  destruct (prepare_response_table fos h p recs Hok Hraw Hst) as (h' & E & Hrep & _).
  assert (Ht : tree_truthy (TDict loc) = true) by (by destruct loc).
  pose proof (raw_record_lookup _ _ _ _ Hraw Hi) as Hr. simpl in Hr.
  apply andb_true_iff in Hr as [_ Hr]. rewrite Hl in Hr. simpl in Hr.
  unfold location_ok in Hr. rewrite Ht in Hr. simpl in Hr.
  apply andb_true_iff in Hr as [Hlat Hlong]. unfold float_ok in Hlat, Hlong.
  destruct (float_of_tree fos (match alist_get "lat" loc with Some x => x | None => TInt 0 end))
    as [lat|] eqn:Elat; [|done].
  destruct (float_of_tree fos (match alist_get "long" loc with Some x => x | None => TInt 0 end))
    as [long|] eqn:Elong; [|done].
  assert (Hget : forall k, k <> "__ErgastResponse" ->
            alist_get k (alist_set "__ErgastResponse" (TItem (TDict kvs))
                           (norm_location fos (norm_constructors (norm_driver kvs))))
            = alist_get k (norm_location fos (norm_constructors (norm_driver kvs)))).
  { intros k Hk. by apply alist_get_set_ne. }
  destruct (norm_location_present fos (norm_constructors (norm_driver kvs)) (TDict loc))
    as (L0 & L1 & L2 & L3 & L4); [|done|].
  { by rewrite alist_get_norm_constructors, alist_get_norm_driver. }
  exists (VRef (length h)), h', (map (normalize_record fos) recs),
    (alist_set "__ErgastResponse" (TItem (TDict kvs))
       (norm_location fos (norm_constructors (norm_driver kvs)))), lat, long.
  split; [done|]. split; [done|]. split; [by rewrite list_lookup_fmap, Hi|].
  rewrite !Hget by done. rewrite L0, L1, L2, L3, L4.
  unfold tree_float, float_or_zero. simpl tree_field.
  unfold float_of_tree in Elat, Elong. rewrite Elat, Elong.
  repeat split; try done.
  - intros Hn. rewrite Hn in Elat. by injection Elat as <-.
  - intros Hn. rewrite Hn in Elong. by injection Elong as <-.
Qed.

(** C10. Normalisation does not change its input: [_prepare_response]
    returns exactly on the sequences of RawRecords, and after the call
    (also when it raises on other input) every object that was in the store
    is as it was, so the input list, its records and everything nested in
    them are unchanged and still denote the same document. *)
Theorem prepare_response_leaves_input fos (h : list obj) p recs :
  tree_ok (TList recs) = true ->
  stored_at h p (TList recs) ->
  let out := _prepare_response fos (VRef p) h in
  ((exists data, fst out = Ok data) <-> forallb (raw_record fos) recs = true)
  /\ (forall l o, h !! l = Some o -> snd out !! l = Some o)
  /\ take (length h) (snd out) = h
  /\ stored_at (snd out) p (TList recs)
  /\ rep (snd out) (VRef p) (TList recs).
Proof.
  intros Hok Hst out.
  pose proof (prepare_response_frame fos h p recs Hok Hst) as Hpre. fold out in Hpre.
  assert (Hs : stored_at (snd out) p (TList recs)).
  { intros j o Hj. by apply Hpre, Hst. }
  split; [|split; [done|split; [|split; [done|]]]].
  - rewrite <- (prepare_response_accepts fos h p recs Hok Hst). fold out. split.
    + intros [data E]. exists data, (snd out). rewrite <- E. by destruct out.
    + intros (data & hf & E). exists data. by rewrite E.
  - apply list_eq. intros l. destruct (decide (l < length h)) as [Hl|Hl].
    + rewrite lookup_take_lt by done.
      destruct (lookup_lt_is_Some_2 h l Hl) as [o Ho]. rewrite Ho. by apply Hpre.
    + rewrite lookup_take_ge by lia. symmetry. apply lookup_ge_None. lia.
  - by apply (rep_stored (TList recs)).
Qed.

(** ** The frame and its back-references *)

Lemma map_result_map {A B} (f : A -> result B) (g : A -> B) xs :
  Forall (fun x => f x = Ok (g x)) xs -> map_result f xs = Ok (map g xs).
Proof. induction 1 as [|x xs Hx _ IH]; simpl; [done|]. by rewrite Hx, IH. Qed.

Lemma map_result_Forall2 {A B} (f : A -> result B) xs ys :
  Forall2 (fun x y => f x = Ok y) xs ys -> map_result f xs = Ok ys.
Proof. induction 1 as [|x y xs ys Hx _ IH]; simpl; [done|]. by rewrite Hx, IH. Qed.

(** *** The cells of a frame *)

Lemma in_fold_add_label ks : forall acc c,
  In c (fold_left add_label ks acc) <-> In c acc \/ In c ks.
Proof.
  induction ks as [|k ks IH]; intros acc c; simpl; [tauto|].
  rewrite IH. unfold add_label.
  destruct (existsb (String.eqb k) acc) eqn:E.
  - apply existsb_exists in E as (x & Hx & Ex). apply String.eqb_eq in Ex as <-.
    split; [tauto|]. intros [H|[<-|H]]; tauto.
  - rewrite in_app_iff. simpl. tauto.
Qed.

Lemma in_labels keys c : In c (labels keys) <-> exists ks, In ks keys /\ In c ks.
Proof.
  unfold labels. rewrite in_fold_add_label, in_concat. simpl. split.
  - intros [[]|(ks & H1 & H2)]. by exists ks.
  - intros (ks & H1 & H2). right. by exists ks.
Qed.

Lemma alist_get_labelled {V} (f : string -> V) cols c :
  In c cols -> alist_get c (map (fun c => (c, f c)) cols) = Some (f c).
Proof.
  induction cols as [|c' cols IH]; simpl; [done|].
  destruct (String.eqb c c') eqn:E; [by apply String.eqb_eq in E as ->|].
  intros [->|H]; [by rewrite String.eqb_refl in E|by apply IH].
Qed.

Lemma alist_get_key {V} k (d : list (string * V)) v :
  alist_get k d = Some v -> In k (map fst d).
Proof.
  induction d as [|[k' v'] d IH]; simpl; [done|].
  destruct (String.eqb k k') eqn:E; [apply String.eqb_eq in E; auto|auto].
Qed.

Lemma length_frame_rows scalars dicts :
  length (frame_rows (frame_of_dicts scalars dicts)) = length dicts.
Proof. unfold frame_of_dicts. cbn [frame_rows]. by rewrite length_map, length_seq. Qed.

Lemma frame_rows_labels scalars dicts :
  Forall (fun row => map fst row = labels (map (map fst) dicts))
    (frame_rows (frame_of_dicts scalars dicts)).
Proof.
  unfold frame_of_dicts. cbn [frame_rows]. apply Forall_map, Forall_forall.
  intros i _. simpl. rewrite map_map. simpl. apply map_id.
Qed.

(** A column in which every dictionary gives an object holds these very
    objects. *)
Lemma frame_object_column scalars dicts c vs :
  Forall2 (fun d v => is_object (Some v) = true /\ alist_get c d = Some v) dicts vs ->
  Forall2 (fun row v => alist_get c row = Some v)
    (frame_rows (frame_of_dicts scalars dicts)) vs.
Proof.
  intros HF. pose proof (Forall2_length _ _ _ HF) as Hlen.
  apply Forall2_same_length_lookup_2; [by rewrite length_frame_rows|].
  intros i row v Hrow Hv.
  destruct (lookup_lt_is_Some_2 dicts i) as [d Hd].
  { rewrite Hlen. by apply lookup_lt_Some in Hv. }
  unfold frame_of_dicts in Hrow. cbn [frame_rows] in Hrow.
  rewrite list_lookup_fmap in Hrow.
  assert (Hi : seq 0 (length dicts) !! i = Some i).
  { apply lookup_seq. split; [done|]. by apply lookup_lt_Some in Hd. }
  rewrite Hi in Hrow. injection Hrow as <-.
  destruct (Forall2_lookup_lr _ _ _ _ _ _ HF Hd Hv) as [Hobj Hc].
  rewrite (alist_get_labelled (fun c => nth i (column_cells scalars dicts c) nan)).
  2: { apply in_labels. exists (map fst d). split.
       - apply in_map. by apply list_elem_of_In, list_elem_of_lookup_2 with i.
       - by apply alist_get_key with v. }
  f_equal. unfold column_cells.
  assert (Eg : map (alist_get c) dicts = map Some vs).
  { apply list_eq. intros j. rewrite !list_lookup_fmap.
    destruct (dicts !! j) as [dj|] eqn:Hj.
    - destruct (Forall2_lookup_l _ _ _ _ _ HF Hj) as (vj & Hvj & _ & Hcj).
      rewrite Hvj. simpl. by rewrite Hcj.
    - apply lookup_ge_None in Hj. rewrite Hlen in Hj.
      apply lookup_ge_None in Hj. by rewrite Hj. }
  rewrite Eg.
  assert (existsb is_object (map Some vs) = true) as ->.
  { apply existsb_exists. exists (Some v). split; [|done].
    apply in_map. by apply list_elem_of_In, list_elem_of_lookup_2 with i. }
  rewrite map_map. simpl. rewrite map_id.
  apply nth_lookup_Some with (d := nan) in Hv. done.
Qed.

Lemma get_ergast_response_rows hf rows originals :
  Forall2 (fun items orig => exists a,
             alist_get "__ErgastResponse" items = Some (VRef a)
             /\ hf !! a = Some (OItem orig)) rows originals ->
  get_ergast_response hf {| frame_rows := rows |}
  = Ok (match rows with [] => None | _ => Some originals end).
Proof.
  intros HF. unfold get_ergast_response. cbn [frame_rows].
  destruct HF as [|items orig rows originals (a & Ea & Ei) HF]; [done|].
  assert (existsb (alist_mem "__ErgastResponse") (items :: rows) = true) as ->.
  { simpl. unfold alist_mem at 1. by rewrite Ea. }
  rewrite (map_result_Forall2 _ _ (orig :: originals)); [done|].
  constructor.
  - rewrite Ea. simpl. by rewrite Ei.
  - eapply Forall2_impl; [exact HF|]. intros its o (a' & Ea' & Ei').
    rewrite Ea'. simpl. by rewrite Ei'.
Qed.

Lemma items_rep_keys h its kvs : items_rep h its kvs -> map fst its = map fst kvs.
Proof. induction 1 as [|kv kt its kvs [Hk _] _ IH]; simpl; [done|]. by rewrite Hk, IH. Qed.

(** The frame of a stored sequence of RawRecords: the table that
    [_prepare_response] returns, and what the frame has of it. *)
Lemma frame_new_run fos scalars w p recs :
  tree_ok (TList recs) = true ->
  forallb (raw_record fos) recs = true ->
  stored_at (store w) p (TList recs) ->
  exists data frame hf rows,
    _prepare_response fos (VRef p) (store w) = (Ok data, hf)
    /\ ErgastResultFrame_new fos scalars VNone (VRef p) w
       = (Ok frame, {| store := hf; requests := requests w; warnings := warnings w |})
    /\ (forall l o, store w !! l = Some o -> hf !! l = Some o)
    /\ data = VRef (length (store w))
    /\ hf !! length (store w) = Some (OList rows)
    /\ Forall2 (rep hf) rows (map (normalize_record fos) recs)
    /\ length (frame_rows frame) = length recs
    /\ Forall (fun row =>
                 map fst row
                 = labels (map (fun rec => tree_keys (normalize_record fos rec)) recs))
         (frame_rows frame)
    /\ Forall2 (fun items orig => exists a,
                  alist_get "__ErgastResponse" items = Some (VRef a)
                  /\ hf !! a = Some (OItem orig))
         (frame_rows frame) (roots (S p) recs).
Proof.
  intros Hok Hraw Hst.
  destruct (prepare_response_refines fos (store w) p recs Hok Hraw Hst)
    as (hf & rows & E & Hpre & Hrows & Hrep & Hback).
  assert (Hlen : length rows = length recs).
  { by rewrite (Forall2_length _ _ _ Hrep), length_map. }
  assert (Hrow : forall i x, rows !! i = Some x ->
            exists l items a orig,
              x = VRef l /\ hf !! l = Some (ODict items)
              /\ roots (S p) recs !! i = Some orig
              /\ alist_get "__ErgastResponse" items = Some (VRef a)
              /\ hf !! a = Some (OItem orig)).
  { intros i x Hx. destruct (lookup_lt_is_Some_2 (roots (S p) recs) i) as [orig Ho].
    { rewrite length_roots, <- Hlen. by apply lookup_lt_Some in Hx. }
    destruct (Hback i orig Ho) as (l & items & a & E1 & E2 & E3 & E4).
    rewrite Hx in E1. injection E1 as ->. by exists l, items, a, orig. }
  set (dicts := map (items_of hf) rows).
  assert (Hdicts : length dicts = length recs) by (by unfold dicts; rewrite length_map).
  exists (VRef (length (store w))), (frame_of_dicts scalars dicts), hf, rows.
  split; [done|]. split; [|split; [done|split; [done|split; [done|split; [done|]]]]].
  - unfold ErgastResultFrame_new, bind, lift_store, read. rewrite E. cbn [store].
    unfold DataFrame. rewrite Hrows.
    rewrite (map_result_map _ (items_of hf)); [done|].
    apply Forall_lookup_2. intros i x Hx.
    destruct (Hrow i x Hx) as (l & items & a & orig & -> & El & _). simpl. by rewrite El.
  - split; [by rewrite length_frame_rows|]. split.
    + assert (Ek : map (map fst) dicts
                   = map (fun rec => tree_keys (normalize_record fos rec)) recs).
      { apply list_eq. intros i. unfold dicts. rewrite !list_lookup_fmap.
        destruct (rows !! i) as [x|] eqn:Hx.
        - destruct (Hrow i x Hx) as (l & items & a & orig & -> & El & _).
          destruct (Forall2_lookup_l _ _ _ _ _ Hrep Hx) as (t & Ht & Hr).
          rewrite list_lookup_fmap in Ht.
          destruct (recs !! i) as [rec|] eqn:Hi; [|done]. injection Ht as <-.
          simpl. rewrite El. apply rep_inv in Hr. rewrite El in Hr.
          destruct Hr as (kvs & -> & Hr). simpl. by rewrite (items_rep_keys _ _ _ Hr).
        - apply lookup_ge_None in Hx. rewrite Hlen in Hx.
          by apply lookup_ge_None in Hx as ->. }
      rewrite <- Ek. apply frame_rows_labels.
    + set (vs := map (fun x => default VNone
                                 (alist_get "__ErgastResponse" (items_of hf x))) rows).
      assert (HF : Forall2 (fun row v => alist_get "__ErgastResponse" row = Some v)
                     (frame_rows (frame_of_dicts scalars dicts)) vs).
      { apply frame_object_column.
        apply Forall2_same_length_lookup_2; [by unfold dicts, vs; rewrite !length_map|].
        intros i d v Hd Hv. unfold dicts in Hd. unfold vs in Hv.
        rewrite list_lookup_fmap in Hd. rewrite list_lookup_fmap in Hv.
        destruct (rows !! i) as [x|] eqn:Hx; [|done].
        injection Hd as <-. injection Hv as <-.
        destruct (Hrow i x Hx) as (l & items & a & orig & -> & El & _ & Ea & _).
        simpl. by rewrite El, Ea. }
      apply Forall2_same_length_lookup_2; [by rewrite length_frame_rows, length_roots|].
      intros i row orig Hi Ho.
      destruct (Forall2_lookup_l _ _ _ _ _ HF Hi) as (v & Hv & Hget).
      unfold vs in Hv. rewrite list_lookup_fmap in Hv.
      destruct (rows !! i) as [x|] eqn:Hx; [|done]. injection Hv as <-.
      destruct (Hrow i x Hx) as (l & items & a & orig' & -> & El & Eo & Ea & Eitem).
      rewrite Eo in Ho. injection Ho as ->.
      exists a. split; [|done]. rewrite Hget. simpl. by rewrite El, Ea.
Qed.


(** ** Examples *)

Lemma sample_stored : stored_at sample_store 0 (TList sample_records).
Proof. exact (stored_at_alloc [] (TList sample_records)). Qed.

Lemma prepare_response_rows_witness :
  exists data h' rows,
    _prepare_response float_of_digits (VRef 0) sample_store = (Ok data, h')
    /\ rep h' data (TList rows)
    /\ length rows = length sample_records
    /\ forall i rec, sample_records !! i = Some rec ->
                     rows !! i = Some (normalize_record float_of_digits rec).
Proof.
  apply (prepare_response_rows float_of_digits sample_store 0 sample_records);
    [reflexivity | reflexivity | exact sample_stored].
Defined.

Lemma driver_columns_witness :
  exists data h' rows row,
    _prepare_response float_of_digits (VRef 0) sample_store = (Ok data, h')
    /\ rep h' data (TList rows)
    /\ rows !! 0 = Some (TDict row)
    /\ alist_get "Driver" row = Some (TStr "HAM")
    /\ alist_get "DriverNumber" row = Some (TStr "44").
Proof.
  apply (driver_columns float_of_digits sample_store 0 sample_records 0
           [("position", TStr "1");
            ("Driver", TDict [("code", TStr "HAM"); ("permanentNumber", TStr "44")]);
            ("Constructors", TList [TDict [("name", TStr "Mercedes")]])]
           [("code", TStr "HAM"); ("permanentNumber", TStr "44")]);
    [reflexivity | reflexivity | exact sample_stored | reflexivity | reflexivity
    | discriminate].
Defined.

Lemma location_columns_witness :
  exists data h' rows row lat long,
    _prepare_response float_of_digits (VRef 0) sample_store = (Ok data, h')
    /\ rep h' data (TList rows)
    /\ rows !! 1 = Some (TDict row)
    /\ alist_get "Location" row = None
    /\ float_of_tree float_of_digits (TStr "50") = Ok lat
    /\ float_of_tree float_of_digits (TInt 0) = Ok long
    /\ alist_get "Lat" row = Some (TFloat lat)
    /\ alist_get "Long" row = Some (TFloat long)
    /\ (@None tree = None -> long = float_zero)
    /\ alist_get "Locality" row = Some (TStr "Spa")
    /\ alist_get "Country" row = Some (TStr "Belgium").
Proof.
  destruct (location_columns float_of_digits sample_store 0 sample_records 1
              [("circuitId", TStr "spa");
               ("Location", TDict [("lat", TStr "50"); ("locality", TStr "Spa");
                                   ("country", TStr "Belgium")])]
              [("lat", TStr "50"); ("locality", TStr "Spa"); ("country", TStr "Belgium")])
    as (data & h' & rows & row & lat & long & H);
    [reflexivity | reflexivity | exact sample_stored | reflexivity | reflexivity
    | discriminate |].
  exists data, h', rows, row, lat, long.
  destruct H as (H1 & H2 & H3 & H4 & H5 & H6 & H7 & H8 & _ & H10 & H11 & H12).
  repeat split; assumption.
Defined.


Lemma prepare_response_leaves_input_witness :
  let out := _prepare_response float_of_digits (VRef 0) sample_store in
  ((exists data, fst out = Ok data)
   <-> forallb (raw_record float_of_digits) sample_records = true)
  /\ (forall l o, sample_store !! l = Some o -> snd out !! l = Some o)
  /\ take (length sample_store) (snd out) = sample_store
  /\ stored_at (snd out) 0 (TList sample_records)
  /\ rep (snd out) (VRef 0) (TList sample_records).
Proof.
  apply (prepare_response_leaves_input float_of_digits sample_store 0 sample_records);
    [reflexivity | exact sample_stored].
Defined.

(** C3, the claim as stated fails: a record whose [Driver] mapping is there
    but empty loses it and gets no [Driver] or [DriverNumber] column. *)
Lemma empty_driver_is_dropped :
  let h := objs 0 (TList [empty_driver_record]) in
  raw_record float_of_digits empty_driver_record = true
  /\ tree_path empty_driver_record ["Driver"] = Some (TDict [])
  /\ fst (_prepare_response float_of_digits (VRef 0) h) = Ok (VRef 3)
  /\ reify 6 (snd (_prepare_response float_of_digits (VRef 0) h)) (VRef 3)
     = Some (TList [TDict [("position", TStr "1");
                           ("__ErgastResponse", TItem empty_driver_record)]]).
Proof. repeat split; vm_compute; reflexivity. Qed.

(** C4, the claim as stated fails: a record whose [Location] mapping is
    there but empty loses it and gets none of the four columns. *)
Lemma empty_location_is_dropped :
  let h := objs 0 (TList [empty_location_record]) in
  raw_record float_of_digits empty_location_record = true
  /\ tree_path empty_location_record ["Location"] = Some (TDict [])
  /\ fst (_prepare_response float_of_digits (VRef 0) h) = Ok (VRef 3)
  /\ reify 6 (snd (_prepare_response float_of_digits (VRef 0) h)) (VRef 3)
     = Some (TList [TDict [("circuitId", TStr "spa");
                           ("__ErgastResponse", TItem empty_location_record)]]).
Proof. repeat split; vm_compute; reflexivity. Qed.

(** The records of a stored document are distinct objects.  When one
    record object is listed twice, [deepcopy] keeps the sharing, and the
    second iteration finds the row the first one has flattened, whose
    [Driver] is now a string: the call raises, and the input is still
    untouched. *)
Lemma shared_record_raises :
  fst (_prepare_response float_of_digits (VRef 0) shared_store) = Raise AttributeError
  /\ take 3 (snd (_prepare_response float_of_digits (VRef 0) shared_store)) = shared_store.
Proof. split; vm_compute; reflexivity. Qed.

(** Outside the accepted records the loop body raises: a [Driver] that is a
    string has no [get]. *)
Lemma string_driver_raises :
  fst (_prepare_response float_of_digits (VRef 0)
         (objs 0 (TList [TDict [("Driver", TStr "HAM")]])))
  = Raise AttributeError.
Proof. vm_compute. reflexivity. Qed.

(* ================================================================== *)
(** * Further properties of the normaliser *)

(** X1. On a stored list of records [_prepare_response] returns the new table
    when no record is rejected, and otherwise raises the exception of the
    first rejected record, which [first_exn] reads off the document:
    [AttributeError] for a truthy entry without [get], [TypeError] for a
    record or entry of the wrong kind, and what [float] raises on a
    latitude or longitude. *)
Theorem prepare_response_status fos (h : list obj) p recs :
  tree_ok (TList recs) = true -> stored_at h p (TList recs) ->
  fst (_prepare_response fos (VRef p) h)
  = match first_exn fos recs with
    | Some e => Raise e
    | None => Ok (VRef (length h))
    end.
Proof.
  intros Hok Hst. destruct (forallb (raw_record fos) recs) eqn:Hraw.
  - rewrite (first_exn_raw _ _ Hraw).
    destruct (prepare_response_refines fos h p recs Hok Hraw Hst) as (hf & rows & E & _).
    by rewrite E.
  - destruct (prepare_response_rejects fos h p recs Hok Hraw Hst)
      as (e & hf & Hx & E & _).
    by rewrite Hx, E.
Qed.

Lemma prepare_response_status_witness :
  fst (_prepare_response float_of_digits (VRef 0) (objs 0 (TList rejected_records)))
  = Raise ValueError.
Proof.
  exact (prepare_response_status float_of_digits (objs 0 (TList rejected_records)) 0
           rejected_records eq_refl (stored_at_alloc [] (TList rejected_records))).
Defined.

Lemma norm_constructors_present kvs c :
  alist_get "Constructors" kvs = Some c -> tree_truthy c = true ->
  alist_get "Constructors" (norm_constructors kvs) = Some (TList (tree_names c)).
Proof.
  intros H Ht. unfold norm_constructors. rewrite H, Ht. unfold alist_update. simpl.
  apply alist_get_set_eq.
Qed.

Lemma norm_constructors_falsy kvs c :
  alist_get "Constructors" kvs = Some c -> tree_truthy c = false ->
  alist_get "Constructors" (norm_constructors kvs) = None.
Proof.
  intros H Ht. unfold norm_constructors. rewrite H, Ht. apply alist_get_remove_eq.
Qed.

Lemma norm_location_falsy fos kvs l :
  alist_get "Location" kvs = Some l -> tree_truthy l = false ->
  norm_location fos kvs = alist_remove "Location" kvs.
Proof. intros H Ht. unfold norm_location. by rewrite H, Ht. Qed.

Lemma norm_driver_falsy_eq kvs d :
  alist_get "Driver" kvs = Some d -> tree_truthy d = false ->
  norm_driver kvs = alist_remove "Driver" kvs.
Proof. intros H Ht. unfold norm_driver. by rewrite H, Ht. Qed.

(** X2. A record with a non-empty list under ['Constructors'] gets, in its
    row, the list of the ['name'] of every element in the same order, the
    empty string standing for a constructor without a name. *)
Theorem constructors_column fos (h : list obj) p recs i kvs cs :
  tree_ok (TList recs) = true ->
  forallb (raw_record fos) recs = true ->
  stored_at h p (TList recs) ->
  recs !! i = Some (TDict kvs) ->
  alist_get "Constructors" kvs = Some (TList cs) -> cs <> [] ->
  exists data h' rows row,
    _prepare_response fos (VRef p) h = (Ok data, h')
    /\ rep h' data (TList rows)
    /\ rows !! i = Some (TDict row)
    /\ alist_get "Constructors" row
       = Some (TList (map (fun c => tree_field c "name" (TStr "")) cs)).
Proof.
  intros Hok Hraw Hst Hi Hc Hne.
  destruct (prepare_response_table fos h p recs Hok Hraw Hst) as (h' & E & Hrep & _).
  destruct (normalize_record_get fos kvs "Constructors") as (row & Er & E1 & _); [done|].
  exists (VRef (length h)), h', (map (normalize_record fos) recs), row.
  split; [done|]. split; [done|]. split; [by rewrite list_lookup_fmap, Hi, <- Er|].
  rewrite E1, alist_get_norm_location by done.
  rewrite (norm_constructors_present _ (TList cs)); [done| |by destruct cs].
  by rewrite alist_get_norm_driver.
Qed.

Lemma constructors_column_witness :
  exists data h' rows row,
    _prepare_response float_of_digits (VRef 0) sample_store = (Ok data, h')
    /\ rep h' data (TList rows)
    /\ rows !! 0 = Some (TDict row)
    /\ alist_get "Constructors" row = Some (TList [TStr "Mercedes"]).
Proof.
  apply (constructors_column float_of_digits sample_store 0 sample_records 0
           [("position", TStr "1");
            ("Driver", TDict [("code", TStr "HAM"); ("permanentNumber", TStr "44")]);
            ("Constructors", TList [TDict [("name", TStr "Mercedes")]])]
           [TDict [("name", TStr "Mercedes")]]);
    [reflexivity | reflexivity | exact sample_stored | reflexivity | reflexivity
    | discriminate].
Defined.

(** X3. A ['Driver'], ['Constructors'] or ['Location'] entry that is falsy
    (an empty dictionary, an empty list, an empty string, zero, [None]) is
    popped without replacement: the row has no such key, and the columns the
    flattening would have written keep what the record had under them. *)
Theorem falsy_parts_dropped fos (h : list obj) p recs i kvs :
  tree_ok (TList recs) = true ->
  forallb (raw_record fos) recs = true ->
  stored_at h p (TList recs) ->
  recs !! i = Some (TDict kvs) ->
  exists data h' rows row,
    _prepare_response fos (VRef p) h = (Ok data, h')
    /\ rep h' data (TList rows)
    /\ rows !! i = Some (TDict row)
    /\ (forall d, alist_get "Driver" kvs = Some d -> tree_truthy d = false ->
          alist_get "Driver" row = None
          /\ alist_get "DriverNumber" row = alist_get "DriverNumber" kvs)
    /\ (forall c, alist_get "Constructors" kvs = Some c -> tree_truthy c = false ->
          alist_get "Constructors" row = None)
    /\ (forall l, alist_get "Location" kvs = Some l -> tree_truthy l = false ->
          alist_get "Location" row = None
          /\ alist_get "Lat" row = alist_get "Lat" kvs
          /\ alist_get "Long" row = alist_get "Long" kvs
          /\ alist_get "Locality" row = alist_get "Locality" kvs
          /\ alist_get "Country" row = alist_get "Country" kvs).
Proof.
  intros Hok Hraw Hst Hi.
  destruct (prepare_response_table fos h p recs Hok Hraw Hst) as (h' & E & Hrep & _).
  exists (VRef (length h)), h', (map (normalize_record fos) recs),
    (alist_set "__ErgastResponse" (TItem (TDict kvs))
       (norm_location fos (norm_constructors (norm_driver kvs)))).
  split; [done|]. split; [done|]. split; [by rewrite list_lookup_fmap, Hi|].
  assert (Hget : forall k, k <> "__ErgastResponse" ->
            alist_get k (alist_set "__ErgastResponse" (TItem (TDict kvs))
                           (norm_location fos (norm_constructors (norm_driver kvs))))
            = alist_get k (norm_location fos (norm_constructors (norm_driver kvs)))).
  { intros k Hk. by apply alist_get_set_ne. }
  split; [|split].
  - intros d Hd Ht. rewrite !Hget by done.
    rewrite !alist_get_norm_location, !alist_get_norm_constructors by done.
    rewrite (norm_driver_falsy_eq _ _ Hd Ht).
    split; [apply alist_get_remove_eq|by apply alist_get_remove_ne].
  - intros c Hc Ht. rewrite Hget by done. rewrite alist_get_norm_location by done.
    apply (norm_constructors_falsy _ c); [|done]. by rewrite alist_get_norm_driver.
  - intros l Hl Ht. rewrite !Hget by done.
    rewrite (norm_location_falsy fos _ l); [| |done].
    2: { by rewrite alist_get_norm_constructors, alist_get_norm_driver. }
    split; [apply alist_get_remove_eq|].
    rewrite !alist_get_remove_ne by done.
    rewrite !alist_get_norm_constructors by done.
    by rewrite !alist_get_norm_driver.
Qed.

Lemma falsy_parts_dropped_witness :
  exists data h' rows row,
    _prepare_response float_of_digits (VRef 0) (objs 0 (TList [empty_driver_record]))
    = (Ok data, h')
    /\ rep h' data (TList rows)
    /\ rows !! 0 = Some (TDict row)
    /\ alist_get "Driver" row = None
    /\ alist_get "DriverNumber" row = None.
Proof.
  destruct (falsy_parts_dropped float_of_digits (objs 0 (TList [empty_driver_record])) 0
              [empty_driver_record] 0 [("Driver", TDict []); ("position", TStr "1")])
    as (data & h' & rows & row & H1 & H2 & H3 & H4 & _);
    [reflexivity | reflexivity | exact (stored_at_alloc [] (TList [empty_driver_record]))
    | reflexivity |].
  exists data, h', rows, row. destruct (H4 (TDict []) eq_refl eq_refl) as [H5 H6].
  repeat split; assumption.
Defined.

(** X4. Every key of a record other than the three flattened ones, the
    columns they are flattened to and ['__ErgastResponse'] has, in the row,
    the value it has in the record. *)
Theorem other_fields_kept fos (h : list obj) p recs i kvs k :
  tree_ok (TList recs) = true ->
  forallb (raw_record fos) recs = true ->
  stored_at h p (TList recs) ->
  recs !! i = Some (TDict kvs) ->
  ~ In k ["Driver"; "DriverNumber"; "Constructors"; "Location"; "Lat"; "Long";
          "Locality"; "Country"; "__ErgastResponse"] ->
  exists data h' rows row,
    _prepare_response fos (VRef p) h = (Ok data, h')
    /\ rep h' data (TList rows)
    /\ rows !! i = Some (TDict row)
    /\ alist_get k row = alist_get k kvs.
Proof.
  intros Hok Hraw Hst Hi Hk.
  destruct (prepare_response_table fos h p recs Hok Hraw Hst) as (h' & E & Hrep & _).
  destruct (normalize_record_get fos kvs k) as (row & Er & E1 & _).
  { intros ->. apply Hk. simpl. tauto. }
  exists (VRef (length h)), h', (map (normalize_record fos) recs), row.
  split; [done|]. split; [done|]. split; [by rewrite list_lookup_fmap, Hi, <- Er|].
  rewrite E1.
  rewrite alist_get_norm_location, alist_get_norm_constructors, alist_get_norm_driver;
    try done; intros ->; apply Hk; simpl; tauto.
Qed.

Lemma other_fields_kept_witness :
  exists data h' rows row,
    _prepare_response float_of_digits (VRef 0) sample_store = (Ok data, h')
    /\ rep h' data (TList rows)
    /\ rows !! 0 = Some (TDict row)
    /\ alist_get "position" row = Some (TStr "1").
Proof.
  apply (other_fields_kept float_of_digits sample_store 0 sample_records 0
           [("position", TStr "1");
            ("Driver", TDict [("code", TStr "HAM"); ("permanentNumber", TStr "44")]);
            ("Constructors", TList [TDict [("name", TStr "Mercedes")]])]
           "position");
    [reflexivity | reflexivity | exact sample_stored | reflexivity |].
  simpl. intros H. repeat destruct H as [H|H]; try discriminate H. exact H.
Defined.

Lemma reify_ext n : forall (h h' : list obj) v t,
  (forall l o, h !! l = Some o -> h' !! l = Some o) ->
  reify n h v = Some t -> reify n h' v = Some t.
Proof.
  induction n as [|n IH]; intros h h' v t Hext H.
  - by destruct v.
  - destruct v as [ | | | | |l]; try done. simpl in *.
    destruct (h !! l) as [o|] eqn:E; [|done]. rewrite (Hext _ _ E).
    destruct o as [items|elems|r].
    + apply option_map_Some in H as (kts & H & ->).
      apply option_map_Some. exists kts. split; [|done].
      apply map_option_Forall2. apply map_option_Forall2 in H.
      eapply Forall2_impl; [exact H|]. intros kv kt Hk. simpl in Hk.
      apply option_map_Some in Hk as (x & Hx & ->).
      apply option_map_Some. exists x. split; [|done]. by apply (IH h).
    + apply option_map_Some in H as (ts & H & ->).
      apply option_map_Some. exists ts. split; [|done].
      apply map_option_Forall2. apply map_option_Forall2 in H.
      eapply Forall2_impl; [exact H|]. intros x y Hx. by apply (IH h).
    + apply option_map_Some in H as (x & H & ->).
      apply option_map_Some. exists x. split; [|done]. by apply (IH h).
Qed.

Lemma rep_ext (h h' : list obj) v t :
  (forall l o, h !! l = Some o -> h' !! l = Some o) -> rep h v t -> rep h' v t.
Proof. intros Hext [n Hn]. exists n. by apply (reify_ext n h). Qed.

(** X5. The table returned for a stored list of accepted records is a new
    object, and no list or dictionary created by the call refers to an object
    that existed before it: only the [_response] of the items leads back to
    the input. *)
Theorem table_refers_to_new_objects fos (h : list obj) p recs :
  tree_ok (TList recs) = true ->
  forallb (raw_record fos) recs = true ->
  stored_at h p (TList recs) ->
  exists h',
    _prepare_response fos (VRef p) h = (Ok (VRef (length h)), h')
    /\ length h < length h'
    /\ forall l o, length h <= l -> h' !! l = Some o -> obj_new (length h) o.
Proof.
  intros Hok Hraw Hst.
  assert (Hraw' : forallb (raw_record fos) (take (length recs) recs) = true)
    by (by rewrite firstn_all).
  destruct (loop_run fos h p recs (length recs) Hraw' Hst (length recs) 0
              (h ++ objs (length h) (TList recs)) (le_n _) (le_n _)
              (loop_inv_start fos h p recs)) as (hf & Erun & Hinv & Hcl).
  exists hf. split; [|split].
  - unfold _prepare_response, bind, read, ret.
    pose proof (deepcopy_stored h p (TList recs) Hok Hst) as Ecopy.
    cbn [root] in Ecopy. rewrite Ecopy.
    unfold py_len. rewrite objs_TList, list_lookup_middle by done.
    rewrite length_roots. rewrite <- objs_TList. by rewrite Erun.
  - pose proof (loop_inv_data fos h p recs _ _ Hinv) as Hd.
    by apply lookup_lt_Some in Hd.
  - apply Hcl, closed_alloc.
Qed.

Lemma table_refers_to_new_objects_witness :
  exists h',
    _prepare_response float_of_digits (VRef 0) sample_store
    = (Ok (VRef (length sample_store)), h')
    /\ length sample_store < length h'
    /\ forall l o, length sample_store <= l -> h' !! l = Some o ->
                   obj_new (length sample_store) o.
Proof.
  apply (table_refers_to_new_objects float_of_digits sample_store 0 sample_records);
    [reflexivity | reflexivity | exact sample_stored].
Defined.

(** X6. Calling [_prepare_response] a second time on the same response gives
    a second, distinct table with the same rows; the first table and the
    response still denote what they denoted. *)
Theorem prepare_response_again fos (h : list obj) p recs :
  tree_ok (TList recs) = true ->
  forallb (raw_record fos) recs = true ->
  stored_at h p (TList recs) ->
  exists d1 h1 d2 h2,
    _prepare_response fos (VRef p) h = (Ok d1, h1)
    /\ _prepare_response fos (VRef p) h1 = (Ok d2, h2)
    /\ d1 <> d2
    /\ rep h2 d1 (TList (map (normalize_record fos) recs))
    /\ rep h2 d2 (TList (map (normalize_record fos) recs))
    /\ rep h2 (VRef p) (TList recs).
Proof.
  intros Hok Hraw Hst.
  destruct (prepare_response_refines fos h p recs Hok Hraw Hst)
    as (h1 & rows1 & E1 & Hpre1 & Hl1 & Hrows1 & _).
  assert (Hst1 : stored_at h1 p (TList recs)).
  { intros j o Hj. by apply Hpre1, Hst. }
  destruct (prepare_response_refines fos h1 p recs Hok Hraw Hst1)
    as (h2 & rows2 & E2 & Hpre2 & Hl2 & Hrows2 & _).
  exists (VRef (length h)), h1, (VRef (length h1)), h2.
  split; [done|]. split; [done|]. split; [|split; [|split]].
  - apply lookup_lt_Some in Hl1. intros [= E]. lia.
  - apply (rep_ext h1); [done|]. by apply (rep_list _ _ _ _ Hl1).
  - by apply (rep_list _ _ _ _ Hl2).
  - apply (rep_stored (TList recs)). intros j o Hj. by apply Hpre2, Hst1.
Qed.

Lemma prepare_response_again_witness :
  exists d1 h1 d2 h2,
    _prepare_response float_of_digits (VRef 0) sample_store = (Ok d1, h1)
    /\ _prepare_response float_of_digits (VRef 0) h1 = (Ok d2, h2)
    /\ d1 <> d2
    /\ rep h2 d1 (TList (map (normalize_record float_of_digits) sample_records))
    /\ rep h2 d2 (TList (map (normalize_record float_of_digits) sample_records))
    /\ rep h2 (VRef 0) (TList sample_records).
Proof.
  apply (prepare_response_again float_of_digits sample_store 0 sample_records);
    [reflexivity | reflexivity | exact sample_stored].
Defined.

(** X8. [copy.deepcopy] of a stored document returns a value that denotes the
    same document, leaves every object of the store as it is, and builds the
    copy from new objects only, none of which refers to an older object. *)
Theorem deepcopy_document (h : list obj) p t :
  tree_ok t = true -> stored_at h p t ->
  exists v h',
    deepcopy (root p t) h = (Ok v, h')
    /\ rep h' v t
    /\ rep h' (root p t) t
    /\ (forall l o, h !! l = Some o -> h' !! l = Some o)
    /\ fresh (length h) v
    /\ forall l o, length h <= l -> h' !! l = Some o -> obj_new (length h) o.
Proof.
  intros Hok Hst. exists (root (length h) t), (h ++ objs (length h) t).
  split; [by apply deepcopy_stored|].
  assert (Hpre : forall l o, h !! l = Some o -> (h ++ objs (length h) t) !! l = Some o).
  { intros l o Hl. by apply lookup_app_l_Some. }
  split; [apply rep_stored, stored_at_alloc|].
  split; [apply (rep_ext h); [done|by apply rep_stored]|].
  split; [done|]. split; [by apply root_fresh|apply closed_alloc].
Qed.

Lemma deepcopy_document_witness :
  exists v h',
    deepcopy (VRef 0) sample_store = (Ok v, h')
    /\ rep h' v (TList sample_records)
    /\ rep h' (VRef 0) (TList sample_records)
    /\ (forall l o, sample_store !! l = Some o -> h' !! l = Some o)
    /\ fresh (length sample_store) v
    /\ forall l o, length sample_store <= l -> h' !! l = Some o ->
                   obj_new (length sample_store) o.
Proof.
  apply (deepcopy_document sample_store 0 (TList sample_records));
    [reflexivity | exact sample_stored].
Defined.

(** ** The order of the columns of a row *)

Lemma alist_remove_app {V} k (d1 d2 : list (string * V)) :
  alist_remove k (d1 ++ d2) = alist_remove k d1 ++ alist_remove k d2.
Proof.
  induction d1 as [|[k' v] d1 IH]; simpl; [done|].
  destruct (String.eqb k k'); [done|]. by rewrite IH.
Qed.

Lemma alist_update_app {V} (new d : list (string * V)) :
  distinct_keys new = true ->
  (forall k v, alist_get k new = Some v -> alist_get k d = None) ->
  alist_update new d = d ++ new.
Proof.
  revert d. induction new as [|[k v] new IH]; intros d Hd Hn.
  - by rewrite app_nil_r.
  - simpl in Hd. apply andb_true_iff in Hd as [Hk Hd].
    rewrite alist_update_cons, alist_set_fresh.
    2: { apply (Hn k v). simpl. by rewrite String.eqb_refl. }
    rewrite IH; [by rewrite <- app_assoc|done|].
    intros k' v' Hk'. rewrite alist_get_app.
    assert (k' <> k) as Hne.
    { intros ->. unfold alist_mem in Hk. by rewrite Hk' in Hk. }
    rewrite (Hn k' v').
    + simpl. apply String.eqb_neq in Hne. by rewrite Hne.
    + simpl. apply String.eqb_neq in Hne. by rewrite Hne.
Qed.

Lemma norm_driver_layout kvs :
  alist_get "DriverNumber" kvs = None ->
  norm_driver kvs = alist_remove "Driver" kvs ++ new_driver_columns kvs.
Proof.
  intros Hn. unfold norm_driver, new_driver_columns.
  destruct (alist_get "Driver" kvs) as [d|]; [|by rewrite app_nil_r].
  destruct (tree_truthy d); [|by rewrite app_nil_r].
  apply alist_update_app; [done|].
  intros k v. simpl.
  destruct (String.eqb k "Driver") eqn:E1.
  { apply String.eqb_eq in E1 as ->. intros _. apply alist_get_remove_eq. }
  destruct (String.eqb k "DriverNumber") eqn:E2; [|done].
  apply String.eqb_eq in E2 as ->. intros _. by rewrite alist_get_remove_ne.
Qed.

Lemma alist_get_new_driver_columns kvs k :
  k <> "Driver" -> k <> "DriverNumber" -> alist_get k (new_driver_columns kvs) = None.
Proof.
  intros H1 H2. unfold new_driver_columns.
  destruct (alist_get "Driver" kvs) as [d|]; [|done]. destruct (tree_truthy d); [|done].
  simpl. apply String.eqb_neq in H1, H2. by rewrite H1, H2.
Qed.

Lemma alist_get_new_constructors_columns kvs k :
  k <> "Constructors" -> alist_get k (new_constructors_columns kvs) = None.
Proof.
  intros H1. unfold new_constructors_columns.
  destruct (alist_get "Constructors" kvs) as [d|]; [|done]. destruct (tree_truthy d); [|done].
  simpl. apply String.eqb_neq in H1. by rewrite H1.
Qed.

Lemma alist_get_new_location_columns fos kvs k :
  k <> "Lat" -> k <> "Long" -> k <> "Locality" -> k <> "Country" ->
  alist_get k (new_location_columns fos kvs) = None.
Proof.
  intros H1 H2 H3 H4. unfold new_location_columns.
  destruct (alist_get "Location" kvs) as [d|]; [|done]. destruct (tree_truthy d); [|done].
  simpl. apply String.eqb_neq in H1, H2, H3, H4. by rewrite H1, H2, H3, H4.
Qed.

Lemma norm_constructors_layout kvs :
  alist_get "DriverNumber" kvs = None ->
  norm_constructors (norm_driver kvs)
  = alist_remove "Constructors" (alist_remove "Driver" kvs)
    ++ new_driver_columns kvs ++ new_constructors_columns kvs.
Proof.
  intros Hn. unfold norm_constructors at 1.
  rewrite alist_get_norm_driver by done.
  rewrite (norm_driver_layout kvs Hn), alist_remove_app.
  rewrite (alist_remove_absent "Constructors" (new_driver_columns kvs))
    by (by apply alist_get_new_driver_columns).
  unfold new_constructors_columns.
  destruct (alist_get "Constructors" kvs) as [c|]; [|by rewrite !app_nil_r].
  destruct (tree_truthy c); [|by rewrite !app_nil_r].
  rewrite alist_update_app; [by rewrite <- app_assoc|done|].
  intros k v. simpl. destruct (String.eqb k "Constructors") eqn:E; [|done].
  apply String.eqb_eq in E as ->. intros _.
  rewrite alist_get_app, alist_get_remove_eq.
  by apply alist_get_new_driver_columns.
Qed.

Lemma norm_location_layout fos kvs :
  alist_get "DriverNumber" kvs = None ->
  alist_get "Lat" kvs = None -> alist_get "Long" kvs = None ->
  alist_get "Locality" kvs = None -> alist_get "Country" kvs = None ->
  norm_location fos (norm_constructors (norm_driver kvs))
  = alist_remove "Location" (alist_remove "Constructors" (alist_remove "Driver" kvs))
    ++ new_driver_columns kvs ++ new_constructors_columns kvs
    ++ new_location_columns fos kvs.
Proof.
  intros Hn H1 H2 H3 H4. unfold norm_location at 1.
  rewrite alist_get_norm_constructors, alist_get_norm_driver by done.
  rewrite (norm_constructors_layout kvs Hn), !alist_remove_app.
  rewrite (alist_remove_absent "Location" (new_driver_columns kvs))
    by (by apply alist_get_new_driver_columns).
  rewrite (alist_remove_absent "Location" (new_constructors_columns kvs))
    by (by apply alist_get_new_constructors_columns).
  unfold new_location_columns.
  destruct (alist_get "Location" kvs) as [l|]; [|by rewrite !app_nil_r].
  destruct (tree_truthy l); [|by rewrite !app_nil_r].
  rewrite alist_update_app; [by rewrite <- !app_assoc|done|].
  intros k v Hk.
  assert (Hkvs : alist_get k kvs = None /\ k <> "Location" /\ k <> "Constructors"
                 /\ k <> "Driver" /\ k <> "DriverNumber").
  { simpl in Hk.
    destruct (String.eqb k "Lat") eqn:E1; [by apply String.eqb_eq in E1 as ->|].
    destruct (String.eqb k "Long") eqn:E2; [by apply String.eqb_eq in E2 as ->|].
    destruct (String.eqb k "Locality") eqn:E3; [by apply String.eqb_eq in E3 as ->|].
    destruct (String.eqb k "Country") eqn:E4; [by apply String.eqb_eq in E4 as ->|].
    done. }
  destruct Hkvs as (Hk0 & N1 & N2 & N3 & N4).
  rewrite !alist_get_app, !alist_get_remove_ne, Hk0 by done.
  rewrite alist_get_new_driver_columns by done.
  by rewrite alist_get_new_constructors_columns.
Qed.

Lemma normalize_record_layout fos kvs :
  Forall (fun k => alist_get k kvs = None)
    ["DriverNumber"; "Lat"; "Long"; "Locality"; "Country"; "__ErgastResponse"] ->
  normalize_record fos (TDict kvs)
  = TDict (alist_remove "Location" (alist_remove "Constructors" (alist_remove "Driver" kvs))
           ++ new_driver_columns kvs ++ new_constructors_columns kvs
           ++ new_location_columns fos kvs
           ++ [("__ErgastResponse", TItem (TDict kvs))]).
Proof.
  intros H. apply Forall_cons in H as [Hn H]. apply Forall_cons in H as [H1 H].
  apply Forall_cons in H as [H2 H]. apply Forall_cons in H as [H3 H].
  apply Forall_cons in H as [H4 H]. apply Forall_cons in H as [H5 _].
  cbn [normalize_record]. f_equal.
  rewrite (norm_location_layout fos kvs Hn H1 H2 H3 H4).
  rewrite alist_set_fresh; [by rewrite <- !app_assoc|].
  rewrite !alist_get_app, !alist_get_remove_ne, H5 by done.
  rewrite alist_get_new_driver_columns, alist_get_new_constructors_columns by done.
  by apply alist_get_new_location_columns.
Qed.

(** X7. The order of the columns of a row: the keys of the record that are
    not flattened, in the order of the record, then the columns of the
    driver, of the constructors and of the location that are present, then
    ['__ErgastResponse'] (for a record that has none of the target columns
    beforehand). *)
Theorem row_column_order fos (h : list obj) p recs i kvs :
  tree_ok (TList recs) = true ->
  forallb (raw_record fos) recs = true ->
  stored_at h p (TList recs) ->
  recs !! i = Some (TDict kvs) ->
  Forall (fun k => alist_get k kvs = None)
    ["DriverNumber"; "Lat"; "Long"; "Locality"; "Country"; "__ErgastResponse"] ->
  exists data h' rows,
    _prepare_response fos (VRef p) h = (Ok data, h')
    /\ rep h' data (TList rows)
    /\ rows !! i
       = Some (TDict
                 (alist_remove "Location"
                    (alist_remove "Constructors" (alist_remove "Driver" kvs))
                  ++ new_driver_columns kvs ++ new_constructors_columns kvs
                  ++ new_location_columns fos kvs
                  ++ [("__ErgastResponse", TItem (TDict kvs))])).
Proof.
  intros Hok Hraw Hst Hi Hk.
  destruct (prepare_response_table fos h p recs Hok Hraw Hst) as (h' & E & Hrep & _).
  exists (VRef (length h)), h', (map (normalize_record fos) recs).
  split; [done|]. split; [done|].
  by rewrite list_lookup_fmap, Hi, <- normalize_record_layout.
Qed.

Lemma row_column_order_witness :
  exists data h' rows,
    _prepare_response float_of_digits (VRef 0) sample_store = (Ok data, h')
    /\ rep h' data (TList rows)
    /\ rows !! 0
       = Some (TDict
                 [("position", TStr "1");
                  ("Driver", TStr "HAM"); ("DriverNumber", TStr "44");
                  ("Constructors", TList [TStr "Mercedes"]);
                  ("__ErgastResponse",
                   TItem (TDict
                     [("position", TStr "1");
                      ("Driver", TDict [("code", TStr "HAM"); ("permanentNumber", TStr "44")]);
                      ("Constructors", TList [TDict [("name", TStr "Mercedes")]])]))]).
Proof.
  apply (row_column_order float_of_digits sample_store 0 sample_records 0
           [("position", TStr "1");
            ("Driver", TDict [("code", TStr "HAM"); ("permanentNumber", TStr "44")]);
            ("Constructors", TList [TDict [("name", TStr "Mercedes")]])]);
    [reflexivity | reflexivity | exact sample_stored | reflexivity
    | repeat constructor].
Defined.

(* ================================================================== *)
(** * Further properties of the query facade *)

(** ** Subscripts on a stored document *)

Lemma getitem_str_tree h q t k :
  stored_at h q t ->
  match tree_getitem t k with
  | Ok t' => exists q', getitem_str h (root q t) k = Ok (root q' t') /\ stored_at h q' t'
  | Raise e => getitem_str h (root q t) k = Raise e
  end.
Proof.
  intros Hst. destruct t as [ | | | | |ts|kvs|r]; try done; simpl.
  - by apply stored_at_TList in Hst as [-> _].
  - apply stored_at_TDict in Hst as [Hq Hst]. rewrite Hq.
    pose proof (dict_items_lookup kvs k (S q)) as Hl.
    destruct (alist_get k kvs) as [x|].
    + destruct Hl as (q' & -> & _ & Hs). exists q'. split; [done|]. by apply Hs.
    + by rewrite Hl.
  - by apply stored_at_TItem in Hst as [-> _].
Qed.

Lemma getitem_int_tree h q t i :
  stored_at h q t ->
  match tree_index t i with
  | Ok t' => exists q', getitem_int h (root q t) i = Ok (root q' t') /\ stored_at h q' t'
  | Raise e => getitem_int h (root q t) i = Raise e
  end.
Proof.
  intros Hst. destruct t as [ | | | |s|ts|kvs|r]; try done; simpl.
  - unfold chars. rewrite list_lookup_fmap.
    destruct (list_ascii_of_string s !! i) as [c|]; simpl; [|done].
    exists 0. split; [done|]. by apply stored_at_atom.
  - apply stored_at_TList in Hst as [Hq Hst]. rewrite Hq.
    destruct (ts !! i) as [x|] eqn:E.
    + rewrite (roots_lookup _ _ _ _ E). eexists. split; [done|].
      exact (stored_seq_lookup _ _ _ _ _ Hst E).
    + assert (roots (S q) ts !! i = None) as ->; [|done].
      apply lookup_ge_None. rewrite length_roots. by apply lookup_ge_None.
  - by apply stored_at_TDict in Hst as [-> _].
  - by apply stored_at_TItem in Hst as [-> _].
Qed.

Lemma subscripts_stored path : forall w q t,
  stored_at (store w) q t ->
  match tree_sub t path with
  | Ok t' => exists q', subscripts (root q t) path w = (Ok (root q' t'), w)
                        /\ stored_at (store w) q' t'
  | Raise e => subscripts (root q t) path w = (Raise e, w)
  end.
Proof.
  induction path as [|[k|i] path IH]; intros w q t Hst; simpl.
  - by exists q.
  - pose proof (getitem_str_tree _ _ _ k Hst) as H. unfold bind, subscript_str, read.
    destruct (tree_getitem t k) as [t'|e].
    + destruct H as (q' & -> & Hs). apply (IH w q' t' Hs).
    + by rewrite H.
  - pose proof (getitem_int_tree _ _ _ i Hst) as H. unfold bind, subscript_int, read.
    destruct (tree_index t i) as [t'|e].
    + destruct H as (q' & -> & Hs). apply (IH w q' t' Hs).
    + by rewrite H.
Qed.

Lemma tree_sub_ok path : forall t t',
  tree_ok t = true -> tree_sub t path = Ok t' -> tree_ok t' = true.
Proof.
  induction path as [|[k|i] path IH]; intros t t' Hok H; simpl in H.
  - by injection H as <-.
  - destruct (tree_getitem t k) as [x|] eqn:E; [|done]. apply (IH x); [|done].
    destruct t as [ | | | | | |kvs| ]; try done. simpl in E, Hok.
    destruct (alist_get k kvs) as [y|] eqn:Ek; [|done]. injection E as ->.
    apply andb_true_iff in Hok as [Hok _]. clear -Hok Ek.
    induction kvs as [|[k' v] kvs IHk]; simpl in *; [done|].
    apply andb_true_iff in Hok as [H1 H2].
    destruct (String.eqb k k'); [by simplify_eq/=|by apply IHk].
  - destruct (tree_index t i) as [x|] eqn:E; [|done]. apply (IH x); [|done].
    destruct t as [ | | | |s|ts| | ]; try done; simpl in E, Hok.
    + by destruct (list_ascii_of_string s !! i); simplify_eq.
    + destruct (ts !! i) as [y|] eqn:Ei; [|done]. injection E as ->.
      rewrite forallb_forall in Hok. apply Hok, list_elem_of_In.
      by eapply list_elem_of_lookup_2.
Qed.

Lemma bind_ret {S A} (m : M S A) s : (do x <- m; ret x) s = m s.
Proof. unfold bind, ret. by destruct (m s) as [[a|e] s']. Qed.

Lemma parse_ergast_subscripts data w :
  _parse_ergast data w = subscripts data [Key "MRData"; Key "RaceTable"; Key "Races"] w.
Proof.
  unfold _parse_ergast. simpl. unfold bind, ret.
  destruct (subscript_str data "MRData" w) as [[r|e] w1]; [|done].
  destruct (subscript_str r "RaceTable" w1) as [[r2|e] w2]; [|done].
  by destruct (subscript_str r2 "Races" w2) as [[r3|e] w3].
Qed.

Section RootFetch.
Variable version : string.
Variable server : list string -> string -> list (string * string) -> response.
Variable json_loads : string -> result tree.

Lemma parse_json_response_200 r w t :
  status_code r = 200%Z -> json_loads (content r) = Ok t ->
  _parse_json_response json_loads r w
  = (Ok (root (length (store w)) t),
     {| store := store w ++ objs (length (store w)) t;
        requests := requests w; warnings := warnings w |}).
Proof.
  intros Hs Hj. unfold _parse_json_response. by rewrite Hs, Hj.
Qed.

(** A root-level fetch that hands the decoded document to a chain of
    subscripts. *)
Lemma fetch_subscripts_200 url path w t :
  let r := server (requests w) url (_headers version) in
  status_code r = 200%Z -> json_loads (content r) = Ok t ->
  let w1 := {| store := store w ++ objs (length (store w)) t;
               requests := requests w ++ [url]; warnings := warnings w |} in
  match tree_sub t path with
  | Ok t' =>
      exists q', (do r <- requests_get version server url;
                  do d <- _parse_json_response json_loads r;
                  subscripts d path) w
                 = (Ok (root q' t'), w1)
                 /\ stored_at (store w1) q' t'
  | Raise e =>
      (do r <- requests_get version server url;
       do d <- _parse_json_response json_loads r;
       subscripts d path) w = (Raise e, w1)
  end.
Proof.
  intros r Hs Hj w1.
  assert (E : (do r <- requests_get version server url;
               do d <- _parse_json_response json_loads r;
               subscripts d path) w
              = subscripts (root (length (store w)) t) path w1).
  { unfold bind, requests_get. fold r.
    by rewrite (parse_json_response_200 r _ t Hs Hj). }
  rewrite E.
  exact (subscripts_stored path w1 (length (store w)) t (stored_at_alloc (store w) t)).
Qed.
End RootFetch.

(** X9. [fetch_day] sends exactly one request, to
    [base_url/year/gp/day.json].  On status 200 it returns the decoded
    document without a warning, or raises what the decoder raised, unwrapped;
    on any other status it returns [None] and emits the warning
    ['Request returned: <status>'].  No stored object is changed. *)
Theorem fetch_day_outcomes version server json_loads year gp day w :
  let url := base_url +:+ "/" +:+ format_arg year +:+ "/" +:+ format_arg gp
             +:+ "/" +:+ day +:+ ".json" in
  let r := server (requests w) url (_headers version) in
  let out := fetch_day version server json_loads year gp day w in
  requests (snd out) = requests w ++ [url]
  /\ (forall t, status_code r = 200%Z -> json_loads (content r) = Ok t ->
        exists v, fst out = Ok v /\ rep (store (snd out)) v t
                  /\ warnings (snd out) = warnings w
                  /\ forall l o, store w !! l = Some o -> store (snd out) !! l = Some o)
  /\ (forall exc, status_code r = 200%Z -> json_loads (content r) = Raise exc ->
        fst out = Raise exc /\ warnings (snd out) = warnings w
        /\ store (snd out) = store w)
  /\ (status_code r <> 200%Z ->
        fst out = Ok VNone
        /\ warnings (snd out)
           = warnings w ++ ["Request returned: " +:+ format_arg (AInt (status_code r))]
        /\ store (snd out) = store w).
Proof.
  intros url r out. subst out.
  unfold fetch_day, bind, requests_get, _parse_json_response. fold url.
  cbn [requests store warnings]. fold r.
  destruct (Z.eqb (status_code r) 200) eqn:E.
  - apply Z.eqb_eq in E. destruct (json_loads (content r)) as [t|exc]; simpl;
      (split; [done|]; split; [|split]); try done.
    + intros t' _ [= <-]. eexists. split; [done|]. split; [|split; [done|]].
      * apply rep_stored, stored_at_alloc.
      * intros l o Hl. by apply lookup_app_l_Some.
    + by intros exc' _ [= <-].
  - apply Z.eqb_neq in E. simpl. (split; [done|]; split; [|split]); done.
Qed.

(** X10. On status 200 with a decodable body [fetch_season] sends one request
    to [base_url/year.json], emits no warning, and returns what the document
    has under ['MRData']['RaceTable']['Races'], or raises the exception that
    subscript raises on the document ([KeyError] for a missing key,
    [TypeError] where a level is not a dictionary). *)
Theorem fetch_season_200 version server json_loads year w t :
  let url := base_url +:+ "/" +:+ format_arg year +:+ ".json" in
  let r := server (requests w) url (_headers version) in
  status_code r = 200%Z -> json_loads (content r) = Ok t ->
  let out := fetch_season version server json_loads year w in
  requests (snd out) = requests w ++ [url]
  /\ warnings (snd out) = warnings w
  /\ store (snd out) = store w ++ objs (length (store w)) t
  /\ match tree_sub t [Key "MRData"; Key "RaceTable"; Key "Races"] with
     | Ok races => exists v, fst out = Ok v /\ rep (store (snd out)) v races
     | Raise e => fst out = Raise e
     end.
Proof.
  intros url r Hs Hj out.
  assert (E : out = (do r <- requests_get version server url;
                     do d <- _parse_json_response json_loads r;
                     subscripts d [Key "MRData"; Key "RaceTable"; Key "Races"]) w).
  { subst out. unfold fetch_season, _parse_ergast. cbv zeta. unfold url. cbn [subscripts].
    unfold bind, ret.
    destruct (requests_get version server _ w) as [[r1|e] w1]; [|done].
    destruct (_parse_json_response json_loads r1 w1) as [[d|e] w2]; [|done].
    destruct (subscript_str d "MRData" w2) as [[x1|e] w3]; [|done].
    destruct (subscript_str x1 "RaceTable" w3) as [[x2|e] w4]; [|done].
    by destruct (subscript_str x2 "Races" w4) as [[x3|e] w5]. }
  pose proof (fetch_subscripts_200 version server json_loads url
                [Key "MRData"; Key "RaceTable"; Key "Races"] w t Hs Hj) as H.
  cbv zeta in H.
  destruct (tree_sub t [Key "MRData"; Key "RaceTable"; Key "Races"]) as [races|e].
  - destruct H as (q' & H & Hst). rewrite <- E in H. rewrite H. cbn [fst snd store requests warnings].
    repeat split; try done. eexists. split; [done|]. by apply rep_stored.
  - rewrite <- E in H. rewrite H. by cbn [fst snd store requests warnings].
Qed.

Lemma fetch_season_200_witness :
  let out := fetch_season "3.1" ok_server (decode_as (races_doc [sample_race]))
               (AInt 2021) empty_world in
  requests (snd out) = ["https://ergast.com/api/f1/2021.json"]
  /\ warnings (snd out) = []
  /\ store (snd out) = objs 0 (races_doc [sample_race])
  /\ exists v, fst out = Ok v /\ rep (store (snd out)) v (TList [sample_race]).
Proof.
  exact (fetch_season_200 "3.1" ok_server (decode_as (races_doc [sample_race]))
           (AInt 2021) empty_world (races_doc [sample_race]) eq_refl eq_refl).
Defined.

(** X11. For a recognised session, on status 200 with a decodable body,
    [fetch_results] sends one request to [base_url/year/gp/day.json] and
    returns the entry [sel] of the first race of the document, or raises the
    exception the chain of subscripts raises on it ([IndexError] when the
    list of races is empty). *)
Theorem fetch_results_200 version server json_loads year gp session day sel w t :
  session_locals session = (Some day, Some sel) ->
  let url := base_url +:+ "/" +:+ format_arg year +:+ "/" +:+ format_arg gp
             +:+ "/" +:+ day +:+ ".json" in
  let r := server (requests w) url (_headers version) in
  status_code r = 200%Z -> json_loads (content r) = Ok t ->
  let out := fetch_results version server json_loads year gp session w in
  requests (snd out) = requests w ++ [url]
  /\ warnings (snd out) = warnings w
  /\ match tree_sub t [Key "MRData"; Key "RaceTable"; Key "Races"; Idx 0; Key sel] with
     | Ok results => exists v, fst out = Ok v /\ rep (store (snd out)) v results
     | Raise e => fst out = Raise e
     end.
Proof.
  intros Hl url r Hs Hj out.
  assert (E : out = (do r <- requests_get version server url;
                     do d <- _parse_json_response json_loads r;
                     subscripts d [Key "MRData"; Key "RaceTable"; Key "Races";
                                   Idx 0; Key sel]) w).
  { subst out. unfold fetch_results. rewrite Hl.
    unfold local, fetch_day, _parse_ergast. cbv zeta. unfold url. cbn [subscripts].
    unfold bind, ret.
    destruct (requests_get version server _ w) as [[r1|e] w1]; [|done].
    destruct (_parse_json_response json_loads r1 w1) as [[d|e] w2]; [|done].
    destruct (subscript_str d "MRData" w2) as [[x1|e] w3]; [|done].
    destruct (subscript_str x1 "RaceTable" w3) as [[x2|e] w4]; [|done].
    destruct (subscript_str x2 "Races" w4) as [[x3|e] w5]; [|done].
    destruct (subscript_int x3 0 w5) as [[x4|e] w6]; [|done].
    by destruct (subscript_str x4 sel w6) as [[x5|e] w7]. }
  pose proof (fetch_subscripts_200 version server json_loads url
                [Key "MRData"; Key "RaceTable"; Key "Races"; Idx 0; Key sel] w t Hs Hj) as H.
  cbv zeta in H.
  destruct (tree_sub t [Key "MRData"; Key "RaceTable"; Key "Races"; Idx 0; Key sel])
    as [results|e].
  - destruct H as (q' & H & Hst). rewrite <- E in H. rewrite H.
    cbn [fst snd store requests warnings].
    repeat split; try done. eexists. split; [done|]. by apply rep_stored.
  - rewrite <- E in H. rewrite H. by cbn [fst snd store requests warnings].
Qed.

Lemma fetch_results_200_witness :
  let out := fetch_results "3.1" ok_server (decode_as (races_doc []))
               (AInt 2099) (AInt 1) "Race" empty_world in
  requests (snd out) = ["https://ergast.com/api/f1/2099/1/results.json"]
  /\ warnings (snd out) = []
  /\ fst out = Raise IndexError.
Proof.
  exact (fetch_results_200 "3.1" ok_server (decode_as (races_doc []))
           (AInt 2099) (AInt 1) "Race" "results" "Results" empty_world (races_doc [])
           eq_refl eq_refl eq_refl).
Defined.

(** ** Frames built by the accessors *)

Lemma roots_rep h ts : forall q, stored_seq h q ts -> Forall2 (rep h) (roots q ts) ts.
Proof.
  induction ts as [|t ts IH]; intros q Hst; [constructor|].
  apply stored_seq_cons in Hst as [H1 H2]. constructor; [by apply rep_stored|by apply IH].
Qed.

Section Accessors.
Variable version : string.
Variable server : list string -> string -> list (string * string) -> response.
Variable json_loads : string -> result tree.
Variable fos : string -> option pyfloat.
Variable scalars : list (option value) -> list value.

(** An accessor: one request, a chain of subscripts on the decoded
    document, and the frame of what they select. *)
Lemma accessor_200 url path w t :
  let r := server (requests w) url (_headers version) in
  status_code r = 200%Z -> json_loads (content r) = Ok t -> tree_ok t = true ->
  let out := (do r <- _get version server json_loads url;
              do resp <- subscripts r path;
              ErgastResultFrame_new fos scalars VNone resp) w in
  accessor_outcome fos t path w url out.
Proof.
  intros r Hs Hj Hok out.
  set (w1 := {| store := store w ++ objs (length (store w)) t;
                requests := requests w ++ [url]; warnings := warnings w |}).
  assert (Eout : out = (do resp <- subscripts (root (length (store w)) t) path;
                        ErgastResultFrame_new fos scalars VNone resp) w1).
  { subst out. unfold bind at 1. rewrite get_run. cbv zeta. fold r.
    by rewrite Hs, Hj. }
  clearbody out. subst out. unfold accessor_outcome.
  pose proof (subscripts_stored path w1 (length (store w)) t (stored_at_alloc (store w) t))
    as Hsub.
  unfold bind.
  destruct (tree_sub t path) as [t'|e] eqn:Et.
  - destruct Hsub as (q' & Hsub & Hst'). rewrite Hsub.
    assert (Hreq : forall o w', ErgastResultFrame_new fos scalars VNone (root q' t') w1 = (o, w') ->
              requests w' = requests w ++ [url] /\ warnings w' = warnings w).
    { intros o w'. unfold ErgastResultFrame_new, bind, lift_store, read.
      destruct (_prepare_response fos (root q' t') (store w1)) as [[d|e] h'];
        intros H; injection H as H1 H2; by subst o w'. }
    destruct (ErgastResultFrame_new fos scalars VNone (root q' t') w1) as [o w'] eqn:En.
    destruct (Hreq o w' eq_refl) as [Hr1 Hr2]. cbn [fst snd].
    split; [done|]. split; [done|]. split; [done|].
    intros recs [= ->] Hraw.
    destruct (frame_new_run fos scalars w1 q' recs (tree_sub_ok _ _ _ Hok Et) Hraw Hst')
      as (data & frame & hf & rows & _ & Ef & Hpre & _ & _ & _ & Hlen & Hlab & Hback).
    cbn [root] in En. rewrite Ef in En. injection En as <- <-. cbn [store].
    exists frame, (roots (S q') recs). split; [done|]. split; [done|].
    split; [done|]. split.
    + destruct frame as [frows]. cbn [frame_rows] in *.
      rewrite (get_ergast_response_rows _ _ _ Hback).
      destruct recs; destruct frows; done.
    + apply stored_at_TList in Hst' as [_ Hseq].
      eapply Forall2_impl; [exact (roots_rep _ _ _ Hseq)|].
      intros v x Hv. by apply (rep_ext (store w1)).
  - rewrite Hsub. cbn [fst snd w1 requests warnings]. repeat split; try done.
    by intros e' [= <-].
Qed.
End Accessors.

(** X12. On status 200 with a decodable body [get_circuits] sends one request
    to [base_url + selector + '/circuits.json'], emits no warning, raises the
    exception of the subscripts ['MRData']['CircuitTable']['Circuits'] when
    the document lacks them, and for a list of accepted records returns a
    frame with one row per circuit, whose columns are the keys of the
    normalised circuits, each at its first appearance, and whose
    back-references denote the circuits received. *)
Theorem get_circuits_200 version server json_loads fos scalars self w t :
  let url := base_url +:+ _selector self +:+ "/circuits.json" in
  let r := server (requests w) url (_headers version) in
  status_code r = 200%Z -> json_loads (content r) = Ok t -> tree_ok t = true ->
  accessor_outcome fos t [Key "MRData"; Key "CircuitTable"; Key "Circuits"] w url
    (get_circuits version server json_loads fos scalars self w).
Proof.
  intros url r Hs Hj Hok.
  assert (E : get_circuits version server json_loads fos scalars self w
              = (do r <- _get version server json_loads url;
                 do resp <- subscripts r [Key "MRData"; Key "CircuitTable"; Key "Circuits"];
                 ErgastResultFrame_new fos scalars VNone resp) w).
  { unfold get_circuits. cbv zeta. unfold url. cbn [subscripts]. unfold bind, ret.
    destruct (_get version server json_loads _ w) as [[x0|e] w0]; [|done].
    destruct (subscript_str x0 "MRData" w0) as [[x1|e] w1]; [|done].
    destruct (subscript_str x1 "CircuitTable" w1) as [[x2|e] w2]; [|done].
    by destruct (subscript_str x2 "Circuits" w2) as [[x3|e] w3]. }
  rewrite E. by apply accessor_200.
Qed.

Lemma get_circuits_200_witness :
  accessor_outcome float_of_digits (circuits_doc [sample_circuit])
    [Key "MRData"; Key "CircuitTable"; Key "Circuits"] empty_world
    (base_url +:+ "/2021" +:+ "/circuits.json")
    (get_circuits "3.1" ok_server (decode_as (circuits_doc [sample_circuit]))
       float_of_digits scalars_as_given {| _selector := "/2021" |} empty_world).
Proof.
  exact (get_circuits_200 "3.1" ok_server (decode_as (circuits_doc [sample_circuit]))
           float_of_digits scalars_as_given {| _selector := "/2021" |} empty_world
           (circuits_doc [sample_circuit]) eq_refl eq_refl eq_refl).
Defined.

(** X13. [get_driver_standings] and [get_constructor_standings] read only the
    first element of ['StandingsLists'], under ['DriverStandings'] and
    ['ConstructorStandings'] respectively: the frame has one row per record
    of that list, the keys of its normalised records as columns, and
    back-references that denote these records; an error of the chain of
    subscripts is raised as it is. *)
Theorem standings_use_first_list version server json_loads fos scalars self w t :
  tree_ok t = true ->
  (let url := base_url +:+ _selector self +:+ "/driverStandings.json" in
   let r := server (requests w) url (_headers version) in
   status_code r = 200%Z -> json_loads (content r) = Ok t ->
   accessor_outcome fos t
     [Key "MRData"; Key "StandingsTable"; Key "StandingsLists"; Idx 0;
      Key "DriverStandings"] w url
     (get_driver_standings version server json_loads fos scalars self w))
  /\ (let url := base_url +:+ _selector self +:+ "/constructorStandings.json" in
      let r := server (requests w) url (_headers version) in
      status_code r = 200%Z -> json_loads (content r) = Ok t ->
      accessor_outcome fos t
        [Key "MRData"; Key "StandingsTable"; Key "StandingsLists"; Idx 0;
         Key "ConstructorStandings"] w url
        (get_constructor_standings version server json_loads fos scalars self w)).
Proof.
  intros Hok. split; intros url r Hs Hj.
  - assert (E : get_driver_standings version server json_loads fos scalars self w
                = (do r <- _get version server json_loads url;
                   do resp <- subscripts r [Key "MRData"; Key "StandingsTable";
                                            Key "StandingsLists"; Idx 0;
                                            Key "DriverStandings"];
                   ErgastResultFrame_new fos scalars VNone resp) w).
    { unfold get_driver_standings. cbv zeta. unfold url. cbn [subscripts].
      unfold bind, ret.
      destruct (_get version server json_loads _ w) as [[x0|e] w0]; [|done].
      destruct (subscript_str x0 "MRData" w0) as [[x1|e] w1]; [|done].
      destruct (subscript_str x1 "StandingsTable" w1) as [[x2|e] w2]; [|done].
      destruct (subscript_str x2 "StandingsLists" w2) as [[x3|e] w3]; [|done].
      destruct (subscript_int x3 0 w3) as [[x4|e] w4]; [|done].
      by destruct (subscript_str x4 "DriverStandings" w4) as [[x5|e] w5]. }
    rewrite E. by apply accessor_200.
  - assert (E : get_constructor_standings version server json_loads fos scalars self w
                = (do r <- _get version server json_loads url;
                   do resp <- subscripts r [Key "MRData"; Key "StandingsTable";
                                            Key "StandingsLists"; Idx 0;
                                            Key "ConstructorStandings"];
                   ErgastResultFrame_new fos scalars VNone resp) w).
    { unfold get_constructor_standings. cbv zeta. unfold url. cbn [subscripts].
      unfold bind, ret.
      destruct (_get version server json_loads _ w) as [[x0|e] w0]; [|done].
      destruct (subscript_str x0 "MRData" w0) as [[x1|e] w1]; [|done].
      destruct (subscript_str x1 "StandingsTable" w1) as [[x2|e] w2]; [|done].
      destruct (subscript_str x2 "StandingsLists" w2) as [[x3|e] w3]; [|done].
      destruct (subscript_int x3 0 w3) as [[x4|e] w4]; [|done].
      by destruct (subscript_str x4 "ConstructorStandings" w4) as [[x5|e] w5]. }
    rewrite E. by apply accessor_200.
Qed.

Lemma standings_use_first_list_witness :
  let doc := standings_doc [TDict [("DriverStandings", TList [sample_standing])];
                            TDict [("DriverStandings", TList [])]] in
  accessor_outcome float_of_digits doc
    [Key "MRData"; Key "StandingsTable"; Key "StandingsLists"; Idx 0;
     Key "DriverStandings"] empty_world
    (base_url +:+ "/2021" +:+ "/driverStandings.json")
    (get_driver_standings "3.1" ok_server (decode_as doc) float_of_digits scalars_as_given
       {| _selector := "/2021" |} empty_world).
Proof.
  exact (proj1 (standings_use_first_list "3.1" ok_server
                  (decode_as (standings_doc
                     [TDict [("DriverStandings", TList [sample_standing])];
                      TDict [("DriverStandings", TList [])]]))
                  float_of_digits scalars_as_given {| _selector := "/2021" |} empty_world
                  (standings_doc [TDict [("DriverStandings", TList [sample_standing])];
                                  TDict [("DriverStandings", TList [])]])
                  eq_refl) eq_refl eq_refl).
Defined.

(** X15. A row taken from a frame, as an [ErgastResultSeries] with the same
    ['__ErgastResponse'] entry, answers [get_ergast_response] with the very
    object the frame was built from at that position, not with a copy. *)
Theorem series_response_is_original fos scalars w p recs :
  tree_ok (TList recs) = true ->
  forallb (raw_record fos) recs = true ->
  stored_at (store w) p (TList recs) ->
  exists frame w' originals,
    ErgastResultFrame_new fos scalars VNone (VRef p) w = (Ok frame, w')
    /\ store w !! p = Some (OList originals)
    /\ length (frame_rows frame) = length originals
    /\ forall i items s,
         frame_rows frame !! i = Some items ->
         alist_get "__ErgastResponse" (series_items s)
         = alist_get "__ErgastResponse" items ->
         exists orig, originals !! i = Some orig
                      /\ series_get_ergast_response (store w') s = Ok (Some orig).
Proof.
  intros Hok Hraw Hst.
  destruct (frame_new_run fos scalars w p recs Hok Hraw Hst)
    as (data & frame & hf & rows & _ & E & Hpre & _ & _ & _ & _ & _ & Hback).
  exists frame, {| store := hf; requests := requests w; warnings := warnings w |},
    (roots (S p) recs).
  split; [done|]. split; [by apply stored_at_TList in Hst as [-> _]|].
  split; [exact (Forall2_length _ _ _ Hback)|].
  intros i items s Hi Hs.
  destruct (Forall2_lookup_l _ _ _ _ _ Hback Hi) as (orig & Ho & a & Ea & Eitem).
  exists orig. split; [done|].
  unfold series_get_ergast_response. rewrite Hs, Ea. simpl. by rewrite Eitem.
Qed.

Lemma series_response_is_original_witness :
  exists frame w' originals,
    ErgastResultFrame_new float_of_digits scalars_as_given VNone (VRef 0) sample_world = (Ok frame, w')
    /\ store sample_world !! 0 = Some (OList originals)
    /\ length (frame_rows frame) = length originals
    /\ forall i items s,
         frame_rows frame !! i = Some items ->
         alist_get "__ErgastResponse" (series_items s)
         = alist_get "__ErgastResponse" items ->
         exists orig, originals !! i = Some orig
                      /\ series_get_ergast_response (store w') s = Ok (Some orig).
Proof.
  apply (series_response_is_original float_of_digits scalars_as_given sample_world 0
           sample_records);
    [reflexivity | reflexivity | exact sample_stored].
Defined.

Lemma list_remove_filter x l :
  existsb (String.eqb x) l = true ->
  exists r, list_remove x l = Ok r
            /\ List.filter (fun c => negb (String.eqb x c)) r
               = List.filter (fun c => negb (String.eqb x c)) l
            /\ length l = S (length r)
            /\ (NoDup l -> r = List.filter (fun c => negb (String.eqb x c)) l).
Proof.
  induction l as [|y l IH]; simpl; [done|].
  destruct (String.eqb x y) eqn:E; simpl.
  - intros _. exists l. split; [done|]. split; [done|]. split; [done|].
    intros Hnd. apply NoDup_cons in Hnd as [Hy _]. apply String.eqb_eq in E as ->.
    clear -Hy. induction l as [|z l IH]; simpl; [done|].
    apply not_elem_of_cons in Hy as [Hne Hy].
    apply String.eqb_neq in Hne. rewrite Hne. simpl. by rewrite <- IH.
  - intros H. destruct (IH H) as (r & -> & Hf & Hlen & Hnd).
    exists (y :: r). split; [done|]. simpl. rewrite E. simpl.
    split; [by rewrite Hf|]. split; [by rewrite Hlen|].
    intros Hn. apply NoDup_cons in Hn as [_ Hn]. by rewrite <- Hnd.
Qed.

(** X14. The columns [__repr__] shows are computed without an error; every
    column other than ['__ErgastResponse'] is kept, in its place among the
    others, and with distinct column names no ['__ErgastResponse'] is
    left. *)
Theorem view_cols_hides_the_response columns :
  let shown c := negb (String.eqb "__ErgastResponse" c) in
  exists cols,
    view_cols columns = Ok cols
    /\ List.filter shown cols = List.filter shown columns
    /\ (NoDup columns -> cols = List.filter shown columns /\ ~ In "__ErgastResponse" cols).
Proof.
  intros shown. unfold view_cols.
  destruct (existsb (String.eqb "__ErgastResponse") columns) eqn:E.
  - destruct (list_remove_filter _ _ E) as (r & -> & Hf & _ & Hnd).
    exists r. split; [done|]. split; [done|]. intros Hn. split; [by apply Hnd|].
    rewrite (Hnd Hn). intros [_ Hin]%List.filter_In. by rewrite String.eqb_refl in Hin.
  - exists columns. split; [done|]. split; [done|]. intros _.
    assert (Hall : forall c, In c columns -> shown c = true).
    { intros c Hc. unfold shown. destruct (String.eqb "__ErgastResponse" c) eqn:Ec; [|done].
      assert (existsb (String.eqb "__ErgastResponse") columns = true); [|congruence].
      apply existsb_exists. eauto. }
    split.
    + clear E. induction columns as [|c cs IH]; [done|]. simpl.
      rewrite (Hall c) by (by left). f_equal. apply IH. intros c' Hc'. apply Hall. by right.
    + intros Hin. specialize (Hall _ Hin). unfold shown in Hall.
      by rewrite String.eqb_refl in Hall.
Qed.

(** ** [fetch_weekend] *)

Lemma keeps_bind {A B} (m : M world A) (k : A -> M world B) :
  keeps_warnings m -> (forall a, keeps_warnings (k a)) -> keeps_warnings (bind m k).
Proof.
  intros Hm Hk w. unfold bind. destruct (Hm w) as [r1 H1].
  destruct (m w) as [[a|e] w1]; simpl in *.
  - destruct (Hk a w1) as [r2 H2]. exists (r1 ++ r2). by rewrite H2, H1, app_assoc.
  - by exists r1.
Qed.

Lemma keeps_ret {A} (a : A) : keeps_warnings (ret a).
Proof. intros w. exists []. by rewrite app_nil_r. Qed.

Lemma keeps_read {A} (f : world -> result A) : keeps_warnings (read f).
Proof. intros w. exists []. by rewrite app_nil_r. Qed.

Lemma keeps_lift_store {A} (m : M (list obj) A) : keeps_warnings (lift_store m).
Proof.
  intros w. exists []. unfold lift_store. destruct (m (store w)) as [r h'].
  by rewrite app_nil_r.
Qed.

Lemma keeps_warn msg : keeps_warnings (warn msg).
Proof. intros w. by exists [msg]. Qed.

Lemma keeps_requests_get version server url :
  keeps_warnings (requests_get version server url).
Proof. intros w. exists []. by rewrite app_nil_r. Qed.

Lemma keeps_requests_post post url body : keeps_warnings (requests_post post url body).
Proof. intros w. exists []. by rewrite app_nil_r. Qed.

Lemma keeps_parse_json_response json_loads r :
  keeps_warnings (_parse_json_response json_loads r).
Proof.
  unfold _parse_json_response. destruct (Z.eqb (status_code r) 200).
  - destruct (json_loads (content r)); [apply keeps_lift_store|].
    intros w. exists []. by rewrite app_nil_r.
  - apply keeps_bind; [apply keeps_warn|intros; apply keeps_ret].
Qed.

Lemma keeps_subscript_str v k : keeps_warnings (subscript_str v k).
Proof. apply keeps_read. Qed.

Lemma keeps_subscript_int v i : keeps_warnings (subscript_int v i).
Proof. apply keeps_read. Qed.

Lemma keeps_parse_ergast d : keeps_warnings (_parse_ergast d).
Proof.
  unfold _parse_ergast.
  repeat (apply keeps_bind; [apply keeps_subscript_str|intros ?]).
  apply keeps_subscript_str.
Qed.

(** X16. [fetch_weekend] emits its deprecation warning before anything else,
    whatever happens afterwards; when the status is not 200 it then warns
    ['Request returned: <status>'] and raises [TypeError] from subscripting
    [None], having sent one request and changed no object. *)
Theorem fetch_weekend_warns_first version get post json_loads year gp w :
  let url := base_url +:+ "/" +:+ format_arg year +:+ "/" +:+ format_arg gp
             +:+ ".json" in
  let r := get (requests w) url (_headers version) in
  let out := fetch_weekend version get post json_loads year gp w in
  (exists rest, warnings (snd out) = warnings w ++ fetch_weekend_warning :: rest)
  /\ (status_code r <> 200%Z ->
        out = (Raise TypeError,
               {| store := store w; requests := requests w ++ [url];
                  warnings := warnings w
                              ++ [fetch_weekend_warning;
                                  "Request returned: "
                                  +:+ format_arg (AInt (status_code r))] |})).
Proof.
  intros url r out. split.
  - subst out. unfold fetch_weekend. unfold bind at 1. unfold warn at 1.
    match goal with
    | |- context [snd (?k ?w1)] =>
        assert (keeps_warnings k) as Hk
    end.
    { cbv zeta.
      repeat first
        [ apply keeps_bind; [|intros ?]
        | apply keeps_requests_get | apply keeps_requests_post
        | apply keeps_parse_json_response | apply keeps_parse_ergast
        | apply keeps_subscript_str | apply keeps_subscript_int
        | apply keeps_lift_store | apply keeps_ret ]. }
    match goal with
    | |- context [snd (?k ?w1)] => destruct (Hk w1) as [rest Hrest]
    end.
    exists rest. rewrite Hrest. cbn [warnings]. by rewrite <- app_assoc.
  - intros Hr. subst out. unfold fetch_weekend, bind, warn, requests_get,
      _parse_json_response. cbv zeta. cbn [requests store warnings]. fold url. fold r.
    apply Z.eqb_neq in Hr. rewrite Hr. simpl. by rewrite <- app_assoc.
Qed.

Lemma bind_ok {S A B} (m : M S A) (k : A -> M S B) s a s' :
  m s = (Ok a, s') -> bind m k s = k a s'.
Proof. intros H. unfold bind. by rewrite H. Qed.

Lemma getitem_str_stored_lt h q kvs k t :
  stored_at h q (TDict kvs) -> alist_get k kvs = Some t ->
  exists q', q < q' /\ getitem_str h (VRef q) k = Ok (root q' t) /\ stored_at h q' t.
Proof.
  intros Hst Hk. apply stored_at_TDict in Hst as [Hq Hst]. simpl. rewrite Hq.
  pose proof (dict_items_lookup kvs k (S q)) as Hl. rewrite Hk in Hl.
  destruct Hl as (q' & -> & Hlt & Hs). exists q'. split; [lia|]. split; [done|].
  by apply Hs.
Qed.

Lemma getitem_str_same (h h' : list obj) l k :
  h' !! l = h !! l -> getitem_str h' (VRef l) k = getitem_str h (VRef l) k.
Proof. intros H. simpl. by rewrite H. Qed.

Lemma subscript_str_run v k w x :
  getitem_str (store w) v k = Ok x -> subscript_str v k w = (Ok x, w).
Proof. intros H. unfold subscript_str, read. by rewrite H. Qed.

Lemma tree_getitem_Ok t k x :
  tree_getitem t k = Ok x -> exists kvs, t = TDict kvs /\ alist_get k kvs = Some x.
Proof.
  destruct t as [ | | | | | |kvs| ]; try done. simpl.
  destruct (alist_get k kvs) as [y|] eqn:E; [|done]. intros [= ->]. eauto.
Qed.

Lemma tree_sub_str path : forall s t', tree_sub (TStr s) path = Ok t' -> tsize t' = 0.
Proof.
  induction path as [|[k|i] path IH]; intros s t' H; simpl in H.
  - by injection H as <-.
  - done.
  - destruct (list_ascii_of_string s !! i) as [c|]; [|done]. by apply (IH _ _ H).
Qed.

(** The objects a chain of subscripts reaches lie after the object it
    starts from. *)
Lemma subscripts_bound path : forall w q t t' l,
  stored_at (store w) q t -> tree_sub t path = Ok t' ->
  subscripts (root q t) path w = (Ok (VRef l), w) -> 0 < tsize t' -> q <= l.
Proof.
  induction path as [|[k|i] path IH]; intros w q t t' l Hst Ht Hrun Hpos; simpl in *.
  - injection Ht as ->. unfold ret in Hrun. injection Hrun as Hr.
    by apply root_ref in Hr as [-> _].
  - destruct (tree_getitem t k) as [t1|] eqn:E; [|done].
    apply tree_getitem_Ok in E as (kvs & -> & E).
    destruct (getitem_str_stored_lt _ _ _ _ _ Hst E) as (q1 & Hlt & G & S1).
    rewrite (bind_ok _ _ _ _ _ (subscript_str_run _ _ w _ G)) in Hrun.
    pose proof (IH w q1 t1 t' l S1 Ht Hrun Hpos). lia.
  - destruct (tree_index t i) as [t1|] eqn:E; [|done].
    destruct t as [ | | | |s|ts| | ]; try done; simpl in E.
    + destruct (list_ascii_of_string s !! i) as [c|]; [|done]. injection E as <-.
      apply tree_sub_str in Ht. lia.
    + destruct (ts !! i) as [x|] eqn:Ei; [|done]. injection E as ->.
      apply stored_at_TList in Hst as [Hq Hst].
      assert (G : subscript_int (VRef q) i w
                  = (Ok (root (S q + list_sum (map tsize (take i ts))) t1), w)).
      { unfold subscript_int, read. simpl. by rewrite Hq, (roots_lookup _ _ _ _ Ei). }
      rewrite (bind_ok _ _ _ _ _ G) in Hrun.
      pose proof (IH w _ t1 t' l (stored_seq_lookup _ _ _ _ _ Hst Ei) Ht Hrun Hpos). lia.
Qed.

(** The objects of an entry of a stored dictionary lie inside the objects
    of the dictionary. *)
Lemma dict_items_child kvs k c : forall q qk,
  alist_get k kvs = Some c -> 0 < tsize c ->
  alist_get k (dict_items q kvs) = Some (VRef qk) ->
  q <= qk /\ qk + tsize c <= q + list_sum (map tsize (map snd kvs)).
Proof.
  induction kvs as [|[k' t'] kvs IH]; intros q qk Hk Hc Hq; simpl in *; [done|].
  destruct (String.eqb k k').
  - injection Hk as ->. injection Hq as Hq. apply root_ref in Hq as [-> _]. lia.
  - destruct (IH (q + tsize t') qk Hk Hc Hq). lia.
Qed.

Lemma child_region h q kvs k c qk :
  stored_at h q (TDict kvs) -> alist_get k kvs = Some c -> 0 < tsize c ->
  getitem_str h (VRef q) k = Ok (VRef qk) ->
  q < qk /\ qk + tsize c <= q + tsize (TDict kvs).
Proof.
  intros Hst Hk Hc Hg. apply stored_at_TDict in Hst as [Hq _].
  simpl in Hg. rewrite Hq in Hg.
  destruct (alist_get k (dict_items (S q) kvs)) as [x|] eqn:E; [|done].
  injection Hg as ->. destruct (dict_items_child _ _ _ _ _ Hk Hc E).
  rewrite tsize_TDict. lia.
Qed.

(** A stored dictionary after a write to one object inside its entry [k]:
    the other entries denote what they denoted. *)
Lemma items_rep_child (h h' : list obj) ql kvs k c c' : forall q qk,
  stored_seq h q (map snd kvs) ->
  alist_get k kvs = Some c -> 0 < tsize c ->
  alist_get k (dict_items q kvs) = Some (VRef qk) ->
  qk <= ql < qk + tsize c ->
  (forall l, l <> ql -> h' !! l = h !! l) ->
  rep h' (VRef qk) c' ->
  items_rep h' (dict_items q kvs) (alist_set k c' kvs).
Proof.
  induction kvs as [|[k' t'] kvs IH]; intros q qk Hst Hk Hc Hq Hql Hne Hr;
    simpl in *; [done|].
  apply stored_seq_cons in Hst as [H1 H2].
  destruct (String.eqb k k') eqn:E.
  - injection Hk as ->. injection Hq as Hq. pose proof Hq as Hq'.
    apply root_ref in Hq' as [-> _]. apply String.eqb_eq in E as <-. constructor.
    + split; [done|]. simpl. by rewrite Hq.
    + apply items_rep_stored. eapply stored_seq_agree; [|exact H2].
      intros l Hl. apply Hne. lia.
  - destruct (dict_items_child _ _ _ _ _ Hk Hc Hq) as [Hlo _].
    constructor.
    + split; [done|]. apply rep_stored. eapply stored_at_agree; [|exact H1].
      intros l Hl. apply Hne. simpl in Hl. lia.
    + by apply (IH (q + tsize t') qk).
Qed.

Lemma rep_dict_child (h h' : list obj) q kvs k c c' qk ql :
  stored_at h q (TDict kvs) -> alist_get k kvs = Some c -> 0 < tsize c ->
  getitem_str h (VRef q) k = Ok (VRef qk) ->
  qk <= ql < qk + tsize c ->
  (forall l, l <> ql -> h' !! l = h !! l) ->
  rep h' (VRef qk) c' ->
  rep h' (VRef q) (TDict (alist_set k c' kvs)).
Proof.
  intros Hst Hk Hc Hg Hql Hne Hr.
  destruct (child_region _ _ _ _ _ _ Hst Hk Hc Hg) as [Hlt _].
  apply stored_at_TDict in Hst as [Hq Hseq].
  simpl in Hg. rewrite Hq in Hg.
  destruct (alist_get k (dict_items (S q) kvs)) as [x|] eqn:E; [|done].
  injection Hg as ->.
  apply (rep_dict _ _ (dict_items (S q) kvs)).
  - rewrite Hne by lia. done.
  - by apply (items_rep_child h h' ql kvs k c c' (S q) qk).
Qed.

Section WeekendFacts.
Variable version : string.
Variable get : list string -> string -> list (string * string) -> response.
Variable post : list string -> string -> list obj -> value -> response.
Variable json_loads : string -> result tree.

(** X17. When both requests succeed and the documents have the entries that
    are read, [fetch_weekend] returns the first race of the document, whole,
    with ['alt'] set in the dictionary under ['Circuit']['Location'] to the
    ['elevation'] of the second answer and nothing else changed in it; the
    requests are the Ergast URL and then the elevation service, the only
    warning is the deprecation warning and no older object is changed. *)
Theorem fetch_weekend_adds_altitude year gp w t race lkvs lo la t2 e :
  let url := base_url +:+ "/" +:+ format_arg year +:+ "/" +:+ format_arg gp
             +:+ ".json" in
  let r := get (requests w) url (_headers version) in
  status_code r = 200%Z -> json_loads (content r) = Ok t ->
  tree_sub t [Key "MRData"; Key "RaceTable"; Key "Races"; Idx 0] = Ok race ->
  tree_sub race [Key "Circuit"; Key "Location"] = Ok (TDict lkvs) ->
  alist_get "long" lkvs = Some lo -> alist_get "lat" lkvs = Some la ->
  (forall h body,
     rep h body (TDict [("longitude", lo); ("latitude", la)]) ->
     let r2 := post (requests w ++ [url]) elevation_url h body in
     status_code r2 = 200%Z /\ json_loads (content r2) = Ok t2) ->
  tree_getitem t2 "elevation" = Ok e ->
  let out := fetch_weekend version get post json_loads year gp w in
  exists data circuit loc items,
    fst out = Ok data
    /\ rep (store (snd out)) data
         (tree_at ["Circuit"; "Location"] (fun l => tree_setitem l "alt" e) race)
    /\ requests (snd out) = requests w ++ [url; elevation_url]
    /\ warnings (snd out) = warnings w ++ [fetch_weekend_warning]
    /\ getitem_str (store (snd out)) data "Circuit" = Ok circuit
    /\ getitem_str (store (snd out)) circuit "Location" = Ok (VRef loc)
    /\ store (snd out) !! loc = Some (ODict items)
    /\ items_rep (store (snd out)) items (alist_set "alt" e lkvs)
    /\ forall l o, store w !! l = Some o -> store (snd out) !! l = Some o.
Proof.
  intros url r Hs Hj Hrace Hloc Hlo Hla Hpost He out.
  (* the documents *)
  simpl in Hloc.
  destruct (tree_getitem race "Circuit") as [circ|] eqn:Ec; [|done].
  destruct (tree_getitem circ "Location") as [loc0|] eqn:El; [|done].
  injection Hloc as ->.
  apply tree_getitem_Ok in Ec as (rkvs & -> & Ec).
  apply tree_getitem_Ok in El as (ckvs & -> & El).
  apply tree_getitem_Ok in He as (kvs2 & -> & He).
  (* the first request *)
  set (b := length (store w)).
  set (h3 := store w ++ objs b t).
  set (wn := warnings w ++ [fetch_weekend_warning]).
  set (w3 := {| store := h3; requests := requests w ++ [url]; warnings := wn |}).
  pose proof (subscripts_stored [Key "MRData"; Key "RaceTable"; Key "Races"; Idx 0]
                w3 b t (stored_at_alloc (store w) t)) as Hsub.
  rewrite Hrace in Hsub. destruct Hsub as (qr & Hsub & Sr). cbn [root] in Hsub.
  cbn [store w3] in Sr.
  destruct (getitem_str_stored_lt _ _ _ _ _ Sr Ec) as (qc & Hrc & Gc & Sc).
  destruct (getitem_str_stored_lt _ _ _ _ _ Sc El) as (ql & Hcl & Gl & Sl).
  cbn [root] in Gc, Gl.
  destruct (getitem_str_stored_lt _ _ _ _ _ Sl Hlo) as (qlo & _ & Glo & Slo).
  destruct (getitem_str_stored_lt _ _ _ _ _ Sl Hla) as (qla & _ & Gla & Sla).
  assert (Hql : ql < length h3).
  { pose proof (stored_at_lt _ _ _ Sl) as H. rewrite tsize_TDict in H. lia. }
  (* the form and the second request *)
  set (body := ODict [("longitude", root qlo lo); ("latitude", root qla la)]).
  set (h4 := h3 ++ [body]).
  assert (Hbody : rep h4 (VRef (length h3)) (TDict [("longitude", lo); ("latitude", la)])).
  { apply (rep_dict _ _ [("longitude", root qlo lo); ("latitude", root qla la)]).
    - unfold h4. by rewrite list_lookup_middle.
    - repeat constructor; simpl; try done; apply rep_stored; by apply stored_at_app. }
  destruct (Hpost h4 (VRef (length h3)) Hbody) as [Hs2 Hj2].
  set (r2 := post (requests w ++ [url]) elevation_url h4 (VRef (length h3))) in *.
  set (b2 := length h4).
  set (h6 := h4 ++ objs b2 (TDict kvs2)).
  destruct (getitem_str_stored_lt h6 b2 kvs2 "elevation" e
              (stored_at_alloc h4 (TDict kvs2)) He) as (qe & Hqe & Ge & Se).
  assert (Hlen4 : length h4 = S (length h3)).
  { unfold h4. rewrite length_app. simpl. lia. }
  assert (Hsame : forall l, l < length h3 -> h6 !! l = h3 !! l).
  { intros l Hl. unfold h6, h4. rewrite !lookup_app_l; [done| |];
      rewrite ?length_app; simpl; lia. }
  set (items := alist_set "alt" (root qe e) (dict_items (S ql) lkvs)).
  set (h7 := <[ql := ODict items]> h6).
  assert (Hrow6 : h6 !! ql = Some (ODict (dict_items (S ql) lkvs))).
  { rewrite Hsame by done. by apply stored_at_TDict in Sl as [-> _]. }
  (* the run *)
  assert (Hqr : qr < length h3).
  { pose proof (stored_at_lt _ _ _ Sr) as H. rewrite tsize_TDict in H. lia. }
  assert (Eout : out = (Ok (VRef qr),
                        {| store := h7; requests := requests w ++ [url; elevation_url];
                           warnings := wn |})).
  { subst out. unfold fetch_weekend. cbv zeta.
    rewrite (bind_ok (warn fetch_weekend_warning) _ w tt
               {| store := store w; requests := requests w; warnings := wn |} eq_refl).
    rewrite (bind_ok (requests_get version get url) _
               {| store := store w; requests := requests w; warnings := wn |} r
               {| store := store w; requests := requests w ++ [url]; warnings := wn |}
               eq_refl).
    rewrite (bind_ok (_parse_json_response json_loads r) _
               {| store := store w; requests := requests w ++ [url]; warnings := wn |}
               (root b t) w3
               (parse_json_response_200 json_loads r _ t Hs Hj)).
    assert (E4 : forall K : value -> M world value,
               (do races <- _parse_ergast (root b t);
                do data <- subscript_int races 0; K data) w3 = K (VRef qr) w3).
    { intros K. revert Hsub. unfold _parse_ergast. cbn [subscripts]. unfold bind, ret.
      destruct (subscript_str (root b t) "MRData" w3) as [[x1|e1] w31]; [|done].
      destruct (subscript_str x1 "RaceTable" w31) as [[x2|e2] w32]; [|done].
      destruct (subscript_str x2 "Races" w32) as [[x3|e3] w33]; [|done].
      destruct (subscript_int x3 0 w33) as [[x4|e4] w34]; [|done].
      by intros [= -> ->]. }
    rewrite E4.
    rewrite (bind_ok _ _ _ _ _ (subscript_str_run (VRef qr) "Circuit" w3 _ Gc)).
    rewrite (bind_ok _ _ _ _ _ (subscript_str_run (VRef qc) "Location" w3 _ Gl)).
    rewrite (bind_ok _ _ _ _ _ (subscript_str_run (VRef ql) "long" w3 _ Glo)).
    rewrite (bind_ok _ _ _ _ _ (subscript_str_run (VRef ql) "lat" w3 _ Gla)).
    rewrite (bind_ok (lift_store (alloc body)) _ w3 (VRef (length h3))
               {| store := h4; requests := requests w ++ [url]; warnings := wn |}
               eq_refl).
    rewrite (bind_ok (requests_post post elevation_url (VRef (length h3))) _
               {| store := h4; requests := requests w ++ [url]; warnings := wn |} r2
               {| store := h4; requests := (requests w ++ [url]) ++ [elevation_url];
                  warnings := wn |} eq_refl).
    rewrite (bind_ok (_parse_json_response json_loads r2) _
               {| store := h4; requests := (requests w ++ [url]) ++ [elevation_url];
                  warnings := wn |}
               (root b2 (TDict kvs2))
               {| store := h6; requests := (requests w ++ [url]) ++ [elevation_url];
                  warnings := wn |}
               (parse_json_response_200 json_loads r2 _ (TDict kvs2) Hs2 Hj2)).
    cbn [root].
    set (w6 := {| store := h6; requests := (requests w ++ [url]) ++ [elevation_url];
                  warnings := wn |}).
    rewrite (bind_ok _ _ _ _ _ (subscript_str_run (VRef b2) "elevation" w6 _ Ge)).
    rewrite (bind_ok (subscript_str (VRef qr) "Circuit") _ w6 (VRef qc) w6).
    2: { apply subscript_str_run. cbn [store w6].
         rewrite (getitem_str_same h3 h6) by (apply Hsame; lia). exact Gc. }
    rewrite (bind_ok (subscript_str (VRef qc) "Location") _ w6 (VRef ql) w6).
    2: { apply subscript_str_run. cbn [store w6].
         rewrite (getitem_str_same h3 h6) by (apply Hsame; lia). exact Gl. }
    rewrite (bind_ok (lift_store (setitem_str (VRef ql) "alt" (root qe e))) _ w6 tt
               {| store := h7; requests := (requests w ++ [url]) ++ [elevation_url];
                  warnings := wn |}).
    2: { unfold lift_store, setitem_str. cbn [store w6]. by rewrite Hrow6. }
    unfold ret. by rewrite <- app_assoc. }
  rewrite Eout. cbn [fst snd store requests warnings].
  exists (VRef qr), (VRef qc), ql, items.
  assert (Hne : forall l, l <> ql -> h7 !! l = h6 !! l).
  { intros l Hl. unfold h7. by rewrite list_lookup_insert_ne. }
  assert (H7l : h7 !! ql = Some (ODict items)).
  { unfold h7. apply list_lookup_insert_eq. unfold h6, h4. rewrite !length_app. lia. }
  assert (Hitems : items_rep h7 items (alist_set "alt" e lkvs)).
  { unfold items. apply items_rep_set.
    + pose proof (stored_at_lt h3 ql (TDict lkvs) Sl) as H. rewrite tsize_TDict in H.
      specialize (H ltac:(lia)).
      apply items_rep_stored. apply stored_at_TDict in Sl as [_ Sl'].
      eapply stored_seq_agree; [|exact Sl']. intros l Hl.
      rewrite Hne by lia. apply Hsame. lia.
    + apply rep_stored. eapply stored_at_agree; [|exact Se]. intros l Hl.
      apply Hne. unfold b2 in Hqe. lia. }
  split; [done|]. split; [|split; [done|split; [done|]]].
  { (* the race, with the altitude in its place *)
    assert (S6 : forall q x, stored_at h3 q x -> 0 < tsize x -> stored_at h6 q x).
    { intros q x Sx Hx. eapply stored_at_agree; [|exact Sx]. intros l Hl.
      apply Hsame. pose proof (stored_at_lt _ _ _ Sx Hx). lia. }
    assert (Hpos : forall kvs, 0 < tsize (TDict kvs)) by (intros; simpl; lia).
    assert (G6c : getitem_str h6 (VRef qr) "Circuit" = Ok (VRef qc)).
    { rewrite (getitem_str_same h3 h6) by (apply Hsame; lia). exact Gc. }
    assert (G6l : getitem_str h6 (VRef qc) "Location" = Ok (VRef ql)).
    { rewrite (getitem_str_same h3 h6) by (apply Hsame; lia). exact Gl. }
    destruct (child_region h6 qc ckvs "Location" (TDict lkvs) ql
                (S6 _ _ Sc (Hpos _)) El (Hpos _) G6l) as [_ Hin].
    cbn [tree_at tree_setitem]. rewrite Ec. cbn [tree_at]. rewrite El.
    apply (rep_dict_child h6 h7 qr rkvs "Circuit" (TDict ckvs) _ qc ql
             (S6 _ _ Sr (Hpos _)) Ec (Hpos _) G6c);
      [pose proof (Hpos lkvs); lia|exact Hne|].
    apply (rep_dict_child h6 h7 qc ckvs "Location" (TDict lkvs) _ ql ql
             (S6 _ _ Sc (Hpos _)) El (Hpos _) G6l);
      [pose proof (Hpos lkvs); lia|exact Hne|].
    by apply (rep_dict _ _ items). }
  split; [|split; [|split; [done|split; [done|]]]].
  - rewrite (getitem_str_same h6 h7) by (apply Hne; lia).
    rewrite (getitem_str_same h3 h6) by (apply Hsame; lia). exact Gc.
  - rewrite (getitem_str_same h6 h7) by (apply Hne; lia).
    rewrite (getitem_str_same h3 h6) by (apply Hsame; lia). exact Gl.
  - intros l o Hl. rewrite Hne.
    + rewrite Hsame by (apply lookup_lt_Some in Hl; unfold h3; rewrite length_app; lia).
      unfold h3. by apply lookup_app_l_Some.
    + apply lookup_lt_Some in Hl. fold b in Hl.
      pose proof (stored_at_lt h3 b t (stored_at_alloc (store w) t)) as Hb.
      assert (b <= qr); [|lia].
      apply (subscripts_bound _ w3 b t (TDict rkvs) qr (stored_at_alloc (store w) t)
               Hrace Hsub).
      rewrite tsize_TDict. lia.
Qed.
End WeekendFacts.

Lemma fetch_weekend_adds_altitude_witness :
  let out := fetch_weekend "3.1" race_server elevation_server weekend_decoder
               (AInt 2021) (AInt 12) empty_world in
  exists data circuit loc items,
    fst out = Ok data
    /\ rep (store (snd out)) data
         (TDict [("raceName", TStr "Belgian Grand Prix");
                 ("Circuit",
                  TDict [("circuitId", TStr "spa");
                         ("Location", TDict [("lat", TStr "50"); ("long", TStr "5");
                                             ("alt", TInt 401)])]);
                 ("Results", TList [TDict [("position", TStr "1")]])])
    /\ requests (snd out)
       = [] ++ [base_url +:+ "/" +:+ "2021" +:+ "/" +:+ "12" +:+ ".json"; elevation_url]
    /\ warnings (snd out) = [] ++ [fetch_weekend_warning]
    /\ getitem_str (store (snd out)) data "Circuit" = Ok circuit
    /\ getitem_str (store (snd out)) circuit "Location" = Ok (VRef loc)
    /\ store (snd out) !! loc = Some (ODict items)
    /\ items_rep (store (snd out)) items
         [("lat", TStr "50"); ("long", TStr "5"); ("alt", TInt 401)]
    /\ forall l o, @nil obj !! l = Some o -> store (snd out) !! l = Some o.
Proof.
  apply (fetch_weekend_adds_altitude "3.1" race_server elevation_server weekend_decoder
           (AInt 2021) (AInt 12) empty_world (races_doc [sample_race]) sample_race
           [("lat", TStr "50"); ("long", TStr "5")] (TStr "5") (TStr "50")
           (TDict [("elevation", TInt 401)]) (TInt 401));
    try reflexivity.
  intros h body _. split; reflexivity.
Defined.

(* ================================================================== *)
(** * Properties that hold on every store *)

(** ** Writes of [_prepare_response], on any store *)

Lemma grown_refl b h : grown b h h.
Proof. by split. Qed.

Lemma grown_trans b h1 h2 h3 : grown b h1 h2 -> grown b h2 h3 -> grown b h1 h3.
Proof.
  intros [L1 S1] [L2 S2]. split; [lia|]. intros l Hl. by rewrite S2, S1.
Qed.

Lemma tidy_snoc b h o : tidy b h -> obj_new b o -> tidy b (h ++ [o]).
Proof.
  intros [Hlen Hcl] Ho. split; [rewrite length_app; simpl; lia|].
  intros l o' Hl Hlo. destruct (decide (l < length h)) as [Hlt|Hge].
  - rewrite lookup_app_l in Hlo by done. by apply (Hcl l).
  - rewrite lookup_app_r in Hlo by lia.
    apply list_elem_of_lookup_2, list_elem_of_singleton in Hlo as ->. done.
Qed.

Lemma grown_snoc b h o : b <= length h -> grown b h (h ++ [o]).
Proof.
  intros Hlen. split; [rewrite length_app; lia|].
  intros l Hl. by rewrite lookup_app_l by lia.
Qed.

Lemma tidy_insert b h y o : tidy b h -> obj_new b o -> tidy b (<[y := o]> h).
Proof.
  intros [Hlen Hcl] Ho. split; [by rewrite length_insert|].
  intros l o' Hl Hlo. destruct (decide (l = y)) as [->|Hne].
  - destruct (decide (y < length h)) as [Hlt|Hge].
    + rewrite list_lookup_insert_eq in Hlo by done. by injection Hlo as <-.
    + rewrite list_insert_ge in Hlo by lia. by apply (Hcl y).
  - rewrite list_lookup_insert_ne in Hlo by done. by apply (Hcl l).
Qed.

Lemma grown_insert b h y o : b <= y -> grown b h (<[y := o]> h).
Proof.
  intros Hy. split; [by rewrite length_insert|].
  intros l Hl. rewrite list_lookup_insert_ne; [done|lia].
Qed.

Lemma tidy_list_append b h y v : tidy b h -> b <= y -> fresh b v -> tidy b (list_append y v h).
Proof.
  intros Ht Hy Hv. unfold list_append.
  destruct (h !! y) as [[ |elems| ]|] eqn:E; try done.
  apply tidy_insert; [done|]. simpl. apply Forall_app. split; [|by repeat constructor].
  exact (proj2 Ht y _ Hy E).
Qed.

Lemma grown_list_append b h y v : b <= y -> grown b h (list_append y v h).
Proof.
  intros Hy. unfold list_append.
  destruct (h !! y) as [[ |elems| ]|]; try apply grown_refl. by apply grown_insert.
Qed.

Lemma tidy_dict_store b h y k v : tidy b h -> b <= y -> fresh b v -> tidy b (dict_store y k v h).
Proof.
  intros Ht Hy Hv. unfold dict_store.
  destruct (h !! y) as [[items| | ]|] eqn:E; try done.
  apply tidy_insert; [done|]. simpl. apply alist_set_Forall; [done|].
  exact (proj2 Ht y _ Hy E).
Qed.

Lemma grown_dict_store b h y k v : b <= y -> grown b h (dict_store y k v h).
Proof.
  intros Hy. unfold dict_store.
  destruct (h !! y) as [[items| | ]|]; try apply grown_refl. by apply grown_insert.
Qed.

Lemma memo_fresh_cons b l y m : b <= y -> memo_fresh b m -> memo_fresh b ((l, y) :: m).
Proof.
  intros Hy Hm l' y'. simpl. destruct (Nat.eqb l' l); [by intros [= <-]|apply Hm].
Qed.

Section CopySafe.
Variable b : nat.
Variable copy : list (nat * nat) -> list obj -> value
                -> option (list (nat * nat) * list obj * value).
Hypothesis copy_safe : forall m h v m' h' v',
  copy m h v = Some (m', h', v') -> tidy b h -> memo_fresh b m ->
  tidy b h' /\ memo_fresh b m' /\ grown b h h' /\ fresh b v'.

Lemma copy_elems_safe y : b <= y -> forall xs m h m' h',
  copy_elems copy y xs m h = Some (m', h') -> tidy b h -> memo_fresh b m ->
  tidy b h' /\ memo_fresh b m' /\ grown b h h'.
Proof.
  intros Hy. induction xs as [|x xs IH]; intros m h m' h' H Ht Hm; simpl in H.
  - injection H as <- <-. split; [done|]. split; [done|apply grown_refl].
  - destruct (copy m h x) as [[[m1 h1] x']|] eqn:E; [|done].
    destruct (copy_safe _ _ _ _ _ _ E Ht Hm) as (Ht1 & Hm1 & Hg1 & Hx).
    destruct (IH _ _ _ _ H (tidy_list_append _ _ _ _ Ht1 Hy Hx) Hm1) as (Ht2 & Hm2 & Hg2).
    split; [done|]. split; [done|].
    eapply grown_trans; [exact Hg1|]. eapply grown_trans; [|exact Hg2].
    by apply grown_list_append.
Qed.

Lemma copy_items_safe y : b <= y -> forall kvs m h m' h',
  copy_items copy y kvs m h = Some (m', h') -> tidy b h -> memo_fresh b m ->
  tidy b h' /\ memo_fresh b m' /\ grown b h h'.
Proof.
  intros Hy. induction kvs as [|[k x] kvs IH]; intros m h m' h' H Ht Hm; simpl in H.
  - injection H as <- <-. split; [done|]. split; [done|apply grown_refl].
  - destruct (copy m h x) as [[[m1 h1] x']|] eqn:E; [|done].
    destruct (copy_safe _ _ _ _ _ _ E Ht Hm) as (Ht1 & Hm1 & Hg1 & Hx).
    destruct (IH _ _ _ _ H (tidy_dict_store _ _ _ _ _ Ht1 Hy Hx) Hm1) as (Ht2 & Hm2 & Hg2).
    split; [done|]. split; [done|].
    eapply grown_trans; [exact Hg1|]. eapply grown_trans; [|exact Hg2].
    by apply grown_dict_store.
Qed.
End CopySafe.

Lemma deepcopy_fuel_safe b fuel : forall m h v m' h' v',
  deepcopy_fuel fuel m h v = Some (m', h', v') -> tidy b h -> memo_fresh b m ->
  tidy b h' /\ memo_fresh b m' /\ grown b h h' /\ fresh b v'.
Proof.
  induction fuel as [|fuel IH]; intros m h v m' h' v' H Ht Hm.
  - destruct v as [ | | | | |l]; simpl in H; try (injection H as <- <- <-;
      (split; [done|]; split; [done|]; split; [apply grown_refl|done])).
    destruct (memo_get l m) as [y|] eqn:E; [|done].
    injection H as <- <- <-. split; [done|]. split; [done|].
    split; [apply grown_refl|]. by apply (Hm l).
  - destruct v as [ | | | | |l]; simpl in H; try (injection H as <- <- <-;
      (split; [done|]; split; [done|]; split; [apply grown_refl|done])).
    destruct (memo_get l m) as [y|] eqn:E.
    { injection H as <- <- <-. split; [done|]. split; [done|].
      split; [apply grown_refl|]. by apply (Hm l). }
    pose proof (proj1 Ht) as Hlen.
    assert (Hm1 : memo_fresh b ((l, length h) :: m)) by (by apply memo_fresh_cons).
    destruct (h !! l) as [[kvs|xs|r]|] eqn:El.
    + destruct (copy_items (deepcopy_fuel fuel) (length h) kvs ((l, length h) :: m)
                  (h ++ [ODict []])) as [[m1 h1]|] eqn:Ec; [|done].
      injection H as <- <- <-.
      destruct (copy_items_safe b _ IH (length h) Hlen _ _ _ _ _ Ec
                  (tidy_snoc b h (ODict []) Ht (List.Forall_nil _)) Hm1) as (Ht1 & Hm2 & Hg).
      split; [done|]. split; [done|]. split; [|done].
      eapply grown_trans; [|exact Hg]. by apply grown_snoc.
    + destruct (copy_elems (deepcopy_fuel fuel) (length h) xs ((l, length h) :: m)
                  (h ++ [OList []])) as [[m1 h1]|] eqn:Ec; [|done].
      injection H as <- <- <-.
      destruct (copy_elems_safe b _ IH (length h) Hlen _ _ _ _ _ Ec
                  (tidy_snoc b h (OList []) Ht (List.Forall_nil _)) Hm1) as (Ht1 & Hm2 & Hg).
      split; [done|]. split; [done|]. split; [|done].
      eapply grown_trans; [|exact Hg]. by apply grown_snoc.
    + destruct (deepcopy_fuel fuel ((l, length h) :: m) (h ++ [OItem VNone]) r)
        as [[[m1 h1] r']|] eqn:Ec; [|done].
      injection H as <- <- <-.
      destruct (IH _ _ _ _ _ _ Ec (tidy_snoc b h (OItem VNone) Ht I) Hm1) as (Ht1 & Hm2 & Hg & _).
      split; [by apply tidy_insert|]. split; [done|]. split; [|done].
      eapply grown_trans; [by apply grown_snoc|].
      eapply grown_trans; [exact Hg|]. by apply grown_insert.
    + injection H as <- <- <-. split; [done|]. split; [done|].
      split; [apply grown_refl|]. simpl. apply lookup_ge_None in El. lia.
Qed.

(** *** Rules for the operations on the store *)

Lemma safe_ret b {A} (a : A) (Q : A -> Prop) : Q a -> safe b (ret a) Q.
Proof. intros Ha h Ht. split; [apply grown_refl|done]. Qed.

Lemma safe_read b {A} (f : list obj -> result A) (Q : A -> Prop) :
  (forall h, tidy b h ->
     match f h with Ok a => Q a | Raise e => is_ErgastException e = false end) ->
  safe b (read f) Q.
Proof. intros Hf h Ht. split; [apply grown_refl|]. split; [done|by apply Hf]. Qed.

Lemma safe_bind b {A B} (m : M (list obj) A) (k : A -> M (list obj) B) Q R :
  safe b m Q -> (forall a, Q a -> safe b (k a) R) -> safe b (bind m k) R.
Proof.
  intros Hm Hk h Ht. destruct (Hm h Ht) as (Hg & Ht1 & Hq). unfold bind.
  destruct (m h) as [[a|e] h1]; simpl in *; [|done].
  destruct (Hk a Hq h1 Ht1) as (Hg2 & Ht2 & Hr).
  split; [by apply (grown_trans b h h1)|done].
Qed.

Lemma safe_weaken b {A} (m : M (list obj) A) (Q R : A -> Prop) :
  safe b m Q -> (forall a, Q a -> R a) -> safe b m R.
Proof.
  intros Hm HQR h Ht. destruct (Hm h Ht) as (Hg & Ht1 & Hq).
  split; [done|]. split; [done|]. destruct (fst (m h)); [by apply HQR|done].
Qed.

Lemma safe_for_each b {A} (body : A -> M (list obj) unit) xs :
  (forall x, safe b (body x) (fun _ => True)) ->
  safe b (for_each body xs) (fun _ => True).
Proof.
  intros Hb. induction xs as [|x xs IH]; simpl; [by apply safe_ret|].
  by apply (safe_bind b _ _ (fun _ => True)).
Qed.

Lemma safe_alloc b o : obj_new b o -> safe b (alloc o) (fresh b).
Proof.
  intros Ho h Ht. unfold alloc; simpl.
  split; [apply grown_snoc, Ht|]. split; [by apply tidy_snoc|apply Ht].
Qed.

Lemma safe_dict_pop b v k d :
  fresh b v -> fresh b d -> safe b (dict_pop v k d) (fresh b).
Proof.
  intros Hv Hd h Ht. unfold dict_pop.
  destruct v as [ | | | | |l]; try (split; [apply grown_refl|done]).
  destruct (h !! l) as [[its|xs|r]|] eqn:E; try (split; [apply grown_refl|done]).
  pose proof (proj2 Ht l _ Hv E) as Hits. simpl in *.
  split; [by apply grown_insert|]. split.
  - apply tidy_insert; [done|]. by apply alist_remove_fresh.
  - destruct (alist_get k its) as [x|] eqn:Ex; [|done].
    exact (alist_get_fresh (fresh b) _ _ _ Hits Ex).
Qed.

Lemma alist_update_Forall (Q : value -> Prop) kvs its :
  Forall (fun kv => Q (snd kv)) kvs -> Forall (fun kv => Q (snd kv)) its ->
  Forall (fun kv => Q (snd kv)) (alist_update kvs its).
Proof.
  unfold alist_update. intros Hk. revert its.
  induction Hk as [|[k v] kvs Hv _ IH]; intros its Hits; simpl; [done|].
  by apply IH, alist_set_Forall.
Qed.

Lemma safe_dict_update b v kvs :
  fresh b v -> Forall (fun kv => fresh b (snd kv)) kvs ->
  safe b (dict_update v kvs) (fun _ => True).
Proof.
  intros Hv Hk h Ht. unfold dict_update.
  destruct v as [ | | | | |l]; try (split; [apply grown_refl|done]).
  destruct (h !! l) as [[its|xs|r]|] eqn:E; try (split; [apply grown_refl|done]).
  pose proof (proj2 Ht l _ Hv E) as Hits. simpl in *.
  split; [by apply grown_insert|]. split; [|done].
  apply tidy_insert; [done|]. by apply alist_update_Forall.
Qed.

Lemma safe_setitem_str b x k v :
  fresh b x -> fresh b v -> safe b (setitem_str x k v) (fun _ => True).
Proof.
  intros Hx Hv h Ht. unfold setitem_str.
  destruct x as [ | | | | |l]; try (split; [apply grown_refl|done]).
  destruct (h !! l) as [[its|xs|r]|] eqn:E; try (split; [apply grown_refl|done]).
  pose proof (proj2 Ht l _ Hx E) as Hits. simpl in *.
  split; [by apply grown_insert|]. split; [|done].
  apply tidy_insert; [done|]. by apply alist_set_Forall.
Qed.

Lemma safe_deepcopy b v : safe b (deepcopy v) (fresh b).
Proof.
  intros h Ht. unfold deepcopy.
  destruct (deepcopy_fuel (S (length h)) [] h v) as [[[m' h'] v']|] eqn:E.
  - destruct (deepcopy_fuel_safe b _ _ _ _ _ _ _ E Ht) as (Ht1 & _ & Hg & Hv); [done|].
    done.
  - split; [apply grown_refl|done].
Qed.

(** *** Reads of a tidy store *)

Lemma chars_fresh b s : Forall (fresh b) (chars s).
Proof. unfold chars. apply Forall_map, Forall_forall. done. Qed.

Lemma getitem_int_safe b v i :
  fresh b v -> safe b (read (fun h => getitem_int h v i)) (fresh b).
Proof.
  intros Hv. apply safe_read. intros h Ht. unfold getitem_int.
  destruct v as [ | | | |s|l]; try done.
  - destruct (chars s !! i) as [c|] eqn:E; [|done].
    exact (proj1 (Forall_lookup _ _) (chars_fresh b s) _ _ E).
  - destruct (h !! l) as [[its|xs|r]|] eqn:E; try done.
    destruct (xs !! i) as [x|] eqn:Ex; [|done].
    exact (proj1 (Forall_lookup _ _) (proj2 Ht l _ Hv E) _ _ Ex).
Qed.

Lemma dict_get_safe b v k d :
  fresh b v -> fresh b d -> safe b (read (fun h => dict_get h v k d)) (fresh b).
Proof.
  intros Hv Hd. apply safe_read. intros h Ht. unfold dict_get.
  destruct v as [ | | | | |l]; try done.
  destruct (h !! l) as [[its|xs|r]|] eqn:E; try done.
  destruct (alist_get k its) as [x|] eqn:Ex; [|done].
  exact (alist_get_fresh (fresh b) _ _ _ (proj2 Ht l _ Hv E) Ex).
Qed.

Lemma py_iter_safe b v :
  fresh b v -> safe b (read (fun h => py_iter h v)) (Forall (fresh b)).
Proof.
  intros Hv. apply safe_read. intros h Ht. unfold py_iter.
  destruct v as [ | | | |s|l]; try done.
  - apply chars_fresh.
  - destruct (h !! l) as [[its|xs|r]|] eqn:E; try done.
    + apply Forall_map, Forall_forall. done.
    + exact (proj2 Ht l _ Hv E).
Qed.

Lemma names_safe b elems :
  Forall (fresh b) elems ->
  safe b (read (fun h => map_result (fun e => dict_get h e "name" (VStr "")) elems))
    (Forall (fresh b)).
Proof.
  intros He. apply safe_read. intros h Ht.
  induction He as [|e elems Hx _ IH]; simpl; [done|].
  pose proof (dict_get_safe b e "name" (VStr "") Hx I h Ht) as (_ & _ & Hg).
  simpl in Hg. destruct (dict_get h e "name" (VStr "")) as [y|ex]; [|done].
  destruct (map_result _ elems) as [ys|ex]; [by constructor|done].
Qed.

Lemma float_of_Z_raises z e : float_of_Z z = Raise e -> is_ErgastException e = false.
Proof.
  unfold float_of_Z. destruct (binary_normalize 53 1024 z 0 false); by intros [= <-].
Qed.

Lemma py_float_safe fos b v :
  safe b (read (fun _ : list obj => py_float fos v)) (fun _ => True).
Proof.
  apply safe_read. intros h _. destruct (py_float fos v) as [f|e] eqn:E; [done|].
  unfold py_float in E. destruct v as [ |c|z|f0|s|l]; try done; try (by injection E as <-).
  - by apply float_of_Z_raises in E.
  - by apply float_of_Z_raises in E.
  - destruct (fos s); [done|by injection E as <-].
Qed.

Ltac safe_step Q := eapply (safe_bind _ _ _ Q); [|intros ? ?].

Lemma flatten_driver_safe b data i :
  fresh b data -> safe b (flatten_driver data i) (fun _ => True).
Proof.
  intros Hd. unfold flatten_driver.
  safe_step (fresh b); [by apply getitem_int_safe|].
  safe_step (fresh b); [by apply safe_dict_pop|].
  safe_step (fun _ : bool => True); [by apply safe_read|].
  destruct a1; [|by apply safe_ret].
  safe_step (fresh b); [by apply getitem_int_safe|].
  safe_step (fresh b); [by apply dict_get_safe|].
  safe_step (fresh b); [by apply dict_get_safe|].
  apply safe_dict_update; [done|]. by repeat constructor.
Qed.

Lemma flatten_constructors_safe b data i :
  fresh b data -> safe b (flatten_constructors data i) (fun _ => True).
Proof.
  intros Hd. unfold flatten_constructors.
  safe_step (fresh b); [by apply getitem_int_safe|].
  safe_step (fresh b); [by apply safe_dict_pop|].
  safe_step (fun _ : bool => True); [by apply safe_read|].
  destruct a1; [|by apply safe_ret].
  safe_step (fresh b); [by apply getitem_int_safe|].
  safe_step (Forall (fresh b)); [by apply py_iter_safe|].
  safe_step (Forall (fresh b)); [by apply names_safe|].
  safe_step (fresh b); [by apply safe_alloc|].
  apply safe_dict_update; [done|]. by repeat constructor.
Qed.

Lemma flatten_location_safe fos b data i :
  fresh b data -> safe b (flatten_location fos data i) (fun _ => True).
Proof.
  intros Hd. unfold flatten_location.
  safe_step (fresh b); [by apply getitem_int_safe|].
  safe_step (fresh b); [by apply safe_dict_pop|].
  safe_step (fun _ : bool => True); [by apply safe_read|].
  destruct a1; [|by apply safe_ret].
  safe_step (fresh b); [by apply getitem_int_safe|].
  safe_step (fresh b); [by apply dict_get_safe|].
  safe_step (fun _ : pyfloat => True); [by apply py_float_safe|].
  safe_step (fresh b); [by apply dict_get_safe|].
  safe_step (fun _ : pyfloat => True); [by apply py_float_safe|].
  safe_step (fresh b); [by apply dict_get_safe|].
  safe_step (fresh b); [by apply dict_get_safe|].
  apply safe_dict_update; [done|]. by repeat constructor.
Qed.

Lemma getitem_int_raises h v i e :
  getitem_int h v i = Raise e -> is_ErgastException e = false.
Proof.
  unfold getitem_int. destruct v as [ | | | |s|l]; try (by intros [= <-]).
  - destruct (chars s !! i); by intros [= <-].
  - destruct (h !! l) as [[its|xs|r]|]; try (by intros [= <-]).
    destruct (xs !! i); by intros [= <-].
Qed.

Lemma attach_response_safe b response data i :
  fresh b data -> safe b (attach_response response data i) (fun _ => True).
Proof.
  intros Hd. unfold attach_response.
  safe_step (fun _ : value => True).
  { apply safe_read. intros h _.
    destruct (getitem_int h response i) as [x|e] eqn:E; [done|].
    by apply (getitem_int_raises h response i). }
  safe_step (fresh b); [by apply safe_alloc|].
  safe_step (fresh b); [by apply getitem_int_safe|].
  by apply safe_setitem_str.
Qed.

Lemma prepare_row_safe fos b response data i :
  fresh b data -> safe b (prepare_row fos response data i) (fun _ => True).
Proof.
  intros Hd. unfold prepare_row.
  safe_step (fun _ : unit => True); [by apply flatten_driver_safe|].
  safe_step (fun _ : unit => True); [by apply flatten_constructors_safe|].
  safe_step (fun _ : unit => True); [by apply flatten_location_safe|].
  by apply attach_response_safe.
Qed.

Lemma py_len_raises h v e : py_len h v = Raise e -> is_ErgastException e = false.
Proof.
  unfold py_len. destruct v as [ | | | |s|l]; try (by intros [= <-]).
  destruct (h !! l) as [[its|xs|r]|]; by intros [= <-].
Qed.

Lemma prepare_response_safe fos b response :
  safe b (_prepare_response fos response) (fresh b).
Proof.
  unfold _prepare_response.
  safe_step (fresh b); [apply safe_deepcopy|].
  safe_step (fun _ : nat => True).
  { apply safe_read. intros h _. destruct (py_len h a) as [n|e] eqn:E; [done|].
    by apply (py_len_raises h a). }
  safe_step (fun _ : unit => True).
  { apply safe_for_each. intros x. by apply prepare_row_safe. }
  by apply safe_ret.
Qed.

(** X18. For every store and every argument, well-formed or not,
    [_prepare_response] leaves every object that existed before the call as
    it was; the value it returns denotes no older object, and the exception
    it raises, if any, is never one of the module's [ErgastException]s. *)
Theorem prepare_response_writes_nothing_old fos response (h : list obj) :
  let out := _prepare_response fos response h in
  (forall l o, h !! l = Some o -> snd out !! l = Some o)
  /\ length h <= length (snd out)
  /\ match fst out with
     | Ok data => fresh (length h) data
     | Raise e => is_ErgastException e = false
     end.
Proof.
  intros out.
  assert (Ht : tidy (length h) h).
  { split; [done|]. intros l o Hl Hlo. apply lookup_lt_Some in Hlo. lia. }
  destruct (prepare_response_safe fos (length h) response h Ht) as ([Hlen Hg] & _ & Hq).
  split; [|done]. intros l o Hl. rewrite Hg; [done|]. by apply lookup_lt_Some in Hl.
Qed.

(** ** What an accessor does whatever the server answers *)

Lemma calm_ret {A} (a : A) : calm (@ret world A a).
Proof. intros w. by repeat split. Qed.

Lemma calm_bind {A B} (m : M world A) (k : A -> M world B) :
  calm m -> (forall a, calm (k a)) -> calm (bind m k).
Proof.
  intros Hm Hk w. destruct (Hm w) as (Hr & Hw & Hs & He). unfold bind.
  destruct (m w) as [[a|e] w1]; simpl in *.
  2: { repeat (split; [done|]). intros e0 [= <-]. by apply He. }
  destruct (Hk a w1) as (Hr2 & Hw2 & Hs2 & He2).
  split; [congruence|]. split; [congruence|]. split; [|done].
  intros l o Hl. by apply Hs2, Hs.
Qed.

Lemma calm_subscript_str v k : calm (subscript_str v k).
Proof.
  intros w. unfold subscript_str, read; simpl. repeat split; try done.
  intros e. unfold getitem_str. destruct v as [ | | | | |l]; try (by intros [= <-]).
  destruct (store w !! l) as [[its|xs|r]|]; try (by intros [= <-]).
  destruct (alist_get k its); by intros [= <-].
Qed.

Lemma calm_subscript_int v i : calm (subscript_int v i).
Proof.
  intros w. unfold subscript_int, read; simpl. repeat split; try done.
  intros e. apply getitem_int_raises.
Qed.

Lemma map_result_raises {A B} (f : A -> result B) (P : exn -> Prop) xs e :
  (forall x e', f x = Raise e' -> P e') -> map_result f xs = Raise e -> P e.
Proof.
  intros Hf. induction xs as [|x xs IH]; simpl; [done|].
  destruct (f x) as [y|e'] eqn:E; [|intros [= <-]; by apply (Hf x)].
  destruct (map_result f xs) as [ys|e']; [done|]. intros [= <-]. by apply IH.
Qed.

Lemma DataFrame_raises scalars h data e :
  DataFrame scalars h data = Raise e -> is_ErgastException e = false.
Proof.
  unfold DataFrame. destruct data as [ | | | | |l]; try (by intros [= <-]).
  destruct (h !! l) as [[[|kv its]|xs|r]|]; try (by intros [= <-]).
  destruct (map_result _ xs) as [rows|e'] eqn:E; [done|]. intros [= <-].
  revert E. apply (map_result_raises _ (fun e => is_ErgastException e = false)).
  intros x e0. destruct x as [ | | | | |le]; try (by intros [= <-]).
  destruct (h !! le) as [[its|ys|r]|]; by intros [= <-].
Qed.

Lemma calm_frame_new fos scalars response :
  calm (ErgastResultFrame_new fos scalars VNone response).
Proof.
  unfold ErgastResultFrame_new. apply calm_bind.
  - intros w. unfold lift_store.
    assert (Ht : tidy (length (store w)) (store w)).
    { split; [done|]. intros l o Hl Hlo. apply lookup_lt_Some in Hlo. lia. }
    destruct (prepare_response_safe fos _ response _ Ht) as ([_ Hg] & _ & Hq).
    destruct (_prepare_response fos response (store w)) as [r h']; simpl in *.
    split; [done|]. split; [done|]. split.
    + intros l o Hl. rewrite Hg; [done|]. by apply lookup_lt_Some in Hl.
    + intros e E. simpl in E. by subst r.
  - intros data w. unfold read; simpl. repeat split; try done.
    intros e. apply DataFrame_raises.
Qed.

Lemma accessor_frame_bind {A} url (sent : M world value) (k : value -> M world A) w :
  requests (snd (sent w)) = requests w ++ [url] ->
  warnings (snd (sent w)) = warnings w ->
  (forall l o, store w !! l = Some o -> store (snd (sent w)) !! l = Some o) ->
  (forall v, calm (k v)) ->
  accessor_frame w url (sent w) (bind sent k w).
Proof.
  intros Hr Hw Hs Hk. unfold accessor_frame, bind.
  destruct (sent w) as [[v|e] w1]; simpl in *.
  2: { repeat (split; [done|]). by intros e0 [= <-]. }
  destruct (Hk v w1) as (Hr2 & Hw2 & Hs2 & He2).
  split; [congruence|]. split; [congruence|]. split.
  - intros l o Hl. by apply Hs2, Hs.
  - intros e E Hee. apply He2 in E. congruence.
Qed.

Lemma get_frame version server json_loads url w :
  let out := _get version server json_loads url w in
  requests (snd out) = requests w ++ [url]
  /\ warnings (snd out) = warnings w
  /\ forall l o, store w !! l = Some o -> store (snd out) !! l = Some o.
Proof.
  unfold _get, bind, requests_get, raise; simpl.
  destruct (Z.eqb _ 200); [|done].
  destruct (json_loads _) as [t|exc]; [|done].
  unfold lift_store, alloc_tree; simpl. split; [done|]. split; [done|].
  intros l o Hl. by apply lookup_app_l_Some.
Qed.

Ltac calm_steps :=
  repeat first
    [ apply calm_frame_new
    | apply calm_bind; [first [apply calm_subscript_str | apply calm_subscript_int]|intros ?] ].

(** X19. Whatever the server answers and whatever the document looks like,
    each of [get_circuits], [get_driver_standings] and
    [get_constructor_standings] sends exactly one request, to
    [base_url + selector + suffix], emits no warning, changes no stored
    object, and raises an [ErgastException] only if [_get] raised it. *)
Theorem accessors_frame version server json_loads fos scalars self w :
  let get suffix := _get version server json_loads (base_url +:+ _selector self +:+ suffix) w in
  accessor_frame w (base_url +:+ _selector self +:+ "/circuits.json")
    (get "/circuits.json") (get_circuits version server json_loads fos scalars self w)
  /\ accessor_frame w (base_url +:+ _selector self +:+ "/driverStandings.json")
       (get "/driverStandings.json")
       (get_driver_standings version server json_loads fos scalars self w)
  /\ accessor_frame w (base_url +:+ _selector self +:+ "/constructorStandings.json")
       (get "/constructorStandings.json")
       (get_constructor_standings version server json_loads fos scalars self w).
Proof.
  intros get. subst get. cbv beta.
  split; [|split].
  - destruct (get_frame version server json_loads
                (base_url +:+ _selector self +:+ "/circuits.json") w) as (Hr & Hw & Hs).
    unfold get_circuits. cbv zeta. apply accessor_frame_bind; try done.
    intros v. calm_steps.
  - destruct (get_frame version server json_loads
                (base_url +:+ _selector self +:+ "/driverStandings.json") w) as (Hr & Hw & Hs).
    unfold get_driver_standings. cbv zeta. apply accessor_frame_bind; try done.
    intros v. calm_steps.
  - destruct (get_frame version server json_loads
                (base_url +:+ _selector self +:+ "/constructorStandings.json") w)
      as (Hr & Hw & Hs).
    unfold get_constructor_standings. cbv zeta. apply accessor_frame_bind; try done.
    intros v. calm_steps.
Qed.
